(** * Power-line loss harness (scratch/powerline_loss_test.py)

    A shallow embedding of the scenario builder and of the risk
    aggregation of [scratch/powerline_loss_test.py].

    Conventions of the embedding:
    - Python [int]s are [Z]; [//] is [Z.div] (floor division).
    - the aggregation is embedded twice. [Fp.evaluate_losses] computes
      in the arithmetic of the arrays, a parameter, with numpy's order
      of summation. Its instances are IEEE 754: [rounded binary32] and
      [rounded binary64] round every operation to the nearest float of
      the format, on the rationals (the cells of the value map in the
      format named, the loaded grids and the report in binary64);
      [float64] is on the processor's floats. [evaluate_losses]
      computes exactly: floats are the rationals they denote, in [Q],
      and no operation rounds. The two agree wherever the sums are of
      whole numbers that the formats hold, up to the one rounding of a
      quotient; the statements on [evaluate_losses] that depend on it
      say so.
    - an exception is a value of [exn]; code that may raise returns
      [result].
    - a text file is the [string] of everything written to it.
    - the file system under [OUTPUT_FOLDER] and [np.loadtxt] are the
      fields of a [World]. *)

From Stdlib Require Import NArith ZArith QArith Qminmax Qround Qpower Qabs Bool List Lia Lqa.
From Stdlib Require Import Strings.Ascii Strings.String Numbers.DecimalString.
From Stdlib Require Import Numbers.DecimalPos Numbers.DecimalZ.
From Stdlib Require Import Sorting.Permutation Sorting.Sorted Sorting.Mergesort Structures.Orders.
From Stdlib Require Floats.
Import ListNotations.

(** ** Python runtime fragments *)

Module Py.

Inductive exn : Set :=
| ValueError
| IndexError
| RuntimeError
| ZeroDivisionError
| OSError.

Inductive result (A : Type) : Type :=
| Ok (a : A)
| Raise (e : exn).

Arguments Ok {A} a.
Arguments Raise {A} e.

Definition bind {A B : Type} (m : result A) (k : A -> result B) : result B :=
  match m with
  | Ok a => k a
  | Raise e => Raise e
  end.

Definition is_ok {A : Type} (m : result A) : bool :=
  match m with Ok _ => true | Raise _ => false end.

(** [str(n)] for an int. *)
Definition str_int (n : Z) : string :=
  NilZero.string_of_int (Z.to_int n).

(** [range(lo, hi)] *)
Definition range (lo hi : Z) : list Z :=
  map (fun k => lo + Z.of_nat k)%Z (seq 0 (Z.to_nat (hi - lo))).

(** Index normalisation of a sequence of length [n]: [-n <= i < n],
    negative indices count from the end; anything else is an
    [IndexError]. *)
Definition norm_index (n : nat) (i : Z) : result nat :=
  if ((0 <=? i) && (i <? Z.of_nat n))%Z then Ok (Z.to_nat i)
  else if ((- Z.of_nat n <=? i) && (i <? 0))%Z then Ok (Z.to_nat (i + Z.of_nat n))
  else Raise IndexError.

(** [sep.join(parts)] *)
Fixpoint join (sep : string) (parts : list string) : string :=
  match parts with
  | [] => EmptyString
  | [p] => p
  | p :: ps => (p ++ sep ++ join sep ps)%string
  end.

(** Pieces of [s] between occurrences of the character [sep]
    ([s.split(sep)]); never the empty list. *)
Fixpoint split_on (sep : ascii) (s : string) : list string :=
  match s with
  | EmptyString => [EmptyString]
  | String c s' =>
      if Ascii.eqb c sep then EmptyString :: split_on sep s'
      else match split_on sep s' with
           | [] => [String c EmptyString]
           | p :: ps => String c p :: ps
           end
  end.

Definition is_empty (s : string) : bool :=
  match s with EmptyString => true | _ => false end.

(** The lines of a text, without their terminating newline: what
    iterating over a text file yields, each line stripped of its
    ["\n"]. *)
Definition newline : ascii := "010"%char.
Definition carriage_return : ascii := "013"%char.

Definition file_lines (s : string) : list string :=
  let ps := split_on newline s in
  if is_empty (last ps EmptyString) then removelast ps else ps.

(** [line.split()] on blanks: the non-empty pieces. *)
Definition tokens (s : string) : list string :=
  filter (fun p => negb (is_empty p)) (split_on " "%char s).

(** The content of a file after the given sequence of [write] calls. *)
Definition written (chunks : list string) : string :=
  fold_right String.append EmptyString chunks.

(** [c not in s] *)
Fixpoint lacks (c : ascii) (s : string) : bool :=
  match s with
  | EmptyString => true
  | String a s' => negb (Ascii.eqb a c) && lacks c s'
  end.

End Py.

Import Py.

Notation "x <- m ;; k" := (Py.bind m (fun x => k))
  (at level 61, m at next level, right associativity).

(** ** numpy fragments *)

Module Np.

(** A two-dimensional array. numpy keeps the shape with the data, so a
    [0 x n] array still knows [n]; the row count is [length rows]. *)
Record array2 : Type := mkArray2 {
  ncols_of : nat;
  rows_of : list (list Q)
}.

Definition nrows_of (a : array2) : nat := List.length (rows_of a).

(** Every row has the width the shape announces. *)
Definition rectangular (a : array2) : Prop :=
  Forall (fun r => List.length r = ncols_of a) (rows_of a).

(** What [np.loadtxt] may hand back: with the default [ndmin=0] a file
    of one line or one column is squeezed to fewer dimensions. *)
Inductive ndarray : Type :=
| Nd0 (x : Q)
| Nd1 (v : list Q)
| Nd2 (a : array2).

(** [a[i, j]] for indices in range *)
Definition cell (a : array2) (i j : nat) : Q :=
  nth j (nth i (rows_of a) []) 0%Q.

(** [np.ones((nrows, ncols))] *)
Definition ones (nrows ncols : Z) : result array2 :=
  if ((nrows <? 0) || (ncols <? 0))%Z then Raise ValueError
  else Ok (mkArray2 (Z.to_nat ncols)
             (repeat (repeat 1%Q (Z.to_nat ncols)) (Z.to_nat nrows))).

Fixpoint list_set (l : list Q) (j : nat) (x : Q) : list Q :=
  match l, j with
  | [], _ => []
  | _ :: t, O => x :: t
  | h :: t, S j' => h :: list_set t j' x
  end.

(** [a[:, i] = x] *)
Definition set_column (a : array2) (i : Z) (x : Q) : result array2 :=
  j <- norm_index (ncols_of a) i ;;
  Ok (mkArray2 (ncols_of a) (map (fun r => list_set r j x) (rows_of a))).

(** [a[:, i]] on a two-dimensional array *)
Definition column (a : array2) (i : Z) : result (list Q) :=
  j <- norm_index (ncols_of a) i ;;
  Ok (map (fun r => nth j r 0%Q) (rows_of a)).

(** [g[:, i]] on whatever [np.loadtxt] returned: two indices on an
    array of fewer dimensions raise [IndexError]. *)
Definition column_nd (g : ndarray) (i : Z) : result (list Q) :=
  match g with
  | Nd2 a => column a i
  | Nd1 _ | Nd0 _ => Raise IndexError
  end.

(** [v == 1], elementwise *)
Definition eq_one (v : list Q) : list bool :=
  map (fun x => Qeq_bool x 1) v.

(** [v[mask]] with a boolean mask: the mask must be as long as [v]. *)
Fixpoint select (v : list Q) (mask : list bool) : list Q :=
  match v, mask with
  | x :: v', b :: mask' => if b then x :: select v' mask' else select v' mask'
  | _, _ => []
  end.

Definition bool_index (v : list Q) (mask : list bool) : result (list Q) :=
  if Nat.eqb (List.length v) (List.length mask) then Ok (select v mask)
  else Raise IndexError.

(** [np.sum] without rounding, where the order of the additions does
    not matter; [Fp.sum] has numpy's order. *)
Definition sum (v : list Q) : Q := fold_left Qplus v 0%Q.

(** [np.any] *)
Definition any (mask : list bool) : bool := existsb (fun b => b) mask.

(** [np.mean] without rounding; on an empty sequence numpy warns and
    yields nan, which no caller here survives (see [max]). *)
Definition mean (v : list Q) : Q := sum v / inject_Z (Z.of_nat (List.length v)).

(** [np.max]: [ValueError] on an empty sequence. *)
Definition max (v : list Q) : result Q :=
  match v with
  | [] => Raise ValueError
  | x :: v' => Ok (fold_left Qmax v' x)
  end.

(** ["%.1f" % x]: one decimal, round half to even on the exact value. *)
Definition round_tenths (x : Q) : Z :=
  let t := (10 * Z.abs (Qnum x))%Z in
  let d := Z.pos (Qden x) in
  let q := (t / d)%Z in
  let r := (t mod d)%Z in
  if (2 * r <? d)%Z then q
  else if (d <? 2 * r)%Z then (q + 1)%Z
  else if Z.even q then q else (q + 1)%Z.

Definition format_1f (x : Q) : string :=
  let t := round_tenths x in
  ((if (Qnum x <? 0)%Z then "-" else "")
     ++ str_int (t / 10) ++ "." ++ str_int (t mod 10))%string.

(** [np.savetxt(path, a, fmt="%.1f", delimiter=" ")]: the text written. *)
Definition savetxt (a : array2) : string :=
  written
    (map (fun r => (join " " (map format_1f r) ++ String newline "")%string)
         (rows_of a)).

End Np.

Import Np.

(** ** scratch/powerline_loss_test.py *)

(** [build_powerline_values]: the matrix returned, and the text written
    to [values100x100.csv]. *)
Definition build_powerline_values (nrows ncols : Z) : result (array2 * string) :=
  values <- ones nrows ncols ;;
  let powerline_col_index := (ncols / 2 - 1)%Z in
  values <- set_column values powerline_col_index 100%Q ;;
  Ok (values, savetxt values).

(** The text [build_forest_asc] writes to [Forest.asc]. *)
Definition build_forest_asc (nrows ncols : Z) : string :=
  let header :=
    [ ("ncols " ++ str_int ncols ++ String newline "")%string;
      ("nrows " ++ str_int nrows ++ String newline "")%string;
      String.append "xllcorner 0" (String newline "");
      String.append "yllcorner 0" (String newline "");
      String.append "cellsize 100" (String newline "");
      String.append "NODATA_value -9999" (String newline "") ] in
  let row_values := join " " (repeat "1"%string (Z.to_nat ncols)) in
  written
    (header ++ map (fun _ => (row_values ++ String newline "")%string)
                   (range 0 nrows)).

(** [csv.writer(out).writerow(fields)] with the default dialect, for
    fields that need no quoting (none of the fields written here holds a
    comma, a quote or a line break): the fields joined by commas and
    terminated by CR LF. Numbers are given as [str] renders them. *)
Definition csv_line_end : string := String carriage_return (String newline "").

Definition writerow (fields : list string) : string :=
  (join "," fields ++ csv_line_end)%string.

Definition data_header : list string :=
  [ "fueltype"; "mon"; "jd"; "M"; "jd_min"; "lat"; "lon"; "elev"; "ffmc";
    "ws"; "waz"; "bui"; "ps"; "saz"; "pc"; "pdf"; "gfl"; "cur"; "time";
    "pattern" ]%string.

Definition data_row : list string :=
  [ "C1"; ""; ""; ""; ""; "51.0"; "-115.0"; "0";
    ""; ""; ""; ""; "0"; "0";
    ""; ""; "0.75"; ""; "20"; "" ]%string.

(** The text [build_data_csv] writes to [Data.csv]. *)
Definition build_data_csv (nrows ncols : Z) : string :=
  let total_cells := (nrows * ncols)%Z in
  written
    (writerow data_header :: map (fun _ => writerow data_row) (range 0 total_cells)).

(** The rows a CSV reader finds in a text: lines end at LF, a CR before
    it belongs to the line end, fields are separated by commas. *)
Fixpoint strip_cr (s : string) : string :=
  match s with
  | EmptyString => EmptyString
  | String c EmptyString => if Ascii.eqb c carriage_return then EmptyString else s
  | String c s' => String c (strip_cr s')
  end.

Definition csv_rows (s : string) : list (list string) :=
  map (fun l => split_on ","%char (strip_cr l)) (file_lines s).

(** *** The outputs of the simulator, as the aggregation sees them *)

(** [listdir d] is the names in directory [d] (relative to
    [OUTPUT_FOLDER]), or [None] when there is no such directory;
    [loadtxt p] is what [np.loadtxt(p, delimiter=",")] returns. *)
Record World : Type := mkWorld {
  listdir : string -> option (list string);
  loadtxt : string -> result ndarray
}.

(** The names matching ["ForestGrid*.csv"]: prefix, then anything, then
    suffix. *)
Fixpoint ends_with_csv (s : string) : bool :=
  match s with
  | EmptyString => false
  | String _ s' => String.eqb s ".csv" || ends_with_csv s'
  end.

Fixpoint strip_prefix (p s : string) : option string :=
  match p, s with
  | EmptyString, _ => Some s
  | String a p', String b s' => if Ascii.eqb a b then strip_prefix p' s' else None
  | String _ _, EmptyString => None
  end.

Definition is_forest_grid (name : string) : bool :=
  match strip_prefix "ForestGrid" name with
  | Some rest => ends_with_csv rest
  | None => false
  end.

(** [folder.glob("ForestGrid*.csv")]: nothing when the folder is absent. *)
Definition glob_forest_grids (w : World) (folder : string) : list string :=
  match listdir w folder with
  | None => []
  | Some names =>
      map (fun n => (folder ++ "/" ++ n)%string) (filter is_forest_grid names)
  end.

(** [sorted] on paths of one folder: the order of their names, which is
    the order of the path strings. Names are compared byte by byte; that
    is Python's order of the decoded names (by code point) as long as
    the names are valid UTF-8, ASCII in particular. *)
Module PathOrder <: Orders.TotalLeBool.
Definition t := string.
Definition leb := String.leb.
Definition leb_total : forall x y, leb x y = true \/ leb y x = true :=
  String.leb_total.
End PathOrder.

Module PathSort := Mergesort.Sort PathOrder.

Definition sorted (l : list string) : list string := PathSort.sort l.

Definition sim_grid_folder (sim_index : Z) : string :=
  ("Grids/Grids" ++ str_int sim_index)%string.

Definition get_last_forest_grid_for_sim (w : World) (sim_index : Z) : result string :=
  let forest_files := sorted (glob_forest_grids w (sim_grid_folder sim_index)) in
  match forest_files with
  | [] => Raise RuntimeError
  | _ :: _ => Ok (last forest_files EmptyString)
  end.

(** *** evaluate_losses *)

Record report : Type := mkReport {
  n_sims : Z;
  cells_per_sim : nat;
  hit_count : Z;
  hit_rate : Q;
  avg_loss : Q;
  max_loss : Q
}.

(** Lines 187-191: the power-line column of the final grid of one
    replicate, and the mask of its burned cells. *)
Definition final_grid_column (w : World) (powerline_col_index sim : Z)
  : result (list Q) :=
  grid_file <- get_last_forest_grid_for_sim w sim ;;
  final_grid <- loadtxt w grid_file ;;
  column_nd final_grid powerline_col_index.

Definition burned_powerline (w : World) (powerline_col_index sim : Z)
  : result (list bool) :=
  col <- final_grid_column w powerline_col_index sim ;;
  Ok (eq_one col).

(** Line 192 *)
Definition loss_this_sim (powerline_values : list Q) (burned : list bool)
  : result Q :=
  sel <- bool_index powerline_values burned ;;
  Ok (sum sel).

(** The loop state: [hit_count] and [losses]. *)
Definition loop_state : Type := (Z * list Q)%type.

Definition loop_body (w : World) (powerline_values : list Q)
  (powerline_col_index : Z) (st : loop_state) (sim : Z) : result loop_state :=
  burned <- burned_powerline w powerline_col_index sim ;;
  loss <- loss_this_sim powerline_values burned ;;
  let losses := snd st ++ [loss] in
  let hits := if any burned then (fst st + 1)%Z else fst st in
  Ok (hits, losses).

Fixpoint for_each (body : loop_state -> Z -> result loop_state)
  (sims : list Z) (st : loop_state) : result loop_state :=
  match sims with
  | [] => Ok st
  | sim :: rest => st' <- body st sim ;; for_each body rest st'
  end.

Definition evaluate_losses (w : World) (values : array2) (nsims : Z)
  : result report :=
  let nrows := nrows_of values in
  let ncols := Z.of_nat (ncols_of values) in
  let powerline_col_index := (ncols / 2 - 1)%Z in
  powerline_values <- column values powerline_col_index ;;
  st <- for_each (loop_body w powerline_values powerline_col_index)
         (range 1 (nsims + 1)) (0%Z, []) ;;
  let hits := fst st in
  let losses := snd st in
  rate <- (if (nsims =? 0)%Z then Raise ZeroDivisionError
           else Ok (inject_Z hits / inject_Z nsims)) ;;
  let avg := mean losses in
  mx <- max losses ;;
  Ok (mkReport nsims nrows hits rate avg mx).

(** ** The reader of the custom value file *)

(** Modelled from the spec: the reader of the custom value file is the
    simulator's and is not among the sources. The file is
    "whitespace-delimited text, one line per grid row, one
    decimal-formatted value per column": a value is an optional sign,
    digits, and an optional point followed by digits. *)
Definition digit_of (c : ascii) : option Z :=
  let n := Z.of_N (N_of_ascii c) in
  if ((48 <=? n) && (n <=? 57))%Z then Some (n - 48)%Z else None.

Fixpoint parse_digits (s : string) (num : Z) (den : positive)
  (after_point seen_digit : bool) : option Q :=
  match s with
  | EmptyString => if seen_digit then Some (Qred (num # den)) else None
  | String c s' =>
      if Ascii.eqb c "."%char then
        if after_point then None else parse_digits s' num den true seen_digit
      else
        match digit_of c with
        | Some d =>
            parse_digits s' (10 * num + d)%Z
              (if after_point then (10 * den)%positive else den) after_point true
        | None => None
        end
  end.

Definition parse_decimal (s : string) : option Q :=
  match s with
  | String c s' =>
      if Ascii.eqb c "-"%char
      then option_map Qopp (parse_digits s' 0 1 false false)
      else parse_digits s 0 1 false false
  | EmptyString => None
  end.

Fixpoint all_some {A : Type} (l : list (option A)) : option (list A) :=
  match l with
  | [] => Some []
  | None :: _ => None
  | Some x :: l' => option_map (cons x) (all_some l')
  end.

Definition read_values (text : string) : option (list (list Q)) :=
  all_some
    (map (fun line => all_some (map parse_decimal (tokens line)))
         (file_lines text)).

(** ** The aggregation in the words of the specification *)

(** "loss = sum(value[c] for c in asset_column if burn_state[c] == BURNED)" *)
Fixpoint replicate_loss (value_column burn_column : list Q) : Q :=
  match value_column, burn_column with
  | v :: vs, b :: bs =>
      if Qeq_bool b 1 then v + replicate_loss vs bs else replicate_loss vs bs
  | _, _ => 0
  end.

(** "whether any asset cell burned (a hit)" *)
Definition replicate_hit (burn_column : list Q) : Prop :=
  Exists (fun b => b == 1) burn_column.

Definition replicate_hitb (burn_column : list Q) : bool :=
  existsb (fun b => Qeq_bool b 1) burn_column.

(** Sum of a list of numbers, from the right. *)
Definition total (l : list Q) : Q := fold_right Qplus 0 l.

(** [m] is the maximum of [l]: reached by an element, below no element. *)
Definition is_maximum (m : Q) (l : list Q) : Prop :=
  In m l /\ Forall (fun x => x <= m) l.


(** ** Derived notions used in the statements *)

(** A line with its terminating newline. *)
Definition terminate (l : string) : string := (l ++ String newline "")%string.

(** The six header lines of [Forest.asc]. *)
Definition forest_header (nrows ncols : Z) : list string :=
  [ "ncols " ++ str_int ncols; "nrows " ++ str_int nrows; "xllcorner 0";
    "yllcorner 0"; "cellsize 100"; "NODATA_value -9999" ]%string.

(** A grid line of [Forest.asc]. *)
Definition forest_row (ncols : Z) : string :=
  join " " (repeat "1"%string (Z.to_nat ncols)).

(** A line of [Data.csv], up to its LF. *)
Definition data_line (fields : list string) : string :=
  (join "," fields ++ String carriage_return "")%string.

(** The column that [values[:, ncols // 2 - 1]] designates in an array of
    [ncols >= 1] columns: index [-1] (at [ncols = 1]) is the last
    column. *)
Definition powerline_column (ncols : Z) : nat :=
  Z.to_nat ((ncols / 2 - 1) mod ncols).

(** A row, and the whole, of the reference value map. *)
Definition powerline_row (ncols : Z) : list Q :=
  list_set (repeat 1%Q (Z.to_nat ncols)) (powerline_column ncols) 100%Q.

Definition powerline_matrix (nrows ncols : Z) : array2 :=
  mkArray2 (Z.to_nat ncols) (repeat (powerline_row ncols) (Z.to_nat nrows)).

(** The claim as the specification words it: a matrix is returned for
    every pair of dimensions, and the elevated cells are those of the
    0-indexed column [ncols // 2 - 1]. *)
Definition value_map_as_specified (nrows ncols : Z) : Prop :=
  exists values text,
    build_powerline_values nrows ncols = Ok (values, text)
    /\ Z.of_nat (nrows_of values) = nrows
    /\ Z.of_nat (ncols_of values) = ncols
    /\ rectangular values
    /\ forall i j, (i < nrows_of values)%nat -> (j < ncols_of values)%nat ->
         cell values i j =
         if (Z.of_nat j =? ncols / 2 - 1)%Z then 100%Q else 1%Q.

(** The two values of the reference value map. *)
Definition two_valued (x : Q) : Prop := x = 1%Q \/ x = 100%Q.

(** A line of the custom value file. *)
Definition value_line (r : list Q) : string := join " " (map format_1f r).

(** What one replicate contributes: its loss and whether it is a hit. *)
Definition sim_outcome (w : World) (powerline_values : list Q)
  (powerline_col_index sim : Z) : result (Q * bool) :=
  burned <- burned_powerline w powerline_col_index sim ;;
  loss <- loss_this_sim powerline_values burned ;;
  Ok (loss, any burned).

(** The number of hits among the outcomes of the replicates. *)
Definition count_hits (outs : list (Q * bool)) : Z :=
  Z.of_nat (List.length (filter snd outs)).

(** The index of the power-line column, as [evaluate_losses] computes it. *)
Definition powerline_col_index (values : array2) : Z :=
  (Z.of_nat (ncols_of values) / 2 - 1)%Z.

(** The candidate files of a replicate. *)
Definition forest_grids_of (w : World) (sim : Z) : list string :=
  glob_forest_grids w (sim_grid_folder sim).

(** The outcome of a replicate whose power-line column is [col]. *)
Definition outcome_of (pv col : list Q) : Q * bool :=
  (sum (select pv (eq_one col)), any (eq_one col)).

(** The report over replicates whose power-line columns are [cols], in
    the terms of the specification. *)
Definition report_as_specified (pv : list Q) (cols : list (list Q))
  (nsims : Z) (r : report) : Prop :=
  n_sims r = nsims
  /\ hit_count r = Z.of_nat (List.length (filter replicate_hitb cols))
  /\ hit_rate r == inject_Z (hit_count r) / inject_Z nsims
  /\ avg_loss r == total (map (replicate_loss pv) cols) / inject_Z nsims
  /\ (exists col, In col cols /\ max_loss r == replicate_loss pv col)
  /\ Forall (fun col => replicate_loss pv col <= max_loss r) cols.

(** Outputs of a run with two replicates over a 4 x 4 landscape: the
    power line (column 1) burns entirely in replicate 1 and not at all
    in replicate 2. Replicate 1 left two grids; the later one counts. *)
Definition scenario_world : World :=
  mkWorld
    (fun folder =>
       if String.eqb folder "Grids/Grids1"
       then Some ["ForestGrid01.csv"; "notes.txt"; "ForestGrid00.csv"]%string
       else if String.eqb folder "Grids/Grids2"
       then Some ["ForestGrid05.csv"]%string
       else None)
    (fun path =>
       if String.eqb path "Grids/Grids1/ForestGrid00.csv"
       then Ok (Nd2 (mkArray2 4 [[0;0;0;0]; [0;1;0;0]; [0;0;0;0]; [0;0;0;0]]))
       else if String.eqb path "Grids/Grids1/ForestGrid01.csv"
       then Ok (Nd2 (mkArray2 4 [[0;1;0;0]; [1;1;1;0]; [0;1;2;0]; [0;1;0;0]]))
       else if String.eqb path "Grids/Grids2/ForestGrid05.csv"
       then Ok (Nd2 (mkArray2 4 [[1;0;0;0]; [1;0;0;0]; [0;0;1;0]; [0;0;0;0]]))
       else Raise OSError).

(** The value map of the 4 x 4 scenario. *)
Definition scenario_values : array2 :=
  mkArray2 4 [[1;100;1;1]; [1;100;1;1]; [1;100;1;1]; [1;100;1;1]].

(** The claim as the specification words it: a loaded grid whose shape
    differs from the value map's makes the aggregation fail. *)
Definition shape_mismatch_is_fatal (w : World) (values : array2) (nsims : Z) : Prop :=
  forall sim f g,
    (1 <= sim <= nsims)%Z ->
    get_last_forest_grid_for_sim w sim = Ok f ->
    loadtxt w f = Ok (Nd2 g) ->
    nrows_of g <> nrows_of values \/ ncols_of g <> ncols_of values ->
    is_ok (evaluate_losses w values nsims) = false.

(** One replicate whose final grid has 4 rows and only 3 columns. *)
Definition narrow_world : World :=
  mkWorld
    (fun folder =>
       if String.eqb folder "Grids/Grids1"
       then Some ["ForestGrid01.csv"]%string else None)
    (fun path =>
       if String.eqb path "Grids/Grids1/ForestGrid01.csv"
       then Ok (Nd2 (mkArray2 3 [[0;1;0]; [0;1;0]; [0;0;0]; [0;0;0]]))
       else Raise OSError).

(** One replicate whose final grid has 4 columns and only 3 rows. *)
Definition short_world : World :=
  mkWorld
    (fun folder =>
       if String.eqb folder "Grids/Grids1"
       then Some ["ForestGrid01.csv"]%string else None)
    (fun path =>
       if String.eqb path "Grids/Grids1/ForestGrid01.csv"
       then Ok (Nd2 (mkArray2 4 [[0;1;0;0]; [0;1;0;0]; [0;0;0;0]]))
       else Raise OSError).

(** What the indexing of the loop rejects: a grid that is not
    two-dimensional, or has another number of rows than the value map,
    or has no column at the power-line index. *)
Definition grid_rejected (values : array2) (g : ndarray) : Prop :=
  match g with
  | Nd2 a =>
      nrows_of a <> nrows_of values
      \/ norm_index (ncols_of a) (powerline_col_index values) = Raise IndexError
  | Nd1 _ | Nd0 _ => True
  end.

(** ** Notions used in the further properties *)

(** The number of burned cells of a mask. *)
Definition count_true (mask : list bool) : nat :=
  List.length (filter (fun b => b) mask).

(** Every cell burned in the first mask is burned in the second. *)
Definition mask_le (m1 m2 : list bool) : Prop :=
  Forall2 (fun a b => implb a b = true) m1 m2.

(** The outputs of [scenario_world] with the directory entries listed in
    another order, further entries that are not final grids, and other
    burn states away from the power line. *)
Definition scenario_world_variant : World :=
  mkWorld
    (fun folder =>
       if String.eqb folder "Grids/Grids1"
       then Some ["ForestGrid00.csv"; "ForestGrid01.csv"; "ForestGrid01.txt";
                  "Grid99.csv"]%string
       else if String.eqb folder "Grids/Grids2"
       then Some ["Messages.csv"; "ForestGrid05.csv"]%string
       else None)
    (fun path =>
       if String.eqb path "Grids/Grids1/ForestGrid01.csv"
       then Ok (Nd2 (mkArray2 4 [[1;1;1;1]; [0;1;0;0]; [2;1;2;2]; [0;1;0;1]]))
       else if String.eqb path "Grids/Grids2/ForestGrid05.csv"
       then Ok (Nd2 (mkArray2 4 [[0;0;1;1]; [0;0;1;1]; [1;0;0;0]; [1;0;1;0]]))
       else Raise OSError).

(** Grid files numbered with a fixed number of decimal digits: the
    number [k] written with [width] digits, zeros in front. *)
Fixpoint pad (width : nat) (k : N) : string :=
  match width with
  | O => EmptyString
  | S w => (pad w (k / 10) ++ String (ascii_of_N (48 + k mod 10)) EmptyString)%string
  end.

Definition numbered_grid (width : nat) (k : N) : string :=
  ("ForestGrid" ++ pad width k ++ ".csv")%string.

(** [int(s)] on the numerals [str] produces: an optional minus sign and
    decimal digits. *)
Definition int_of_str (s : string) : option Z :=
  option_map Z.of_int (NilZero.int_of_string s).

(** ** Files, the simulator and the pipeline *)

(** A path is its components below [REPO_ROOT]; [[]] is [REPO_ROOT]
    itself, which exists. A file system maps the paths that exist to a
    file with its content or to a directory. *)
Definition path : Type := list string.

Inductive node : Type :=
| File (content : string)
| Dir.

Definition FS : Type := path -> option node.

Definition path_eqb (p q : path) : bool :=
  if list_eq_dec string_dec p q then true else false.

Definition is_dir (fs : FS) (p : path) : bool :=
  match p with
  | [] => true
  | _ :: _ => match fs p with Some Dir => true | _ => false end
  end.

Definition put (fs : FS) (p : path) (n : node) : FS :=
  fun q => if path_eqb q p then Some n else fs q.

(** [p.mkdir(parents=True, exist_ok=True)]: the missing directories on
    the way to [p] are created; an existing file on the way is an
    [OSError] ([FileExistsError] or [NotADirectoryError]). *)
Fixpoint mkdirs (fs : FS) (done todo : path) : result FS :=
  match todo with
  | [] => Ok fs
  | c :: rest =>
      let p := done ++ [c] in
      match fs p with
      | Some Dir => mkdirs fs p rest
      | Some (File _) => Raise OSError
      | None => mkdirs (put fs p Dir) p rest
      end
  end.

Definition mkdir_parents (fs : FS) (p : path) : result FS := mkdirs fs [] p.

Definition basename (p : path) : string := last p EmptyString.

(** [shutil.copy2(src, dst)], content only. Every failure is an
    [OSError]: a missing source ([FileNotFoundError]), a directory as
    source or target ([IsADirectoryError]), source and target the same
    file ([SameFileError]), a target without parent directory
    ([FileNotFoundError]). A failure leaves the files as they were. *)
Definition copy2 (fs : FS) (src dst : path) : result FS :=
  let dst := if is_dir fs dst then dst ++ [basename src] else dst in
  match fs src with
  | Some (File content) =>
      if path_eqb src dst then Raise OSError
      else if is_dir fs dst then Raise OSError
      else if is_dir fs (removelast dst) then Ok (put fs dst (File content))
      else Raise OSError
  | Some Dir => Raise OSError
  | None => Raise OSError
  end.

(** [with p.open("w") as out: out.write(...)]: the file is created or
    replaced; the parent must be a directory and [p] must not be one. *)
Definition write_file (fs : FS) (p : path) (content : string) : result FS :=
  if is_dir fs p then Raise OSError
  else if is_dir fs (removelast p) then Ok (put fs p (File content))
  else Raise OSError.

Definition BASE_TOY_FOLDER : path := ["data"; "Sub40x40"]%string.
Definition GENERATED_DATA_FOLDER : path := ["data"; "PowerLine100x100"]%string.
Definition OUTPUT_FOLDER : path := ["outputs"; "PowerLine100x100"]%string.

(** A template file and the place it is staged at. *)
Definition template (name : string) : path := BASE_TOY_FOLDER ++ [name].
Definition staged (name : string) : path := GENERATED_DATA_FOLDER ++ [name].

(** [str(p)] for a path below [REPO_ROOT], whose own string is [root]. *)
Definition str_path (root : string) (p : path) : string :=
  fold_left (fun s c => (s ++ "/" ++ c)%string) p root.

(** One run of the external simulator: the command line, and the files
    and the output folder ([None]: there is none) it started from. *)
Record invocation : Type := mkInvocation {
  inv_cmd : list string;
  inv_files : FS;
  inv_outputs : option World
}.

(** The state the pipeline runs in: the files outside [OUTPUT_FOLDER],
    the content of [OUTPUT_FOLDER] as the aggregation sees it ([None]
    when the folder does not exist), and the simulator runs so far. *)
Record machine : Type := mkMachine {
  files : FS;
  outputs : option World;
  invocations : list invocation
}.

(** The external simulator: from the command line and the state it
    starts in to its return code and the state it leaves. *)
Definition simulator : Type :=
  list string -> FS -> option World -> Z * FS * option World.

(** How a step of the pipeline ends: normally, with a Python exception,
    or with [subprocess.CalledProcessError]. *)
Inductive failure : Type :=
| PyError (e : exn)
| CalledProcessError (returncode : Z).

Inductive outcome (A : Type) : Type :=
| Done (a : A)
| Failed (f : failure).

Arguments Done {A} a.
Arguments Failed {A} f.

Definition io (A : Type) : Type := machine -> machine * outcome A.

Definition io_bind {A B : Type} (m : io A) (k : A -> io B) : io B :=
  fun st =>
    match m st with
    | (st', Done a) => k a st'
    | (st', Failed f) => (st', Failed f)
    end.

Notation "x <~ m ;; k" := (io_bind m (fun x => k))
  (at level 61, m at next level, right associativity).

(** A file operation as a step: a failure leaves the files unchanged. *)
Definition on_files (op : FS -> result FS) : io unit :=
  fun st =>
    match op (files st) with
    | Ok fs => (mkMachine fs (outputs st) (invocations st), Done tt)
    | Raise e => (st, Failed (PyError e))
    end.

Fixpoint for_each_file (body : string -> io unit) (names : list string) : io unit :=
  match names with
  | [] => fun st => (st, Done tt)
  | n :: rest => _ <~ body n ;; for_each_file body rest
  end.

Definition files_to_copy : list string :=
  ["fbp_lookup_table.csv"; "Weather.csv"]%string.

Definition copy_common_input_files : io unit :=
  _ <~ on_files (fun fs => mkdir_parents fs GENERATED_DATA_FOLDER) ;;
  for_each_file
    (fun file_name =>
       let src := BASE_TOY_FOLDER ++ [file_name] in
       let dst := GENERATED_DATA_FOLDER ++ [file_name] in
       on_files (fun fs => copy2 fs src dst))
    files_to_copy.

(** The builders with their file effect. *)
Definition write_forest_asc (nrows ncols : Z) : io unit :=
  on_files (fun fs =>
    write_file fs (GENERATED_DATA_FOLDER ++ ["Forest.asc"%string])
      (build_forest_asc nrows ncols)).

Definition write_data_csv (nrows ncols : Z) : io unit :=
  on_files (fun fs =>
    write_file fs (GENERATED_DATA_FOLDER ++ ["Data.csv"%string])
      (build_data_csv nrows ncols)).

Definition write_powerline_values (nrows ncols : Z) : io array2 :=
  fun st =>
    match build_powerline_values nrows ncols with
    | Raise e => (st, Failed (PyError e))
    | Ok (values, text) =>
        match on_files (fun fs =>
                write_file fs (GENERATED_DATA_FOLDER ++ ["values100x100.csv"%string]) text) st with
        | (st', Done _) => (st', Done values)
        | (st', Failed f) => (st', Failed f)
        end
    end.

(** The command line of [run_cell2fire]. *)
Definition cell2fire_cmd (root : string) (nsims sim_years : Z) : list string :=
  [ "python"; "-m"; "cell2fire.main";
    "--input-instance-folder"; str_path root GENERATED_DATA_FOLDER;
    "--output-folder"; str_path root OUTPUT_FOLDER;
    "--sim-years"; str_int sim_years;
    "--nsims"; str_int nsims;
    "--finalGrid";
    "--weather"; "random";
    "--nweathers"; "100";
    "--Fire-Period-Length"; "1.0";
    "--ROS-CV"; "0.0";
    "--seed"; "123";
    "--IgnitionRad"; "0";
    "--grids";
    "--output-messages";
    "--stats";
    "--ROS-Threshold"; "0";
    "--HFI-Threshold"; "0";
    "--customValue";
    str_path root (GENERATED_DATA_FOLDER ++ ["values100x100.csv"])%list ]%string.

(** [run_cell2fire]: an existing output folder is removed, then the
    simulator runs (the interpreter is taken to start); [check=True]
    turns a non-zero return code into [CalledProcessError]. *)
Definition run_cell2fire (sim : simulator) (root : string) (nsims sim_years : Z)
  : io unit :=
  fun st =>
    let cleared : option World :=
      match outputs st with
      | Some _ => None
      | None => outputs st
      end in
    let cmd := cell2fire_cmd root nsims sim_years in
    let '(returncode, fs, outs) := sim cmd (files st) cleared in
    let st' := mkMachine fs outs
                 (invocations st ++ [mkInvocation cmd (files st) cleared]) in
    if (returncode =? 0)%Z then (st', Done tt)
    else (st', Failed (CalledProcessError returncode)).

(** What the aggregation finds when there is no output folder. *)
Definition no_outputs : World :=
  mkWorld (fun _ => None) (fun _ => Raise OSError).

Definition world_of (outs : option World) : World :=
  match outs with Some w => w | None => no_outputs end.

(** [evaluate_losses] as a step; the report is what it prints. *)
Definition report_losses (values : array2) (nsims : Z) : io report :=
  fun st =>
    match evaluate_losses (world_of (outputs st)) values nsims with
    | Ok r => (st, Done r)
    | Raise e => (st, Failed (PyError e))
    end.

Definition main (sim : simulator) (root : string) : io report :=
  let nrows := 100%Z in
  let ncols := 100%Z in
  let nsims := 20%Z in
  _ <~ copy_common_input_files ;;
  _ <~ write_forest_asc nrows ncols ;;
  _ <~ write_data_csv nrows ncols ;;
  values <~ write_powerline_values nrows ncols ;;
  _ <~ run_cell2fire sim root nsims 1 ;;
  report_losses values nsims.

(** A file system given by its entries. *)
Definition fs_of (entries : list (path * node)) : FS :=
  fun q => option_map snd (find (fun e => path_eqb (fst e) q) entries).

(** A checkout with the template dataset, before any run; and one whose
    template dataset lacks the weather file. *)
Definition fresh_checkout : machine :=
  mkMachine
    (fs_of [ (["data"%string], Dir);
             (BASE_TOY_FOLDER, Dir);
             (template "fbp_lookup_table.csv", File "fuel_type,a,b,c");
             (template "Weather.csv", File "Scenario,datetime,WS,WD") ])
    None [].

Definition checkout_without_weather : machine :=
  mkMachine
    (fs_of [ (["data"%string], Dir);
             (BASE_TOY_FOLDER, Dir);
             (template "fbp_lookup_table.csv", File "fuel_type,a,b,c") ])
    None [].

(** The steps of [main] before the simulator runs. *)
Definition stage_inputs : io array2 :=
  _ <~ copy_common_input_files ;;
  _ <~ write_forest_asc 100 100 ;;
  _ <~ write_data_csv 100 100 ;;
  write_powerline_values 100 100.

(** The same state with another output folder. *)
Definition with_outputs (outs : option World) (st : machine) : machine :=
  mkMachine (files st) outs (invocations st).

(** A step that neither reads nor writes the output folder. *)
Definition lifts {A : Type} (m : io A) : Prop :=
  forall outs st,
    m (with_outputs outs st) = (with_outputs outs (fst (m st)), snd (m st)).

(** The paths of the files the builders write. *)
Definition forest_path : path := GENERATED_DATA_FOLDER ++ ["Forest.asc"%string].
Definition data_path : path := GENERATED_DATA_FOLDER ++ ["Data.csv"%string].
Definition values_path : path := GENERATED_DATA_FOLDER ++ ["values100x100.csv"%string].

(** A simulator that leaves the outputs of [scenario_world] and returns
    0, and one that fails with return code 2. *)
Definition scenario_simulator : simulator :=
  fun _ fs _ => (0%Z, fs, Some scenario_world).

Definition failing_simulator : simulator :=
  fun _ fs _ => (2%Z, fs, None).

(** A simulator after which every replicate has one final grid, of
    100 x 100 burned cells. *)
Definition all_burned_world : World :=
  mkWorld (fun _ => Some ["ForestGrid00.csv"%string])
          (fun _ => Ok (Nd2 (mkArray2 100 (repeat (repeat 1 100) 100)))).

Definition burning_simulator : simulator :=
  fun _ fs _ => (0%Z, fs, Some all_burned_world).

(** The outputs of [scenario_world] with the two replicates exchanged. *)
Definition scenario_world_swapped : World :=
  mkWorld
    (fun folder =>
       if String.eqb folder "Grids/Grids1"
       then Some ["ForestGrid05.csv"]%string
       else if String.eqb folder "Grids/Grids2"
       then Some ["ForestGrid01.csv"]%string
       else None)
    (fun path =>
       if String.eqb path "Grids/Grids2/ForestGrid01.csv"
       then Ok (Nd2 (mkArray2 4 [[0;1;0;0]; [1;1;1;0]; [0;1;2;0]; [0;1;0;0]]))
       else if String.eqb path "Grids/Grids1/ForestGrid05.csv"
       then Ok (Nd2 (mkArray2 4 [[1;0;0;0]; [1;0;0;0]; [0;0;1;0]; [0;0;0;0]]))
       else Raise OSError).

(** ** The aggregation in floating point *)

Module Fp.

(** The arithmetic [evaluate_losses] computes with. The value map has
    its own cell type ([np.float32] as [build_powerline_values] makes
    it): the loss of a replicate is summed in it and converted by
    [float(...)]. The cells [np.loadtxt] returns, the losses and the
    report are [float64]. *)
Record arithmetic : Type := mkArithmetic {
  value : Type;
  number : Type;
  value_zero : value;
  value_add : value -> value -> value;
  to_number : value -> number;
  zero : number;
  add : number -> number -> number;
  div : number -> number -> number;
  of_int : Z -> number;
  is_one : number -> bool;
  is_nan : number -> bool;
  less : number -> number -> bool
}.

Record array2 (A : Type) : Type := mkArray2 {
  ncols_of : nat;
  rows_of : list (list A)
}.

Arguments mkArray2 {A} _ _.
Arguments ncols_of {A} _.
Arguments rows_of {A} _.

Definition nrows_of {A : Type} (a : array2 A) : nat := List.length (rows_of a).

Inductive ndarray (A : Type) : Type :=
| Nd0 (x : A)
| Nd1 (v : list A)
| Nd2 (a : array2 A).

Arguments Nd0 {A} _.
Arguments Nd1 {A} _.
Arguments Nd2 {A} _.

(** [a[i, j]] for indices in range; [d] stands for the cell of a row
    that is too short, which no array has. *)
Definition cell {A : Type} (d : A) (a : array2 A) (i j : nat) : A :=
  nth j (nth i (rows_of a) []) d.

(** [a[:, i]] on a two-dimensional array *)
Definition column {A : Type} (d : A) (a : array2 A) (i : Z) : result (list A) :=
  j <- norm_index (ncols_of a) i ;;
  Ok (map (fun r => nth j r d) (rows_of a)).

(** [g[:, i]] on whatever [np.loadtxt] returned *)
Definition column_nd {A : Type} (d : A) (g : ndarray A) (i : Z) : result (list A) :=
  match g with
  | Nd2 a => column d a i
  | Nd1 _ | Nd0 _ => Raise IndexError
  end.

(** [v[mask]] with a boolean mask: the mask must be as long as [v]. *)
Fixpoint select {A : Type} (v : list A) (mask : list bool) : list A :=
  match v, mask with
  | x :: v', b :: mask' => if b then x :: select v' mask' else select v' mask'
  | _, _ => []
  end.

Definition bool_index {A : Type} (v : list A) (mask : list bool) : result (list A) :=
  if Nat.eqb (List.length v) (List.length mask) then Ok (select v mask)
  else Raise IndexError.

(** [np.any] *)
Definition any (mask : list bool) : bool := existsb (fun b => b) mask.

Section Summation.

Context {A : Type} (zero : A) (add : A -> A -> A).

(** [res += a[i]] over the items of [l], in order. *)
Definition add_each (res : A) (l : list A) : A := fold_left add l res.

(** [r[j] += a[i + j]] for the eight accumulators. *)
Fixpoint add_lanes (r block : list A) : list A :=
  match r, block with
  | x :: r', y :: block' => add x y :: add_lanes r' block'
  | _, _ => r
  end.

Fixpoint unrolled (blocks : nat) (r l : list A) : list A * list A :=
  match blocks with
  | O => (r, l)
  | S blocks' => unrolled blocks' (add_lanes r (firstn 8 l)) (skipn 8 l)
  end.

Definition reduce_lanes (r : list A) : A :=
  match r with
  | [r0; r1; r2; r3; r4; r5; r6; r7] =>
      add (add (add r0 r1) (add r2 r3)) (add (add r4 r5) (add r6 r7))
  | _ => zero
  end.

(** numpy's sum of at most 128 items: one by one below 8 items;
    otherwise eight accumulators over the blocks of 8, combined in
    pairs, then the remaining items one by one. *)
Definition block_sum (l : list A) : A :=
  let n := List.length l in
  if (n <? 8)%nat then add_each zero l
  else
    let '(r, rest) := unrolled (n / 8 - 1) (firstn 8 l) (skipn 8 l) in
    add_each (reduce_lanes r) rest.

(** numpy's pairwise summation: above 128 items the sequence is split
    at half its length rounded down to a multiple of 8. [depth] bounds
    the splits; [List.length l] is more than enough. *)
Fixpoint pairwise_sum (depth : nat) (l : list A) : A :=
  match depth with
  | O => block_sum l
  | S depth' =>
      let n := List.length l in
      if (n <=? 128)%nat then block_sum l
      else
        let n2 := (n / 2 - (n / 2) mod 8)%nat in
        add (pairwise_sum depth' (firstn n2 l)) (pairwise_sum depth' (skipn n2 l))
  end.

(** [np.sum] ([np.add.reduce]) of a one-dimensional array: the
    identity plus the pairwise sum of the items. *)
Definition sum (l : list A) : A := add zero (pairwise_sum (List.length l) l).

End Summation.

(** [ForestGrid*.csv] files of a folder and [np.loadtxt], with cells of
    type [A]. *)
Record World (A : Type) : Type := mkWorld {
  listdir : string -> option (list string);
  loadtxt : string -> result (ndarray A)
}.

Arguments mkWorld {A} _ _.
Arguments listdir {A} _ _.
Arguments loadtxt {A} _ _.

Definition glob_forest_grids {A : Type} (w : World A) (folder : string) : list string :=
  match listdir w folder with
  | None => []
  | Some names =>
      map (fun n => (folder ++ "/" ++ n)%string) (filter is_forest_grid names)
  end.

Definition get_last_forest_grid_for_sim {A : Type} (w : World A) (sim_index : Z)
  : result string :=
  let forest_files := sorted (glob_forest_grids w (sim_grid_folder sim_index)) in
  match forest_files with
  | [] => Raise RuntimeError
  | _ :: _ => Ok (last forest_files EmptyString)
  end.

Record report (A : Type) : Type := mkReport {
  n_sims : Z;
  cells_per_sim : nat;
  hit_count : Z;
  hit_rate : A;
  avg_loss : A;
  max_loss : A
}.

Arguments mkReport {A} _ _ _ _ _ _.
Arguments n_sims {A} _.
Arguments cells_per_sim {A} _.
Arguments hit_count {A} _.
Arguments hit_rate {A} _.
Arguments avg_loss {A} _.
Arguments max_loss {A} _.

Section Aggregation.

Variable ar : arithmetic.

(** [np.maximum]: a nan wins, otherwise the larger. *)
Definition maximum (x y : number ar) : number ar :=
  if is_nan ar x then x
  else if is_nan ar y then y
  else if less ar x y then y else x.

(** [np.mean] of a list of floats *)
Definition mean (v : list (number ar)) : number ar :=
  div ar (sum (zero ar) (add ar) v) (of_int ar (Z.of_nat (List.length v))).

(** [np.max]: [ValueError] on an empty sequence. *)
Definition max (v : list (number ar)) : result (number ar) :=
  match v with
  | [] => Raise ValueError
  | x :: v' => Ok (fold_left maximum v' x)
  end.

(** Lines 187-191 *)
Definition final_grid_column (w : World (number ar)) (powerline_col_index sim : Z)
  : result (list (number ar)) :=
  grid_file <- get_last_forest_grid_for_sim w sim ;;
  final_grid <- loadtxt w grid_file ;;
  column_nd (zero ar) final_grid powerline_col_index.

Definition burned_powerline (w : World (number ar)) (powerline_col_index sim : Z)
  : result (list bool) :=
  col <- final_grid_column w powerline_col_index sim ;;
  Ok (map (is_one ar) col).

(** Line 192 *)
Definition loss_this_sim (powerline_values : list (value ar)) (burned : list bool)
  : result (number ar) :=
  sel <- bool_index powerline_values burned ;;
  Ok (to_number ar (sum (value_zero ar) (value_add ar) sel)).

Definition loop_state : Type := (Z * list (number ar))%type.

Definition loop_body (w : World (number ar)) (powerline_values : list (value ar))
  (powerline_col_index : Z) (st : loop_state) (sim : Z) : result loop_state :=
  burned <- burned_powerline w powerline_col_index sim ;;
  loss <- loss_this_sim powerline_values burned ;;
  let losses := snd st ++ [loss] in
  let hits := if any burned then (fst st + 1)%Z else fst st in
  Ok (hits, losses).

Fixpoint for_each (body : loop_state -> Z -> result loop_state)
  (sims : list Z) (st : loop_state) : result loop_state :=
  match sims with
  | [] => Ok st
  | sim :: rest => st' <- body st sim ;; for_each body rest st'
  end.

Definition evaluate_losses (w : World (number ar)) (values : array2 (value ar))
  (nsims : Z) : result (report (number ar)) :=
  let nrows := nrows_of values in
  let ncols := Z.of_nat (ncols_of values) in
  let powerline_col_index := (ncols / 2 - 1)%Z in
  powerline_values <- column (value_zero ar) values powerline_col_index ;;
  st <- for_each (loop_body w powerline_values powerline_col_index)
         (range 1 (nsims + 1)) (0%Z, []) ;;
  let hits := fst st in
  let losses := snd st in
  rate <- (if (nsims =? 0)%Z then Raise ZeroDivisionError
           else Ok (div ar (of_int ar hits) (of_int ar nsims))) ;;
  let avg := mean losses in
  mx <- max losses ;;
  Ok (mkReport nsims nrows hits rate avg mx).

End Aggregation.

End Fp.

(** The index of the power-line column, as [evaluate_losses] computes it. *)
Definition fp_powerline_col_index {A : Type} (values : Fp.array2 A) : Z :=
  (Z.of_nat (Fp.ncols_of values) / 2 - 1)%Z.





(** ** IEEE 754 arithmetic *)

(** A binary format: the number of bits of its significands and the
    exponent of its smallest positive number. *)
Record format : Type := mkFormat {
  precision : Z;
  emin : Z
}.

Definition binary32 : format := mkFormat 24 (-149).
Definition binary64 : format := mkFormat 53 (-1074).

(** The integer part of the binary logarithm of [x > 0]. *)
Definition ilog2 (x : Q) : Z :=
  let l := (Z.log2 (Qnum x) - Z.log2 (Z.pos (Qden x)))%Z in
  if Qle_bool (2 ^ l)%Q x then l else (l - 1)%Z.

(** The nearest integer; of two nearest, the even one. *)
Definition nearest_even (x : Q) : Z :=
  let f := Qfloor x in
  match (x - inject_Z f ?= 1 # 2)%Q with
  | Lt => f
  | Gt => (f + 1)%Z
  | Eq => if Z.even f then f else (f + 1)%Z
  end.

(** The exponent of the last bit of the significand of the floats
    around [x <> 0]. *)
Definition last_place (f : format) (x : Q) : Z :=
  Z.max (ilog2 (Qabs x) - precision f + 1) (emin f).

(** The float nearest to [x], ties to even: the rounding of every
    operation of numpy and Python, subnormal results included. Values
    beyond the largest float, which round to an infinity, are outside
    this model. *)
Definition round (f : format) (x : Q) : Q :=
  let x := Qred x in
  if Qeq_bool x 0 then 0%Q
  else
    let e := last_place f x in
    Qred (inject_Z (nearest_even (x / 2 ^ e)%Q) * 2 ^ e)%Q.

(** The arithmetic of a value map of format [f] and of [float64]
    grids, losses and reports, on the rationals the floats denote:
    every operation is the exact one, rounded. A quotient by zero, an
    infinity or a nan for numpy, is 0 here; the aggregation takes one
    only for the mean of no losses, which it never returns. *)
Definition rounded (f : format) : Fp.arithmetic :=
  Fp.mkArithmetic Q Q
    0%Q (fun x y => round f (x + y)%Q) (fun x => x)
    0%Q (fun x y => round binary64 (x + y)%Q) (fun x y => round binary64 (x / y)%Q)
    (fun n => round binary64 (inject_Z n))
    (fun x => Qeq_bool x 1%Q) (fun _ => false) (fun x y => negb (Qle_bool y x)).

(** The formats have at least one bit, and the number 1. *)
Definition has_whole_numbers (f : format) : Prop :=
  (1 <= precision f)%Z /\ (emin f <= 0)%Z.

(** The arrays and the outputs of the exact computation, for the
    computation in an arithmetic on [Q]. *)
Definition fp_array (a : array2) : Fp.array2 Q :=
  Fp.mkArray2 (ncols_of a) (rows_of a).

Definition fp_ndarray (g : ndarray) : Fp.ndarray Q :=
  match g with
  | Nd0 x => Fp.Nd0 x
  | Nd1 v => Fp.Nd1 v
  | Nd2 a => Fp.Nd2 (fp_array a)
  end.

Definition fp_world (w : World) : Fp.World Q :=
  Fp.mkWorld (listdir w)
    (fun path => g <- loadtxt w path ;; Ok (fp_ndarray g)).

(** The processor's binary64, which is numpy's [float64] and Python's
    [float]: [float(n)] rounds an int to the nearest float. *)
Definition float_of_int (n : Z) : PrimFloat.float :=
  FloatOps.SF2Prim (SpecFloat.binary_normalize FloatOps.prec FloatOps.emax n 0 false).

(** The decimal [num / den] of a text, read as a float: the nearest
    float to the quotient when both are below [2 ^ 53]. *)
Definition float_of_decimal (num den : Z) : PrimFloat.float :=
  PrimFloat.div (float_of_int num) (float_of_int den).

(** The arithmetic of a value map of [float64] cells, on the
    processor's floats. *)
Definition float64 : Fp.arithmetic :=
  Fp.mkArithmetic PrimFloat.float PrimFloat.float
    PrimFloat.zero PrimFloat.add (fun x => x)
    PrimFloat.zero PrimFloat.add PrimFloat.div float_of_int
    (fun x => PrimFloat.eqb x PrimFloat.one) PrimFloat.is_nan PrimFloat.ltb.

(** The rational a finite float denotes, in [binary64] and in a format
    of Stdlib's [SpecFloat]. *)
Definition Q_of_spec_float (x : SpecFloat.spec_float) : Q :=
  match x with
  | SpecFloat.S754_finite s m e =>
      ((if s then -1 else 1) * inject_Z (Z.pos m) * 2 ^ e)%Q
  | _ => 0%Q
  end.

Definition Q_of_float (x : PrimFloat.float) : Q :=
  Q_of_spec_float (FloatOps.Prim2SF x).

(** A matrix of floats from its integer cells. *)
Definition float_grid (cells : list (list Z)) : Fp.array2 PrimFloat.float :=
  Fp.mkArray2 (List.length (hd [] cells)) (map (map float_of_int) cells).

(** The outputs and the value map of the 4 x 4 scenario, as the
    processor's floats. *)
Definition float_scenario_world : Fp.World PrimFloat.float :=
  Fp.mkWorld (listdir scenario_world)
    (fun path =>
       if String.eqb path "Grids/Grids1/ForestGrid00.csv"
       then Ok (Fp.Nd2 (float_grid [[0;0;0;0]; [0;1;0;0]; [0;0;0;0]; [0;0;0;0]]))
       else if String.eqb path "Grids/Grids1/ForestGrid01.csv"
       then Ok (Fp.Nd2 (float_grid [[0;1;0;0]; [1;1;1;0]; [0;1;2;0]; [0;1;0;0]]))
       else if String.eqb path "Grids/Grids2/ForestGrid05.csv"
       then Ok (Fp.Nd2 (float_grid [[1;0;0;0]; [1;0;0;0]; [0;0;1;0]; [0;0;0;0]]))
       else Raise OSError)%Z.

Definition float_scenario_values : Fp.array2 PrimFloat.float :=
  float_grid [[1;100;1;1]; [1;100;1;1]; [1;100;1;1]; [1;100;1;1]]%Z.

(** Three replicates over a 2 x 2 landscape whose value map, of
    [float64] cells, holds 0.045 on the power line (column 0): each
    burns the first cell of the line only. *)
Definition small_losses_values : array2 :=
  mkArray2 2 [[round binary64 (45 # 1000); 1%Q]; [round binary64 (45 # 1000); 1%Q]].

Definition small_losses_world : World :=
  mkWorld
    (fun folder =>
       if String.eqb folder "Grids/Grids1" || String.eqb folder "Grids/Grids2"
          || String.eqb folder "Grids/Grids3"
       then Some ["ForestGrid0.csv"]%string else None)
    (fun _ => Ok (Nd2 (mkArray2 2 [[1; 0]; [0; 0]]%Q))).

(** The same on the processor's floats. *)
Definition small_losses_float_values : Fp.array2 PrimFloat.float :=
  Fp.mkArray2 2
    [[float_of_decimal 45 1000; float_of_int 1];
     [float_of_decimal 45 1000; float_of_int 1]].

Definition small_losses_float_world : Fp.World PrimFloat.float :=
  Fp.mkWorld (listdir small_losses_world)
    (fun _ => Ok (Fp.Nd2 (float_grid [[1; 0]; [0; 0]]%Z))).

(** The claim as the specification words it, on the report the code
    returns for a value map of [float64] cells: the mean loss lies
    between 0 and the maximum loss, and the maximum loss below the loss
    of the whole line. *)
Definition loss_bounds_as_specified (w : World) (values : array2) (nsims : Z) : Prop :=
  forall pv whole_line r,
    column values (powerline_col_index values) = Ok pv ->
    Fp.loss_this_sim (rounded binary64) pv (repeat true (List.length pv))
    = Ok whole_line ->
    Fp.evaluate_losses (rounded binary64) (fp_world w) (fp_array values) nsims = Ok r ->
    (0 <= Fp.avg_loss r /\ Fp.avg_loss r <= Fp.max_loss r
     /\ Fp.max_loss r <= whole_line)%Q.

(** ** Where floating point does not round *)

(** A non-negative whole number. *)
Definition whole (x : Q) : Prop := exists k : Z, (0 <= k)%Z /\ x == inject_Z k.

(** Power-line values whose sums no format of the arrays rounds:
    non-negative whole numbers with a sum of at most [2 ^ 24]. Every
    partial sum, in whatever order it is taken, is then a whole number
    that [float32] (and so [float64]) holds exactly. The column of the
    reference map is of this kind up to 167 772 rows. *)
Definition summed_exactly (pv : list Q) : Prop :=
  Forall whole pv /\ sum pv <= inject_Z (2 ^ 24).

(** The losses of the exact and of the rounded computation where no
    sum is rounded: the same whole numbers, at most [bound]. *)
Definition same_losses (bound : Q) (losses losses' : list Q) : Prop :=
  Forall2 (fun a x => x == a /\ whole a /\ a <= bound) losses losses'.

(** The report of the rounded computation where no sum is rounded: the
    report of the exact one, with its two quotients rounded. *)
Definition exact_up_to_the_quotients (r : report) (r' : Fp.report Q) : Prop :=
  Fp.n_sims r' = n_sims r
  /\ Fp.cells_per_sim r' = cells_per_sim r
  /\ Fp.hit_count r' = hit_count r
  /\ Fp.hit_rate r' == round binary64 (hit_rate r)
  /\ Fp.avg_loss r' == round binary64 (avg_loss r)
  /\ Fp.max_loss r' == max_loss r
  /\ whole (max_loss r).

(** A name of ASCII characters only. On such names the order of the
    bytes, which [sorted] uses here, is the order of the code points,
    which Python's [sorted] uses. *)
Fixpoint ascii_name (s : string) : bool :=
  match s with
  | EmptyString => true
  | String c s' => (N_of_ascii c <? 128)%N && ascii_name s'
  end.

(** * Properties *)

Example build_powerline_values_2_4 :
  build_powerline_values 2 4 =
  Ok (mkArray2 4 [[1; 100; 1; 1]; [1; 100; 1; 1]]%Q,
      "1.0 100.0 1.0 1.0
1.0 100.0 1.0 1.0
"%string).
Proof. vm_compute. reflexivity. Qed.


(** ** Text: lines and tokens *)

Section Text.

Local Open Scope string_scope.

Lemma append_assoc (a b c : string) : (a ++ b) ++ c = a ++ (b ++ c).
Proof. induction a as [|x a IH]; simpl; [reflexivity | now rewrite IH]. Qed.

Lemma lacks_app (c : ascii) (a b : string) :
  lacks c (a ++ b) = lacks c a && lacks c b.
Proof.
  induction a as [|x a IH]; simpl; [reflexivity|].
  now rewrite IH, andb_assoc.
Qed.

Lemma split_on_nonempty (sep : ascii) (s : string) : split_on sep s <> [].
Proof.
  destruct s as [|c s]; simpl; [discriminate|].
  destruct (Ascii.eqb c sep); [discriminate|].
  destruct (split_on sep s); discriminate.
Qed.

(** A piece without separator, then a separator: the piece is split off. *)
Lemma split_on_piece (sep : ascii) (t s : string) :
  lacks sep t = true ->
  split_on sep (t ++ String sep s) = t :: split_on sep s.
Proof.
  induction t as [|c t IH]; simpl; intros H.
  - now rewrite Ascii.eqb_refl.
  - apply andb_true_iff in H as [Hc Ht].
    apply negb_true_iff in Hc. rewrite Hc, (IH Ht). reflexivity.
Qed.

Lemma split_on_lacks (sep : ascii) (t : string) :
  lacks sep t = true -> split_on sep t = [t].
Proof.
  induction t as [|c t IH]; simpl; intros H; [reflexivity|].
  apply andb_true_iff in H as [Hc Ht].
  apply negb_true_iff in Hc. rewrite Hc, (IH Ht). reflexivity.
Qed.

(** Writing lines that hold no newline, each terminated by one, and
    reading the lines back. *)
Lemma file_lines_written (ls : list string) :
  Forall (fun l => lacks newline l = true) ls ->
  file_lines (written (map terminate ls)) = ls.
Proof.
  unfold file_lines.
  induction 1 as [|l ls Hl _ IH]; [reflexivity|].
  assert (HX : split_on newline (written (map terminate (l :: ls)))
               = l :: split_on newline (written (map terminate ls))).
  { simpl. unfold terminate at 1. rewrite append_assoc. simpl.
    apply split_on_piece, Hl. }
  rewrite HX. clear HX.
  pose proof (split_on_nonempty newline (written (map terminate ls))) as Hne.
  destruct (split_on newline (written (map terminate ls))) as [|p ps];
    [congruence|].
  change (last (l :: p :: ps) "") with (last (p :: ps) "").
  destruct (is_empty (last (p :: ps) "")).
  - change (removelast (l :: p :: ps)) with (l :: removelast (p :: ps)).
    now rewrite IH.
  - now rewrite IH.
Qed.

(** Joining tokens with single blanks and splitting on blanks. *)
Lemma tokens_join (ts : list string) :
  Forall (fun t => lacks " "%char t = true /\ is_empty t = false) ts ->
  tokens (join " " ts) = ts.
Proof.
  unfold tokens.
  induction 1 as [|t ts [Ht Hne] Hts IH]; [reflexivity|].
  destruct ts as [|u ts].
  - simpl. rewrite (split_on_lacks _ _ Ht). simpl. now rewrite Hne.
  - change (join " " (t :: u :: ts)) with (t ++ String " "%char (join " " (u :: ts))).
    rewrite (split_on_piece _ _ _ Ht).
    cbn [filter]. rewrite Hne. cbn [negb]. f_equal. exact IH.
Qed.

Lemma strip_cr_terminated (l : string) :
  lacks carriage_return l = true ->
  strip_cr (l ++ String carriage_return "") = l.
Proof.
  induction l as [|c l IH]; intros H; [reflexivity|].
  simpl in H. apply andb_true_iff in H as [Hc Hl].
  simpl. rewrite (IH Hl).
  destruct (l ++ String carriage_return "") eqn:E; [|reflexivity].
  destruct l; discriminate.
Qed.

(** Decimal numerals hold digits only. *)
Lemma lacks_string_of_uint (c : ascii) (d : Decimal.uint) :
  digit_of c = None -> lacks c (NilEmpty.string_of_uint d) = true.
Proof.
  intros Hc.
  induction d; cbn [lacks NilEmpty.string_of_uint]; try reflexivity;
    rewrite IHd, andb_true_r;
    apply negb_true_iff, Ascii.eqb_neq; intros E; subst c; discriminate.
Qed.

Lemma lacks_str_int (c : ascii) (n : Z) :
  digit_of c = None -> c <> "-"%char -> lacks c (str_int n) = true.
Proof.
  intros Hc Hm. unfold str_int.
  assert (Hu : forall d, lacks c (NilZero.string_of_uint d) = true).
  { intros d. unfold NilZero.string_of_uint.
    destruct d; try (apply lacks_string_of_uint; exact Hc).
    cbn [lacks]. rewrite andb_true_r.
    apply negb_true_iff, Ascii.eqb_neq. intros E; subst c. discriminate. }
  destruct (Z.to_int n); cbn [NilZero.string_of_int lacks]; [apply Hu|].
  rewrite Hu, andb_true_r.
  apply negb_true_iff, Ascii.eqb_neq. congruence.
Qed.

End Text.

(** ** Ranges and repetition *)

Lemma length_range (lo hi : Z) : List.length (range lo hi) = Z.to_nat (hi - lo).
Proof. unfold range. now rewrite length_map, length_seq. Qed.

(** Every element of [repeat x n] is [x]. *)
Ltac all_of_repeat :=
  let y := fresh "y" in
  let H := fresh "H" in
  apply Forall_forall; intros y H; apply repeat_spec in H; subst y.

Lemma map_const {A B : Type} (b : B) (l : list A) :
  map (fun _ => b) l = repeat b (List.length l).
Proof. induction l; simpl; congruence. Qed.

(** ** Landscape synthesizer *)

Section Landscape.

Local Open Scope string_scope.

Lemma build_forest_asc_lines (nrows ncols : Z) :
  build_forest_asc nrows ncols =
  written (map terminate
             (forest_header nrows ncols
                ++ repeat (forest_row ncols) (Z.to_nat nrows))).
Proof.
  unfold build_forest_asc, forest_header.
  rewrite map_app, map_const, length_range, Z.sub_0_r, map_repeat.
  unfold terminate, forest_row. cbn [map]. rewrite !append_assoc.
  reflexivity.
Qed.

Lemma lacks_join (c : ascii) (sep : string) (parts : list string) :
  lacks c sep = true ->
  Forall (fun p => lacks c p = true) parts ->
  lacks c (join sep parts) = true.
Proof.
  intros Hsep. induction 1 as [|p ps Hp Hps IH]; [reflexivity|].
  destruct ps as [|q ps]; [exact Hp|].
  change (join sep (p :: q :: ps)) with (p ++ sep ++ join sep (q :: ps)).
  now rewrite !lacks_app, Hp, Hsep, IH.
Qed.

Lemma lacks_join_ones (c : ascii) (n : nat) :
  c <> "1"%char -> c <> " "%char -> lacks c (join " " (repeat "1" n)) = true.
Proof.
  intros H1 Hs.
  assert (E1 : Ascii.eqb "1" c = false) by (apply Ascii.eqb_neq; congruence).
  assert (Es : Ascii.eqb " " c = false) by (apply Ascii.eqb_neq; congruence).
  apply lacks_join.
  - cbn [lacks]. now rewrite Es.
  - all_of_repeat. cbn [lacks]. now rewrite E1.
Qed.

Lemma forest_lines_lack_newline (nrows ncols : Z) :
  Forall (fun l => lacks newline l = true)
    (forest_header nrows ncols ++ repeat (forest_row ncols) (Z.to_nat nrows)).
Proof.
  apply Forall_app. split.
  - unfold forest_header.
    assert (Hn : forall n, lacks newline (str_int n) = true)
      by (intros n; apply lacks_str_int; [reflexivity | discriminate]).
    repeat apply Forall_cons; try apply Forall_nil; try reflexivity;
      rewrite lacks_app, Hn; reflexivity.
  - all_of_repeat. apply lacks_join_ones; discriminate.
Qed.

Lemma tokens_forest_row (ncols : Z) :
  tokens (forest_row ncols) = repeat "1" (Z.to_nat ncols).
Proof.
  apply tokens_join. all_of_repeat. split; reflexivity.
Qed.

Lemma build_data_csv_lines (nrows ncols : Z) :
  build_data_csv nrows ncols =
  written (map terminate
             (data_line data_header
                :: repeat (data_line data_row) (Z.to_nat (nrows * ncols)))).
Proof.
  unfold build_data_csv.
  rewrite map_const, length_range, Z.sub_0_r. cbn [map]. rewrite map_repeat.
  reflexivity.
Qed.

End Landscape.

(** C4. For grid dimensions [nrows], [ncols] (non-negative counts), the
    raster text is the six header lines followed by exactly [nrows] grid
    lines, each of exactly [ncols] blank-separated fuel codes (all ["1"]),
    and the attribute table is the fixed header row followed by exactly
    [nrows * ncols] data records (all the constant record). *)
Theorem landscape_record_and_line_counts (nrows ncols : Z) :
  (0 <= nrows)%Z -> (0 <= ncols)%Z ->
  (exists grid,
      file_lines (build_forest_asc nrows ncols) = forest_header nrows ncols ++ grid
      /\ List.length (forest_header nrows ncols) = 6%nat
      /\ Z.of_nat (List.length grid) = nrows
      /\ Forall (fun line =>
                   Z.of_nat (List.length (tokens line)) = ncols
                   /\ Forall (fun t => t = "1"%string) (tokens line)) grid)
  /\ (exists records,
         csv_rows (build_data_csv nrows ncols) = data_header :: records
         /\ Z.of_nat (List.length records) = (nrows * ncols)%Z
         /\ Forall (fun r => r = data_row) records).
Proof.
  intros Hr Hc. split.
  - exists (repeat (forest_row ncols) (Z.to_nat nrows)).
    rewrite build_forest_asc_lines,
      (file_lines_written _ (forest_lines_lack_newline nrows ncols)).
    repeat split.
    + rewrite repeat_length. lia.
    + all_of_repeat.
      rewrite tokens_forest_row, repeat_length. split; [lia|].
      all_of_repeat. reflexivity.
  - exists (repeat data_row (Z.to_nat (nrows * ncols))).
    unfold csv_rows. rewrite build_data_csv_lines, file_lines_written.
    + cbn [map]. rewrite map_repeat. repeat split.
      * rewrite repeat_length. lia.
      * all_of_repeat. reflexivity.
    + constructor; [reflexivity|]. all_of_repeat. reflexivity.
Qed.

Lemma landscape_record_and_line_counts_witness :
  (exists grid,
      file_lines (build_forest_asc 2 3) = forest_header 2 3 ++ grid
      /\ List.length (forest_header 2 3) = 6%nat
      /\ Z.of_nat (List.length grid) = 2%Z
      /\ Forall (fun line =>
                   Z.of_nat (List.length (tokens line)) = 3%Z
                   /\ Forall (fun t => t = "1"%string) (tokens line)) grid)
  /\ (exists records,
         csv_rows (build_data_csv 2 3) = data_header :: records
         /\ Z.of_nat (List.length records) = (2 * 3)%Z
         /\ Forall (fun r => r = data_row) records).
Proof. apply (landscape_record_and_line_counts 2 3); lia. Defined.

(** ** Asset value map builder *)

Lemma powerline_column_middle (ncols : Z) :
  (2 <= ncols)%Z -> Z.of_nat (powerline_column ncols) = (ncols / 2 - 1)%Z.
Proof.
  intros H. unfold powerline_column.
  rewrite Z.mod_small by (Z.div_mod_to_equations; lia).
  rewrite Z2Nat.id; [reflexivity | Z.div_mod_to_equations; lia].
Qed.

Lemma powerline_column_lt (ncols : Z) :
  (1 <= ncols)%Z -> (powerline_column ncols < Z.to_nat ncols)%nat.
Proof.
  intros H. unfold powerline_column.
  pose proof (Z.mod_pos_bound (ncols / 2 - 1) ncols ltac:(lia)). lia.
Qed.

Lemma norm_index_powerline (ncols : Z) :
  (1 <= ncols)%Z ->
  norm_index (Z.to_nat ncols) (ncols / 2 - 1) = Ok (powerline_column ncols).
Proof.
  intros H. unfold norm_index, powerline_column. rewrite Z2Nat.id by lia.
  destruct (Z.eq_dec ncols 1) as [->|Hne]; [reflexivity|].
  assert (Hlo : (0 <= ncols / 2 - 1)%Z) by (Z.div_mod_to_equations; lia).
  assert (Hhi : (ncols / 2 - 1 < ncols)%Z) by (Z.div_mod_to_equations; lia).
  apply Z.leb_le in Hlo. apply Z.ltb_lt in Hhi as Hhi'. rewrite Hlo, Hhi'.
  cbn [andb]. now rewrite Z.mod_small by (apply Z.leb_le in Hlo; lia).
Qed.

Lemma ones_ok (nrows ncols : Z) :
  (0 <= nrows)%Z -> (0 <= ncols)%Z ->
  ones nrows ncols =
  Ok (mkArray2 (Z.to_nat ncols)
        (repeat (repeat 1%Q (Z.to_nat ncols)) (Z.to_nat nrows))).
Proof.
  intros Hr Hc. unfold ones.
  apply Z.ltb_ge in Hr, Hc. now rewrite Hr, Hc.
Qed.

Lemma build_powerline_values_ok (nrows ncols : Z) :
  (0 <= nrows)%Z -> (1 <= ncols)%Z ->
  build_powerline_values nrows ncols =
  Ok (powerline_matrix nrows ncols, savetxt (powerline_matrix nrows ncols)).
Proof.
  intros Hr Hc. unfold build_powerline_values.
  rewrite ones_ok by lia. cbn [bind]. unfold set_column. cbn [ncols_of rows_of].
  rewrite norm_index_powerline by lia. cbn [bind]. rewrite map_repeat.
  reflexivity.
Qed.

Lemma build_powerline_values_no_columns (nrows : Z) :
  (0 <= nrows)%Z -> build_powerline_values nrows 0 = Raise IndexError.
Proof.
  intros Hr. unfold build_powerline_values. rewrite ones_ok by lia.
  reflexivity.
Qed.

Lemma length_list_set (l : list Q) (j : nat) (x : Q) :
  List.length (list_set l j x) = List.length l.
Proof.
  revert j. induction l as [|h t IH]; intros [|j]; simpl; auto.
Qed.

Lemma nth_list_set (l : list Q) (j k : nat) (x d : Q) :
  (j < List.length l)%nat ->
  nth k (list_set l j x) d = if Nat.eqb k j then x else nth k l d.
Proof.
  revert j k. induction l as [|h t IH]; intros j k Hj; [inversion Hj|].
  destruct j as [|j], k as [|k]; simpl; try reflexivity.
  apply IH. simpl in Hj. lia.
Qed.

Lemma nth_repeat_in {A : Type} (x d : A) (n k : nat) :
  (k < n)%nat -> nth k (repeat x n) d = x.
Proof.
  revert k. induction n as [|n IH]; intros [|k] H; simpl; try lia; auto.
  apply IH. lia.
Qed.

Lemma cell_powerline_matrix (nrows ncols : Z) (i j : nat) :
  (1 <= ncols)%Z -> (i < Z.to_nat nrows)%nat -> (j < Z.to_nat ncols)%nat ->
  cell (powerline_matrix nrows ncols) i j =
  if Nat.eqb j (powerline_column ncols) then 100%Q else 1%Q.
Proof.
  intros Hc Hi Hj. unfold cell, powerline_matrix. cbn [rows_of].
  rewrite nth_repeat_in by exact Hi. unfold powerline_row.
  rewrite nth_list_set
    by (rewrite repeat_length; apply powerline_column_lt; exact Hc).
  now rewrite nth_repeat_in by exact Hj.
Qed.

(** C3 as worded fails: at [ncols = 0] there is no last column to
    elevate, the assignment to column [-1] raises and no matrix is
    returned. *)
Lemma value_map_no_columns_counterexample : ~ value_map_as_specified 2 0.
Proof.
  intros (values & text & H & _). vm_compute in H. discriminate H.
Qed.

(** C3 (amended). For [nrows >= 0] and [ncols >= 1] the builder returns
    an [nrows x ncols] matrix whose cells hold 1.0, except those of the
    column that Python's index [ncols // 2 - 1] designates, which hold
    100.0: column [ncols // 2 - 1] when [ncols >= 2], and column 0 (the
    last one, index [-1]) when [ncols = 1]. The result is a function of
    [(nrows, ncols)] alone. For [ncols = 0] the builder raises
    [IndexError]. *)
Theorem value_map_builder (nrows ncols : Z) :
  (0 <= nrows)%Z -> (0 <= ncols)%Z ->
  (ncols = 0%Z -> build_powerline_values nrows ncols = Raise IndexError)
  /\ ((1 <= ncols)%Z ->
      exists values text,
        build_powerline_values nrows ncols = Ok (values, text)
        /\ Z.of_nat (nrows_of values) = nrows
        /\ Z.of_nat (ncols_of values) = ncols
        /\ rectangular values
        /\ (forall i j, (i < nrows_of values)%nat -> (j < ncols_of values)%nat ->
              cell values i j =
              if Nat.eqb j (powerline_column ncols) then 100%Q else 1%Q)
        /\ ((2 <= ncols)%Z -> Z.of_nat (powerline_column ncols) = (ncols / 2 - 1)%Z)
        /\ (ncols = 1%Z -> powerline_column ncols = 0%nat)
        /\ forall r, build_powerline_values nrows ncols = r -> r = Ok (values, text)).
Proof.
  intros Hr Hc. split.
  - intros ->. now apply build_powerline_values_no_columns.
  - intros Hc1.
    exists (powerline_matrix nrows ncols), (savetxt (powerline_matrix nrows ncols)).
    pose proof (build_powerline_values_ok nrows ncols Hr Hc1) as Hb.
    assert (Hn : nrows_of (powerline_matrix nrows ncols) = Z.to_nat nrows)
      by (unfold nrows_of, powerline_matrix; cbn [rows_of]; apply repeat_length).
    repeat split.
    + exact Hb.
    + rewrite Hn. lia.
    + cbn [powerline_matrix ncols_of]. lia.
    + unfold rectangular, powerline_matrix. cbn [rows_of ncols_of].
      all_of_repeat.
      unfold powerline_row. now rewrite length_list_set, repeat_length.
    + intros i j Hi Hj. rewrite Hn in Hi. cbn [powerline_matrix ncols_of] in Hj.
      now apply cell_powerline_matrix.
    + apply powerline_column_middle.
    + intros ->. reflexivity.
    + intros r <-. exact Hb.
Qed.

Lemma value_map_builder_witness :
  (4 = 0 -> build_powerline_values 3 4 = Raise IndexError)%Z
  /\ ((1 <= 4)%Z ->
      exists values text,
        build_powerline_values 3 4 = Ok (values, text)
        /\ Z.of_nat (nrows_of values) = 3%Z
        /\ Z.of_nat (ncols_of values) = 4%Z
        /\ rectangular values
        /\ (forall i j, (i < nrows_of values)%nat -> (j < ncols_of values)%nat ->
              cell values i j =
              if Nat.eqb j (powerline_column 4) then 100%Q else 1%Q)
        /\ ((2 <= 4)%Z -> Z.of_nat (powerline_column 4) = (4 / 2 - 1)%Z)
        /\ (4%Z = 1%Z -> powerline_column 4 = 0%nat)
        /\ forall r, build_powerline_values 3 4 = r -> r = Ok (values, text)).
Proof. apply (value_map_builder 3 4); lia. Defined.

(** ** Round trip through the custom value file *)

Lemma format_two_valued (x : Q) :
  two_valued x ->
  lacks " "%char (format_1f x) = true
  /\ lacks newline (format_1f x) = true
  /\ is_empty (format_1f x) = false
  /\ parse_decimal (format_1f x) = Some x.
Proof. intros [-> | ->]; vm_compute; repeat split. Qed.

Lemma all_some_map_Some {A B : Type} (f : A -> option B) (g : A -> B) (l : list A) :
  Forall (fun a => f a = Some (g a)) l ->
  all_some (map f l) = Some (map g l).
Proof.
  induction 1 as [|a l Ha _ IH]; [reflexivity|].
  cbn [map all_some]. now rewrite Ha, IH.
Qed.

Lemma savetxt_lines (a : array2) :
  savetxt a = written (map terminate (map value_line (rows_of a))).
Proof. unfold savetxt. now rewrite map_map. Qed.

Lemma value_line_round_trip (r : list Q) :
  Forall two_valued r ->
  lacks newline (value_line r) = true
  /\ all_some (map parse_decimal (tokens (value_line r))) = Some r.
Proof.
  intros Hr. unfold value_line. split.
  - apply lacks_join; [reflexivity|].
    apply Forall_map. eapply Forall_impl; [|exact Hr].
    intros x Hx. now apply format_two_valued.
  - rewrite tokens_join.
    + rewrite map_map, <- (map_id r) at 1.
      rewrite (all_some_map_Some (fun x => parse_decimal (format_1f x)) (fun x => x)).
      * now rewrite !map_id.
      * rewrite map_id. eapply Forall_impl; [|exact Hr].
        intros x Hx. now apply format_two_valued.
    + apply Forall_map. eapply Forall_impl; [|exact Hr].
      intros x Hx. split; now apply format_two_valued.
Qed.

(** Any array whose cells are all 1.0 or 100.0 is read back as it was
    written. *)
Lemma read_values_savetxt (a : array2) :
  Forall (Forall two_valued) (rows_of a) ->
  read_values (savetxt a) = Some (rows_of a).
Proof.
  intros Ha. unfold read_values.
  rewrite savetxt_lines, file_lines_written.
  - rewrite map_map, <- (map_id (rows_of a)) at 1.
    rewrite (all_some_map_Some
               (fun r => all_some (map parse_decimal (tokens (value_line r))))
               (fun r => r)).
    + now rewrite !map_id.
    + rewrite map_id. eapply Forall_impl; [|exact Ha].
      intros r Hr. now apply value_line_round_trip.
  - apply Forall_map. eapply Forall_impl; [|exact Ha].
    intros r Hr. now apply value_line_round_trip.
Qed.

Lemma Forall_list_set (P : Q -> Prop) (l : list Q) (j : nat) (x : Q) :
  P x -> Forall P l -> Forall P (list_set l j x).
Proof.
  intros Hx Hl. revert j.
  induction Hl as [|h t Hh Ht IH]; intros [|j]; simpl; auto.
Qed.

Lemma powerline_matrix_two_valued (nrows ncols : Z) :
  Forall (Forall two_valued) (rows_of (powerline_matrix nrows ncols)).
Proof.
  cbn [powerline_matrix rows_of].
  all_of_repeat.
  apply Forall_list_set; [now right|].
  all_of_repeat. now left.
Qed.

(** C5. For every pair of dimensions on which the builder succeeds
    ([nrows >= 0], [ncols >= 1]), the text it persists is the one-decimal
    rendering of the matrix it returns, and reading that text back
    yields exactly the rows of the returned matrix. *)
Theorem value_file_round_trip (nrows ncols : Z) :
  (0 <= nrows)%Z -> (1 <= ncols)%Z ->
  exists values text,
    build_powerline_values nrows ncols = Ok (values, text)
    /\ text = savetxt values
    /\ read_values text = Some (rows_of values).
Proof.
  intros Hr Hc.
  exists (powerline_matrix nrows ncols), (savetxt (powerline_matrix nrows ncols)).
  split; [now apply build_powerline_values_ok|].
  split; [reflexivity|].
  apply read_values_savetxt, powerline_matrix_two_valued.
Qed.

Lemma value_file_round_trip_witness :
  exists values text,
    build_powerline_values 2 4 = Ok (values, text)
    /\ text = savetxt values
    /\ read_values text = Some (rows_of values).
Proof. apply (value_file_round_trip 2 4); lia. Defined.

(** ** The aggregation loop *)

Lemma loop_body_outcome (w : World) (pv : list Q) (idx : Z) (st : loop_state) (sim : Z) :
  loop_body w pv idx st sim =
  (o <- sim_outcome w pv idx sim ;;
   Ok (if snd o then (fst st + 1)%Z else fst st, snd st ++ [fst o])).
Proof.
  unfold loop_body, sim_outcome.
  destruct (burned_powerline w idx sim) as [b|e]; [|reflexivity].
  cbn [bind]. destruct (loss_this_sim pv b); reflexivity.
Qed.

Lemma count_hits_cons (o : Q * bool) (outs : list (Q * bool)) :
  count_hits (o :: outs) = ((if snd o then 1 else 0) + count_hits outs)%Z.
Proof.
  unfold count_hits. cbn [filter]. destruct (snd o); cbn [List.length]; lia.
Qed.

Lemma count_hits_bounds (outs : list (Q * bool)) :
  (0 <= count_hits outs <= Z.of_nat (List.length outs))%Z.
Proof.
  unfold count_hits. pose proof (filter_length_le snd outs). lia.
Qed.

(** The loop succeeds exactly when every replicate has an outcome; it
    then adds the hits to the counter and appends the losses in order. *)
Lemma for_each_outcomes (w : World) (pv : list Q) (idx : Z) (sims : list Z) :
  forall st st',
    for_each (loop_body w pv idx) sims st = Ok st' <->
    exists outs,
      Forall2 (fun sim o => sim_outcome w pv idx sim = Ok o) sims outs
      /\ fst st' = (fst st + count_hits outs)%Z
      /\ snd st' = snd st ++ map fst outs.
Proof.
  induction sims as [|sim sims IH]; intros st st'; cbn [for_each].
  - split.
    + intros [= <-]. exists []. split; [constructor|].
      unfold count_hits. cbn. rewrite app_nil_r. split; [lia | reflexivity].
    + intros (outs & HF & Hh & Hl). inversion HF; subst.
      unfold count_hits in Hh. cbn in Hh, Hl. rewrite app_nil_r in Hl.
      destruct st, st'. cbn in *. f_equal. f_equal; [lia | congruence].
  - rewrite loop_body_outcome. split.
    + destruct (sim_outcome w pv idx sim) as [o|e] eqn:Ho; [|discriminate].
      cbn [bind]. intros H. apply IH in H as (outs & HF & Hh & Hl).
      exists (o :: outs). split; [now constructor|].
      cbn [fst snd] in Hh, Hl. rewrite count_hits_cons. cbn [map].
      rewrite Hl, <- app_assoc. split; [|reflexivity].
      rewrite Hh. destruct (snd o); lia.
    + intros (outs & HF & Hh & Hl). inversion HF as [|? o ? outs' Ho HF']; subst.
      rewrite Ho. cbn [bind]. apply IH. exists outs'. split; [exact HF'|].
      cbn [fst snd]. rewrite count_hits_cons in Hh. cbn [map] in Hl.
      rewrite Hl, <- app_assoc. split; [|reflexivity].
      rewrite Hh. destruct (snd o); lia.
Qed.

(** [evaluate_losses] returns a report exactly when the value map has
    the power-line column, there is at least one replicate and every
    replicate has an outcome; the report is then the reduction of the
    outcomes. *)
Lemma evaluate_losses_report (w : World) (values : array2) (nsims : Z) (r : report) :
  evaluate_losses w values nsims = Ok r <->
  exists pv outs mx,
    column values (powerline_col_index values) = Ok pv
    /\ Forall2 (fun sim o => sim_outcome w pv (powerline_col_index values) sim = Ok o)
         (range 1 (nsims + 1)) outs
    /\ (1 <= nsims)%Z
    /\ max (map fst outs) = Ok mx
    /\ r = mkReport nsims (nrows_of values) (count_hits outs)
             (inject_Z (count_hits outs) / inject_Z nsims)
             (mean (map fst outs)) mx.
Proof.
  unfold evaluate_losses. fold (powerline_col_index values).
  destruct (column values (powerline_col_index values)) as [pv|e] eqn:Hpv.
  2:{ split; [discriminate|]. intros (? & ? & ? & [=] & _). }
  cbn [bind].
  destruct (for_each (loop_body w pv (powerline_col_index values))
              (range 1 (nsims + 1)) (0%Z, [])) as [st|e] eqn:Hloop.
  - apply for_each_outcomes in Hloop as (outs & HF & Hh & Hl).
    cbn [fst snd app] in Hh, Hl. rewrite Z.add_0_l in Hh.
    cbn [bind]. rewrite Hh, Hl.
    assert (Hlen : List.length outs = Z.to_nat nsims).
    { apply Forall2_length in HF. rewrite length_range in HF. rewrite <- HF.
      f_equal. lia. }
    split.
    + destruct (Z.eqb_spec nsims 0) as [->|Hn0]; [discriminate|]. cbn [bind].
      destruct (max (map fst outs)) as [mx|e] eqn:Hmx; [|discriminate].
      cbn [bind]. intros [= <-].
      exists pv, outs, mx. repeat split; try assumption.
      destruct outs; [discriminate Hmx|]. cbn in Hlen. lia.
    + intros (pv' & outs' & mx & [= <-] & HF' & Hn & Hmx & ->).
      assert (outs' = outs) as ->.
      { clear - HF HF'. revert outs' HF'.
        induction HF as [|sim o sims outs Ho _ IH]; intros outs' HF';
          inversion HF'; subst; [reflexivity|].
        f_equal; [congruence | now apply IH]. }
      destruct (Z.eqb_spec nsims 0); [lia|]. cbn [bind]. rewrite Hmx.
      reflexivity.
  - split; [discriminate|].
    intros (pv' & outs & mx & [= <-] & HF & _).
    assert (Hok : exists st', for_each (loop_body w pv (powerline_col_index values))
                          (range 1 (nsims + 1)) (0%Z, []) = Ok st').
    { exists (count_hits outs, map fst outs). apply for_each_outcomes.
      exists outs. cbn [fst snd app]. split; [exact HF|]. split; [lia | reflexivity]. }
    destruct Hok as [st' Hok]. congruence.
Qed.

(** ** Replicate output locator *)

Section PathOrderFacts.

Lemma ascii_compare_refl (a : ascii) : Ascii.compare a a = Eq.
Proof. apply N.compare_refl. Qed.

Lemma ascii_compare_lt_trans (a b c : ascii) :
  Ascii.compare a b = Lt -> Ascii.compare b c = Lt -> Ascii.compare a c = Lt.
Proof.
  unfold Ascii.compare. rewrite !N.compare_lt_iff. apply N.lt_trans.
Qed.

Lemma string_compare_refl (s : string) : String.compare s s = Eq.
Proof.
  induction s as [|a s IH]; [reflexivity|].
  cbn [String.compare]. now rewrite ascii_compare_refl.
Qed.

Lemma string_leb_refl (s : string) : String.leb s s = true.
Proof. unfold String.leb. now rewrite string_compare_refl. Qed.

Lemma string_compare_not_gt_trans (s1 : string) :
  forall s2 s3,
    String.compare s1 s2 <> Gt -> String.compare s2 s3 <> Gt ->
    String.compare s1 s3 <> Gt.
Proof.
  induction s1 as [|a s1 IH]; intros [|b s2] [|c s3]; cbn [String.compare];
    try congruence.
  destruct (Ascii.compare a b) eqn:Eab; try congruence;
    destruct (Ascii.compare b c) eqn:Ebc; try congruence; intros H12 H23.
  - apply Ascii.compare_eq_iff in Eab, Ebc. subst.
    rewrite ascii_compare_refl. now apply IH with s2.
  - apply Ascii.compare_eq_iff in Eab. subst. now rewrite Ebc.
  - apply Ascii.compare_eq_iff in Ebc. subst. now rewrite Eab.
  - now rewrite (ascii_compare_lt_trans _ _ _ Eab Ebc).
Qed.

Lemma string_leb_trans (s1 s2 s3 : string) :
  String.leb s1 s2 = true -> String.leb s2 s3 = true -> String.leb s1 s3 = true.
Proof.
  unfold String.leb. intros H12 H23.
  pose proof (string_compare_not_gt_trans s1 s2 s3) as H.
  destruct (String.compare s1 s2); try discriminate;
    destruct (String.compare s2 s3); try discriminate;
    destruct (String.compare s1 s3); try reflexivity;
    exfalso; apply H; congruence.
Qed.

Lemma strongly_sorted_sorted (l : list string) :
  StronglySorted (fun a b => is_true (String.leb a b)) (sorted l).
Proof.
  apply PathSort.StronglySorted_sort.
  intros a b c. apply string_leb_trans.
Qed.

Lemma last_in {A : Type} (l : list A) (d : A) : l <> [] -> In (last l d) l.
Proof.
  induction l as [|a [|b l] IH]; intros H; [congruence | now left |].
  right. apply IH. discriminate.
Qed.

Lemma last_strongly_sorted (l : list string) (d : string) :
  StronglySorted (fun a b => is_true (String.leb a b)) l ->
  Forall (fun a => String.leb a (last l d) = true) l.
Proof.
  induction 1 as [|a l Hl IH Ha]; [constructor|].
  destruct l as [|b l].
  - constructor; [apply string_leb_refl | constructor].
  - change (last (a :: b :: l) d) with (last (b :: l) d).
    constructor; [|exact IH].
    eapply Forall_forall in Ha; [exact Ha|].
    apply last_in. discriminate.
Qed.

End PathOrderFacts.

Section Glob.

Local Open Scope string_scope.

Lemma strip_prefix_spec (p s rest : string) :
  strip_prefix p s = Some rest <-> s = p ++ rest.
Proof.
  revert s. induction p as [|a p IH]; intros s; cbn [strip_prefix append].
  - split; congruence.
  - destruct s as [|b s]; [split; discriminate|].
    destruct (Ascii.eqb_spec a b) as [->|Hne].
    + rewrite IH. split; congruence.
    + split; [discriminate | congruence].
Qed.

Lemma ends_with_csv_spec (s : string) :
  ends_with_csv s = true <-> exists mid, s = mid ++ ".csv".
Proof.
  induction s as [|a s IH].
  - split; [discriminate|]. intros [[|? ?] H]; discriminate H.
  - cbn [ends_with_csv]. rewrite orb_true_iff, IH, String.eqb_eq. split.
    + intros [H | [mid ->]]; [exists ""; exact H | now exists (String a mid)].
    + intros [[|b mid] H]; [now left|].
      right. exists mid. cbn [append] in H. congruence.
Qed.

(** The names the pattern ["ForestGrid*.csv"] selects. *)
Lemma is_forest_grid_spec (name : string) :
  is_forest_grid name = true <->
  exists mid, name = "ForestGrid" ++ mid ++ ".csv".
Proof.
  unfold is_forest_grid. split.
  - destruct (strip_prefix "ForestGrid" name) as [rest|] eqn:E; [|discriminate].
    apply strip_prefix_spec in E. intros H.
    apply ends_with_csv_spec in H as [mid ->]. now exists mid.
  - intros [mid ->].
    assert (E : strip_prefix "ForestGrid" ("ForestGrid" ++ mid ++ ".csv")
                = Some (mid ++ ".csv")) by now apply strip_prefix_spec.
    rewrite E. apply ends_with_csv_spec. now exists mid.
Qed.

Lemma in_glob_forest_grids (w : World) (folder p : string) :
  In p (glob_forest_grids w folder) <->
  exists names n,
    listdir w folder = Some names /\ In n names
    /\ (exists mid, n = "ForestGrid" ++ mid ++ ".csv")
    /\ p = folder ++ "/" ++ n.
Proof.
  unfold glob_forest_grids. destruct (listdir w folder) as [names|].
  - rewrite in_map_iff. split.
    + intros (n & <- & Hn). apply filter_In in Hn as [Hn Hg].
      exists names, n. rewrite <- is_forest_grid_spec. auto.
    + intros (names' & n & [= <-] & Hn & Hg & ->).
      exists n. split; [reflexivity|].
      apply filter_In. rewrite is_forest_grid_spec. auto.
  - split; [intros []|]. intros (? & ? & [=] & _).
Qed.

End Glob.

Lemma sorted_nil_iff (l : list string) : sorted l = [] <-> l = [].
Proof.
  split; [|intros ->; reflexivity].
  intros H. pose proof (PathSort.Permuted_sort l) as P. fold (sorted l) in P.
  rewrite H in P. now apply Permutation_nil, Permutation_sym.
Qed.

Lemma get_last_forest_grid_for_sim_missing (w : World) (sim : Z) :
  forest_grids_of w sim = [] ->
  get_last_forest_grid_for_sim w sim = Raise RuntimeError.
Proof.
  unfold get_last_forest_grid_for_sim, forest_grids_of. now intros ->.
Qed.

Lemma get_last_forest_grid_for_sim_found (w : World) (sim : Z) :
  forest_grids_of w sim <> [] ->
  get_last_forest_grid_for_sim w sim
  = Ok (last (sorted (forest_grids_of w sim)) EmptyString).
Proof.
  unfold get_last_forest_grid_for_sim. fold (forest_grids_of w sim).
  intros H. destruct (sorted (forest_grids_of w sim)) eqn:E; [|reflexivity].
  apply (proj1 (sorted_nil_iff _)) in E. exfalso. apply H. exact E.
Qed.

Lemma Forall2_in_left {A B : Type} (R : A -> B -> Prop) (l : list A) (l' : list B) (a : A) :
  Forall2 R l l' -> In a l -> exists b, In b l' /\ R a b.
Proof.
  induction 1 as [|x y l l' Hxy _ IH]; intros Hin; [destruct Hin|].
  destruct Hin as [<- | Hin].
  - exists y. split; [now left | exact Hxy].
  - destruct (IH Hin) as (b & Hb & Hab). exists b. split; [now right | exact Hab].
Qed.

Lemma in_range (lo hi k : Z) : In k (range lo hi) <-> (lo <= k < hi)%Z.
Proof.
  unfold range. rewrite in_map_iff. split.
  - intros (n & <- & Hn). apply in_seq in Hn. lia.
  - intros H. exists (Z.to_nat (k - lo)). split; [lia|]. apply in_seq. lia.
Qed.

(** A replicate in range without outcome makes the whole aggregation
    fail. *)
Lemma evaluate_losses_needs_outcome (w : World) (values : array2) (nsims sim : Z) :
  (1 <= sim <= nsims)%Z ->
  (forall pv, column values (powerline_col_index values) = Ok pv ->
              is_ok (sim_outcome w pv (powerline_col_index values) sim) = false) ->
  is_ok (evaluate_losses w values nsims) = false.
Proof.
  intros Hsim Hbad.
  destruct (evaluate_losses w values nsims) as [r|e] eqn:E; [|reflexivity].
  apply evaluate_losses_report in E as (pv & outs & mx & Hpv & HF & _).
  assert (Hin : In sim (range 1 (nsims + 1))) by (apply in_range; lia).
  destruct (Forall2_in_left _ _ _ _ HF Hin) as (o & _ & Ho).
  specialize (Hbad pv Hpv). rewrite Ho in Hbad. discriminate.
Qed.

Lemma sim_outcome_needs_file (w : World) (pv : list Q) (idx sim : Z) (e : exn) :
  get_last_forest_grid_for_sim w sim = Raise e ->
  sim_outcome w pv idx sim = Raise e.
Proof.
  intros H. unfold sim_outcome, burned_powerline, final_grid_column.
  now rewrite H.
Qed.

(** C6. The candidates of a replicate are the entries of its grid folder
    named [ForestGrid*.csv] (none when the folder is missing); the
    locator sorts them by name and returns the last one, which is a
    candidate and follows every other candidate in the order. With no
    candidate it raises [RuntimeError], and so does not return: an
    aggregation over a range holding that replicate yields no report. *)
Theorem locator_last_or_error (w : World) (sim : Z) :
  (forall p,
      In p (forest_grids_of w sim) <->
      exists names n,
        listdir w (sim_grid_folder sim) = Some names /\ In n names
        /\ (exists mid, n = ("ForestGrid" ++ mid ++ ".csv")%string)
        /\ p = (sim_grid_folder sim ++ "/" ++ n)%string)
  /\ Permutation (forest_grids_of w sim) (sorted (forest_grids_of w sim))
  /\ StronglySorted (fun a b => is_true (String.leb a b))
       (sorted (forest_grids_of w sim))
  /\ (forest_grids_of w sim = [] ->
      get_last_forest_grid_for_sim w sim = Raise RuntimeError
      /\ forall values nsims, (1 <= sim <= nsims)%Z ->
           is_ok (evaluate_losses w values nsims) = false)
  /\ (forest_grids_of w sim <> [] ->
      exists f,
        get_last_forest_grid_for_sim w sim = Ok f
        /\ f = last (sorted (forest_grids_of w sim)) EmptyString
        /\ In f (forest_grids_of w sim)
        /\ Forall (fun g => String.leb g f = true) (forest_grids_of w sim)).
Proof.
  split; [intros p; apply in_glob_forest_grids|].
  split; [apply PathSort.Permuted_sort|].
  split; [apply strongly_sorted_sorted|].
  split.
  - intros Hnone.
    pose proof (get_last_forest_grid_for_sim_missing w sim Hnone) as Hraise.
    split; [exact Hraise|].
    intros values nsims Hsim.
    apply evaluate_losses_needs_outcome with sim; [exact Hsim|].
    intros pv _. now rewrite (sim_outcome_needs_file w pv _ sim RuntimeError Hraise).
  - intros Hsome.
    exists (last (sorted (forest_grids_of w sim)) EmptyString).
    pose proof (PathSort.Permuted_sort (forest_grids_of w sim)) as P.
    fold (sorted (forest_grids_of w sim)) in P.
    assert (Hne : sorted (forest_grids_of w sim) <> [])
      by (intros E; apply Hsome; now apply sorted_nil_iff).
    split; [now apply get_last_forest_grid_for_sim_found|].
    split; [reflexivity|].
    split.
    + eapply Permutation_in; [apply Permutation_sym, P|]. now apply last_in.
    + apply Forall_forall. intros g Hg.
      pose proof (last_strongly_sorted _ EmptyString
                    (strongly_sorted_sorted (forest_grids_of w sim))) as HF.
      eapply Forall_forall in HF; [exact HF|].
      eapply Permutation_in; [exact P | exact Hg].
Qed.

(** ** Risk aggregator: sums, masks and extrema *)

Section Reductions.

Lemma fold_left_plus_total (l : list Q) (a : Q) :
  fold_left Qplus l a == a + total l.
Proof.
  revert a. induction l as [|x l IH]; intros a; cbn [fold_left total fold_right].
  - now rewrite Qplus_0_r.
  - rewrite IH. fold (total l). now rewrite Qplus_assoc.
Qed.

Lemma sum_total (l : list Q) : sum l == total l.
Proof. unfold sum. rewrite fold_left_plus_total. apply Qplus_0_l. Qed.

Lemma any_eq_one (col : list Q) : any (eq_one col) = replicate_hitb col.
Proof.
  unfold any, eq_one, replicate_hitb.
  induction col as [|b col IH]; [reflexivity|].
  cbn [map existsb]. now rewrite IH.
Qed.

Lemma replicate_hitb_spec (col : list Q) :
  replicate_hitb col = true <-> replicate_hit col.
Proof.
  unfold replicate_hitb, replicate_hit.
  rewrite existsb_exists, Exists_exists.
  split; intros (b & Hin & Hb); exists b; split; auto;
    now apply Qeq_bool_iff.
Qed.

(** The masked sum of the code is the conditional sum of the
    specification. *)
Lemma total_select (pv col : list Q) :
  total (select pv (eq_one col)) == replicate_loss pv col.
Proof.
  revert col. induction pv as [|v pv IH]; intros [|b col];
    cbn [eq_one map select replicate_loss total fold_right]; try reflexivity.
  fold (eq_one col).
  destruct (Qeq_bool b 1); cbn [total fold_right]; fold (total (select pv (eq_one col)));
    now rewrite IH.
Qed.

Lemma Qplus_nonneg (a b : Q) : 0 <= a -> 0 <= b -> 0 <= a + b.
Proof.
  intros Ha Hb. apply Qle_trans with (0 + 0).
  - unfold Qle. cbn. lia.
  - now apply Qplus_le_compat.
Qed.

Lemma Qle_plus_nonneg_l (a b c : Q) : 0 <= a -> b <= c -> b <= a + c.
Proof.
  intros Ha Hbc. apply Qle_trans with (0 + b).
  - rewrite Qplus_0_l. apply Qle_refl.
  - now apply Qplus_le_compat.
Qed.

Lemma total_nonneg (l : list Q) : Forall (fun x => 0 <= x) l -> 0 <= total l.
Proof.
  induction 1 as [|x l Hx _ IH]; cbn [total fold_right]; [apply Qle_refl|].
  now apply Qplus_nonneg.
Qed.

Lemma total_select_bounds (pv : list Q) (mask : list bool) :
  Forall (fun v => 0 <= v) pv ->
  0 <= total (select pv mask) <= total pv.
Proof.
  intros Hpv. revert mask.
  induction Hpv as [|v pv Hv Hpv IH]; intros mask.
  - destruct mask; cbn; split; apply Qle_refl.
  - destruct mask as [|b mask]; cbn [select].
    + split; [apply Qle_refl|]. apply total_nonneg. now constructor.
    + destruct (IH mask) as [Hlo Hhi].
      destruct b; cbn [total fold_right]; fold (total (select pv mask));
        fold (total pv).
      * split; [now apply Qplus_nonneg|].
        apply Qplus_le_compat; [apply Qle_refl | exact Hhi].
      * split; [exact Hlo | now apply Qle_plus_nonneg_l].
Qed.

Lemma Qmax_cases (x y : Q) : Qmax x y = x \/ Qmax x y = y.
Proof.
  unfold Qmax, GenericMinMax.gmax. destruct (x ?= y); auto.
Qed.

Lemma fold_left_max (l : list Q) :
  forall x,
    In (fold_left Qmax l x) (x :: l)
    /\ x <= fold_left Qmax l x
    /\ Forall (fun y => y <= fold_left Qmax l x) l.
Proof.
  induction l as [|y l IH]; intros x; cbn [fold_left].
  - split; [now left|]. split; [apply Qle_refl | constructor].
  - destruct (IH (Qmax x y)) as (Hin & Hle & Hall).
    split; [|split].
    + destruct Hin as [Hin | Hin]; [|now right; right].
      rewrite <- Hin.
      destruct (Qmax_cases x y) as [E | E]; rewrite E;
        [now left | now right; left].
    + eapply Qle_trans; [apply Q.le_max_l | exact Hle].
    + constructor; [|exact Hall].
      eapply Qle_trans; [apply Q.le_max_r | exact Hle].
Qed.

Lemma max_is_maximum (l : list Q) (m : Q) : max l = Ok m -> is_maximum m l.
Proof.
  destruct l as [|x l]; [discriminate|]. intros [= <-].
  destruct (fold_left_max l x) as (Hin & Hle & Hall).
  split; [exact Hin | now constructor].
Qed.

Lemma max_nonempty (l : list Q) : l <> [] -> exists m, max l = Ok m.
Proof. destruct l as [|x l]; [congruence|]. intros _. now eexists. Qed.

Lemma total_le_scaled (l : list Q) (m : Q) :
  Forall (fun x => x <= m) l ->
  total l <= m * inject_Z (Z.of_nat (List.length l)).
Proof.
  induction 1 as [|x l Hx _ IH]; cbn [total fold_right List.length].
  - rewrite Qmult_0_r. apply Qle_refl.
  - fold (total l). rewrite Nat2Z.inj_succ, <- Z.add_1_l, inject_Z_plus.
    rewrite Qmult_plus_distr_r, Qmult_1_r.
    now apply Qplus_le_compat.
Qed.

Lemma total_map_ext {A : Type} (f g : A -> Q) (l : list A) :
  (forall a, In a l -> f a == g a) -> total (map f l) == total (map g l).
Proof.
  induction l as [|a l IH]; intros H; cbn [map total fold_right]; [reflexivity|].
  fold (total (map f l)). fold (total (map g l)).
  rewrite (H a (or_introl eq_refl)), IH; [reflexivity|].
  intros b Hb. apply H. now right.
Qed.

Lemma mean_total (l : list Q) :
  mean l == total l / inject_Z (Z.of_nat (List.length l)).
Proof. unfold mean. now rewrite sum_total. Qed.

(** The mean of a non-empty list lies below any bound of its elements
    and above zero when they are non-negative. *)
Lemma mean_le_bound (l : list Q) (m : Q) :
  l <> [] -> Forall (fun x => x <= m) l -> mean l <= m.
Proof.
  intros Hne Hall. rewrite mean_total.
  apply Qle_shift_div_r; [|now apply total_le_scaled].
  rewrite <- (Zlt_Qlt 0). destruct l; [congruence | cbn [List.length]; lia].
Qed.

Lemma mean_nonneg (l : list Q) :
  l <> [] -> Forall (fun x => 0 <= x) l -> 0 <= mean l.
Proof.
  intros Hne Hall. rewrite mean_total.
  apply Qle_shift_div_l.
  - rewrite <- (Zlt_Qlt 0). destruct l; [congruence | cbn [List.length]; lia].
  - rewrite Qmult_0_l. now apply total_nonneg.
Qed.

End Reductions.

(** ** Risk aggregator: outcomes of replicates *)

Lemma sim_outcome_spec (w : World) (pv : list Q) (idx sim : Z) (o : Q * bool) :
  sim_outcome w pv idx sim = Ok o <->
  exists col,
    final_grid_column w idx sim = Ok col
    /\ List.length col = List.length pv
    /\ o = (sum (select pv (eq_one col)), any (eq_one col)).
Proof.
  unfold sim_outcome, burned_powerline, loss_this_sim, bool_index.
  destruct (final_grid_column w idx sim) as [col|e]; cbn [bind].
  - unfold eq_one at 1. rewrite length_map.
    destruct (Nat.eqb_spec (List.length pv) (List.length col)) as [E|E]; cbn [bind].
    + split; [intros [= <-]; now exists col|].
      intros (col' & [= <-] & _ & ->). reflexivity.
    + split; [discriminate|]. intros (col' & [= <-] & E' & _). congruence.
  - split; [discriminate|]. intros (col & [=] & _).
Qed.

(** The mask and the loss of a replicate whose power-line column is
    [col]. *)
Lemma replicate_mask_and_loss (w : World) (pv col : list Q) (idx sim : Z) :
  final_grid_column w idx sim = Ok col ->
  List.length col = List.length pv ->
  burned_powerline w idx sim = Ok (eq_one col)
  /\ loss_this_sim pv (eq_one col) = Ok (sum (select pv (eq_one col))).
Proof.
  intros Hcol Hlen. unfold burned_powerline, loss_this_sim, bool_index.
  rewrite Hcol. cbn [bind]. split; [reflexivity|].
  unfold eq_one at 1. rewrite length_map, Hlen, Nat.eqb_refl. reflexivity.
Qed.

Lemma outcomes_of_columns (w : World) (pv : list Q) (idx : Z)
  (sims : list Z) (cols : list (list Q)) :
  Forall2 (fun sim col => final_grid_column w idx sim = Ok col
                          /\ List.length col = List.length pv) sims cols ->
  Forall2 (fun sim o => sim_outcome w pv idx sim = Ok o) sims
    (map (outcome_of pv) cols).
Proof.
  induction 1 as [|sim col sims cols [Hcol Hlen] _ IH]; cbn [map]; constructor;
    [|exact IH].
  apply sim_outcome_spec. now exists col.
Qed.

Lemma columns_of_outcomes (w : World) (pv : list Q) (idx : Z)
  (sims : list Z) (outs : list (Q * bool)) :
  Forall2 (fun sim o => sim_outcome w pv idx sim = Ok o) sims outs ->
  exists cols,
    Forall2 (fun sim col => final_grid_column w idx sim = Ok col
                            /\ List.length col = List.length pv) sims cols
    /\ outs = map (outcome_of pv) cols.
Proof.
  induction 1 as [|sim o sims outs Ho _ (cols & HF & ->)].
  - exists []. split; [constructor | reflexivity].
  - apply sim_outcome_spec in Ho as (col & Hcol & Hlen & ->).
    exists (col :: cols). split; [now constructor | reflexivity].
Qed.

Lemma count_hits_outcomes (pv : list Q) (cols : list (list Q)) :
  count_hits (map (outcome_of pv) cols)
  = Z.of_nat (List.length (filter replicate_hitb cols)).
Proof.
  unfold count_hits. f_equal.
  induction cols as [|col cols IH]; [reflexivity|].
  cbn [map filter snd outcome_of]. rewrite any_eq_one.
  destruct (replicate_hitb col); cbn [List.length]; now rewrite IH.
Qed.

Lemma fst_outcome_of (pv col : list Q) :
  fst (outcome_of pv col) == replicate_loss pv col.
Proof. cbn [outcome_of fst]. now rewrite sum_total, total_select. Qed.

Lemma report_of_columns (w : World) (values : array2) (nsims : Z)
  (pv : list Q) (cols : list (list Q)) :
  (1 <= nsims)%Z ->
  column values (powerline_col_index values) = Ok pv ->
  Forall2 (fun sim col =>
             final_grid_column w (powerline_col_index values) sim = Ok col
             /\ List.length col = List.length pv)
    (range 1 (nsims + 1)) cols ->
  exists r,
    evaluate_losses w values nsims = Ok r /\ report_as_specified pv cols nsims r.
Proof.
  intros Hn Hpv HF.
  assert (Hlen : List.length cols = Z.to_nat nsims).
  { apply Forall2_length in HF. rewrite length_range in HF. rewrite <- HF.
    f_equal. lia. }
  assert (Hne : map fst (map (outcome_of pv) cols) <> []).
  { destruct cols; [cbn in Hlen; lia | discriminate]. }
  destruct (max_nonempty _ Hne) as [mx Hmx].
  eexists. split.
  - apply evaluate_losses_report. exists pv, (map (outcome_of pv) cols), mx.
    repeat split; try eassumption. now apply outcomes_of_columns.
  - pose proof (max_is_maximum _ _ Hmx) as [Hin Hall].
    unfold report_as_specified.
    cbn [n_sims hit_count hit_rate avg_loss max_loss].
    rewrite count_hits_outcomes.
    split; [reflexivity|]. split; [reflexivity|]. split; [reflexivity|].
    split; [|split].
    + rewrite mean_total, !length_map, Hlen, Z2Nat.id by lia.
      rewrite map_map.
      rewrite (total_map_ext (fun col => fst (outcome_of pv col))
                 (replicate_loss pv) cols); [reflexivity|].
      intros col _. apply fst_outcome_of.
    + rewrite map_map in Hin. apply in_map_iff in Hin as (col & <- & Hcol).
      exists col. split; [exact Hcol | apply fst_outcome_of].
    + rewrite map_map in Hall. rewrite Forall_map in Hall.
      eapply Forall_impl; [|exact Hall].
      intros col Hle. cbv beta in Hle. now rewrite <- fst_outcome_of.
Qed.

(** Conversely, a report is only returned under these conditions. *)
Lemma columns_of_report (w : World) (values : array2) (nsims : Z) (r : report) :
  evaluate_losses w values nsims = Ok r ->
  (1 <= nsims)%Z
  /\ exists pv cols,
      column values (powerline_col_index values) = Ok pv
      /\ Forall2 (fun sim col =>
                    final_grid_column w (powerline_col_index values) sim = Ok col
                    /\ List.length col = List.length pv)
           (range 1 (nsims + 1)) cols.
Proof.
  intros H.
  apply evaluate_losses_report in H as (pv & outs & mx & Hpv & HF & Hn & _).
  split; [exact Hn|].
  destruct (columns_of_outcomes _ _ _ _ _ HF) as (cols & HF' & _).
  now exists pv, cols.
Qed.

(** Without replicates there is no report: the division by [nsims]
    raises at [nsims = 0], and [np.max] of no losses raises below. *)
Lemma evaluate_losses_no_replicates (w : World) (values : array2) (nsims : Z) (pv : list Q) :
  column values (powerline_col_index values) = Ok pv ->
  (nsims <= 0)%Z ->
  evaluate_losses w values nsims
  = Raise (if (nsims =? 0)%Z then ZeroDivisionError else ValueError).
Proof.
  intros Hpv Hn. unfold evaluate_losses. fold (powerline_col_index values).
  rewrite Hpv. cbn [bind]. unfold range.
  replace (Z.to_nat (nsims + 1 - 1)) with 0%nat by lia.
  cbn [seq map for_each bind fst snd].
  destruct (nsims =? 0)%Z; reflexivity.
Qed.

(** ** The aggregation in floating point *)













(** The 4 x 4 scenario in floating point, with a [float32] value map
    and on the processor's floats: the numbers of the exact computation,
    none of them rounded. *)
Example rounded_scenario_report :
  Fp.evaluate_losses (rounded binary32) (fp_world scenario_world)
    (fp_array scenario_values) 2
  = Ok (Fp.mkReport 2 4 1 (1 # 2) 200 400).
Proof. vm_compute. reflexivity. Qed.

Example float_scenario_report :
  Fp.evaluate_losses float64 float_scenario_world float_scenario_values 2
  = Ok (Fp.mkReport 2 4 1 (float_of_decimal 1 2) (float_of_int 200) (float_of_int 400)).
Proof. vm_compute. reflexivity. Qed.

(** One hit in three replicates: the hit rate is the float nearest to
    one third, below it. *)
Example rounded_one_third :
  Fp.div (rounded binary32) (Fp.of_int (rounded binary32) 1)
    (Fp.of_int (rounded binary32) 3)
  == 6004799503160661 # 18014398509481984
  /\ Q_of_float (float_of_decimal 1 3) == 6004799503160661 # 18014398509481984.
Proof. split; vm_compute; reflexivity. Qed.

(** [round] on some sums and quotients, against the processor's
    [binary64] and Stdlib's specification of [binary32]: normal and
    subnormal results, inexact ones and ties. *)
Example round_is_the_rounding_of_the_floats :
  let x := float_of_decimal 45 1000 in
  let third := SpecFloat.SFdiv 24 128 (SpecFloat.binary_normalize 24 128 1 0 false)
                 (SpecFloat.binary_normalize 24 128 3 0 false) in
  Q_of_float x == round binary64 (45 # 1000)
  /\ Q_of_float (PrimFloat.add x x) == round binary64 (Q_of_float x + Q_of_float x)
  /\ Q_of_float (PrimFloat.add (PrimFloat.add x x) x)
     == round binary64 (Q_of_float (PrimFloat.add x x) + Q_of_float x)
  /\ Q_of_float (PrimFloat.div (PrimFloat.add (PrimFloat.add x x) x) (float_of_int 3))
     == round binary64 (Q_of_float (PrimFloat.add (PrimFloat.add x x) x) / 3)
  /\ Q_of_float (float_of_int 9007199254740993) == round binary64 9007199254740993
  /\ Q_of_float (PrimFloat.div (PrimFloat.ldshiftexp (float_of_int 7) (Uint63.of_Z 1027))
                   (float_of_int 3))
     == round binary64 (7 * 2 ^ (-1074) / 3)
  /\ Q_of_spec_float third == round binary32 (1 # 3)
  /\ Q_of_spec_float (SpecFloat.SFadd 24 128 third third)
     == round binary32 (Q_of_spec_float third + Q_of_spec_float third)
  /\ Q_of_spec_float (SpecFloat.SFadd 24 128 (SpecFloat.binary_normalize 24 128 16777216 0 false)
                        (SpecFloat.binary_normalize 24 128 1 0 false))
     == round binary32 (16777216 + 1)
  /\ Q_of_spec_float (SpecFloat.SFdiv 24 128 (SpecFloat.binary_normalize 24 128 5 (-149) false)
                        (SpecFloat.binary_normalize 24 128 3 0 false))
     == round binary32 (5 * 2 ^ (-149) / 3).
Proof. repeat split; vm_compute; reflexivity. Qed.

(** Three replicates of loss 0.045 each: the mean, rounded twice, is
    above every loss, in the model as on the processor. *)
Example small_losses_report :
  exists r,
    Fp.evaluate_losses (rounded binary64) (fp_world small_losses_world)
      (fp_array small_losses_values) 3 = Ok r
    /\ Fp.hit_count r = 3%Z
    /\ Fp.max_loss r == round binary64 (45 # 1000)
    /\ Fp.max_loss r < Fp.avg_loss r.
Proof. eexists. split; [vm_compute; reflexivity|]. repeat split; vm_compute; reflexivity. Qed.

Example small_losses_float_report :
  exists r,
    Fp.evaluate_losses float64 small_losses_float_world small_losses_float_values 3 = Ok r
    /\ Fp.hit_count r = 3%Z
    /\ Fp.max_loss r = float_of_decimal 45 1000
    /\ PrimFloat.ltb (Fp.max_loss r) (Fp.avg_loss r) = true
    /\ Q_of_float (Fp.avg_loss r)
       == round binary64
            (round binary64
               (round binary64 (round binary64 (45 # 1000) + round binary64 (45 # 1000))
                + round binary64 (45 # 1000)) / 3).
Proof. eexists. split; [vm_compute; reflexivity|]. repeat split; vm_compute; reflexivity. Qed.

(** ** The 4 x 4 scenario *)

Example scenario_values_built :
  exists text, build_powerline_values 4 4 = Ok (scenario_values, text).
Proof. eexists. vm_compute. reflexivity. Qed.

Example scenario_locator :
  get_last_forest_grid_for_sim scenario_world 1
  = Ok "Grids/Grids1/ForestGrid01.csv"%string
  /\ get_last_forest_grid_for_sim scenario_world 3 = Raise RuntimeError.
Proof. split; vm_compute; reflexivity. Qed.

(** A 4-row grid whose column [j] holds [x] everywhere (up to numeric
    equality) has the mask [x == 1] constant on that column. *)
Lemma column_of_four_rows (g : array2) (j : Z) (k : nat) :
  nrows_of g = 4%nat -> norm_index (ncols_of g) j = Ok k ->
  column g j = Ok [cell g 0 k; cell g 1 k; cell g 2 k; cell g 3 k].
Proof.
  unfold nrows_of, column, cell. intros Hrows ->.
  destruct (rows_of g) as [|r0 [|r1 [|r2 [|r3 [|r4 rows]]]]]; try discriminate.
  reflexivity.
Qed.

Lemma eq_one_of_eq (x y : Q) : x == y -> Qeq_bool x 1 = Qeq_bool y 1.
Proof.
  intros H. destruct (Qeq_bool y 1) eqn:E.
  - apply Qeq_bool_iff. apply Qeq_bool_iff in E. now rewrite H.
  - destruct (Qeq_bool x 1) eqn:E'; [|reflexivity].
    apply Qeq_bool_iff in E'. rewrite H in E'.
    apply Qeq_bool_iff in E'. congruence.
Qed.

(** C2. Rows = cols = 4: the value map has rows [1, 100, 1, 1] and
    power-line column 1. With two replicates whose final grids are 4 x 4,
    the first with column 1 all 1 and the second with column 1 all 0:
    replicate 1 has loss 400 and is a hit, replicate 2 has loss 0 and is
    not; the report has hit count 1, hit rate 1/2, mean loss 200 and
    maximum loss 400. *)
Theorem scenario_two_replicates (w : World) (f1 f2 : string) (g1 g2 : array2) :
  get_last_forest_grid_for_sim w 1 = Ok f1 -> loadtxt w f1 = Ok (Nd2 g1) ->
  get_last_forest_grid_for_sim w 2 = Ok f2 -> loadtxt w f2 = Ok (Nd2 g2) ->
  nrows_of g1 = 4%nat -> ncols_of g1 = 4%nat ->
  nrows_of g2 = 4%nat -> ncols_of g2 = 4%nat ->
  (forall i, (i < 4)%nat -> cell g1 i 1 == 1) ->
  (forall i, (i < 4)%nat -> cell g2 i 1 == 0) ->
  exists values text pv,
    build_powerline_values 4 4 = Ok (values, text)
    /\ rows_of values = [[1;100;1;1]; [1;100;1;1]; [1;100;1;1]; [1;100;1;1]]
    /\ powerline_col_index values = 1%Z
    /\ column values (powerline_col_index values) = Ok pv
    /\ (exists burned loss,
           burned_powerline w 1 1 = Ok burned
           /\ loss_this_sim pv burned = Ok loss
           /\ loss == 400 /\ any burned = true)
    /\ (exists burned loss,
           burned_powerline w 1 2 = Ok burned
           /\ loss_this_sim pv burned = Ok loss
           /\ loss == 0 /\ any burned = false)
    /\ exists r,
        evaluate_losses w values 2 = Ok r
        /\ hit_count r = 1%Z
        /\ hit_rate r == 1 # 2
        /\ avg_loss r == 200
        /\ max_loss r == 400.
Proof.
  intros Hf1 Hg1 Hf2 Hg2 Hr1 Hc1 Hr2 Hc2 Hone Hzero.
  assert (Hcol1 : final_grid_column w 1 1
                  = Ok [cell g1 0 1; cell g1 1 1; cell g1 2 1; cell g1 3 1]).
  { unfold final_grid_column. rewrite Hf1. cbn [bind]. rewrite Hg1. cbn [bind column_nd].
    apply column_of_four_rows; [exact Hr1 | now rewrite Hc1]. }
  assert (Hcol2 : final_grid_column w 1 2
                  = Ok [cell g2 0 1; cell g2 1 1; cell g2 2 1; cell g2 3 1]).
  { unfold final_grid_column. rewrite Hf2. cbn [bind]. rewrite Hg2. cbn [bind column_nd].
    apply column_of_four_rows; [exact Hr2 | now rewrite Hc2]. }
  assert (Hm1 : eq_one [cell g1 0 1; cell g1 1 1; cell g1 2 1; cell g1 3 1]
                = [true; true; true; true]).
  { cbn [eq_one map].
    rewrite (eq_one_of_eq (cell g1 0 1) 1), (eq_one_of_eq (cell g1 1 1) 1),
      (eq_one_of_eq (cell g1 2 1) 1), (eq_one_of_eq (cell g1 3 1) 1)
      by (apply Hone; lia).
    reflexivity. }
  assert (Hm2 : eq_one [cell g2 0 1; cell g2 1 1; cell g2 2 1; cell g2 3 1]
                = [false; false; false; false]).
  { cbn [eq_one map].
    rewrite (eq_one_of_eq (cell g2 0 1) 0), (eq_one_of_eq (cell g2 1 1) 0),
      (eq_one_of_eq (cell g2 2 1) 0), (eq_one_of_eq (cell g2 3 1) 0)
      by (apply Hzero; lia).
    reflexivity. }
  assert (Hb1 : burned_powerline w 1 1 = Ok [true; true; true; true])
    by (unfold burned_powerline; rewrite Hcol1; cbn [bind]; now rewrite Hm1).
  assert (Hb2 : burned_powerline w 1 2 = Ok [false; false; false; false])
    by (unfold burned_powerline; rewrite Hcol2; cbn [bind]; now rewrite Hm2).
  exists scenario_values. eexists. exists [100; 100; 100; 100].
  split; [vm_compute; reflexivity|].
  split; [reflexivity|]. split; [reflexivity|]. split; [reflexivity|].
  split; [|split].
  - exists [true; true; true; true]. eexists.
    split; [exact Hb1|]. split; [reflexivity|]. split; reflexivity.
  - exists [false; false; false; false]. eexists.
    split; [exact Hb2|]. split; [reflexivity|]. split; reflexivity.
  - eexists. split.
    + apply evaluate_losses_report.
      exists [100; 100; 100; 100], [(400, true); (0, false)], 400.
      split; [reflexivity|].
      split.
      * change (range 1 (2 + 1)) with [1; 2]%Z.
        change (powerline_col_index scenario_values) with 1%Z.
        unfold sim_outcome. repeat constructor.
        -- now rewrite Hb1.
        -- now rewrite Hb2.
      * split; [lia|]. split; reflexivity.
    + cbn [hit_count hit_rate avg_loss max_loss]. repeat split.
Qed.

Lemma scenario_two_replicates_witness :
  exists values text pv,
    build_powerline_values 4 4 = Ok (values, text)
    /\ rows_of values = [[1;100;1;1]; [1;100;1;1]; [1;100;1;1]; [1;100;1;1]]
    /\ powerline_col_index values = 1%Z
    /\ column values (powerline_col_index values) = Ok pv
    /\ (exists burned loss,
           burned_powerline scenario_world 1 1 = Ok burned
           /\ loss_this_sim pv burned = Ok loss
           /\ loss == 400 /\ any burned = true)
    /\ (exists burned loss,
           burned_powerline scenario_world 1 2 = Ok burned
           /\ loss_this_sim pv burned = Ok loss
           /\ loss == 0 /\ any burned = false)
    /\ exists r,
        evaluate_losses scenario_world values 2 = Ok r
        /\ hit_count r = 1%Z
        /\ hit_rate r == 1 # 2
        /\ avg_loss r == 200
        /\ max_loss r == 400.
Proof.
  refine (scenario_two_replicates scenario_world
            "Grids/Grids1/ForestGrid01.csv" "Grids/Grids2/ForestGrid05.csv"
            (mkArray2 4 [[0;1;0;0]; [1;1;1;0]; [0;1;2;0]; [0;1;0;0]])
            (mkArray2 4 [[1;0;0;0]; [1;0;0;0]; [0;0;1;0]; [0;0;0;0]])
            _ _ _ _ _ _ _ _ _ _); try reflexivity.
  - intros [|[|[|[|i]]]] Hi; try lia; reflexivity.
  - intros [|[|[|[|i]]]] Hi; try lia; reflexivity.
Defined.

(** ** Bounds on the report *)

Lemma outcomes_length (w : World) (pv : list Q) (idx nsims : Z) (outs : list (Q * bool)) :
  Forall2 (fun sim o => sim_outcome w pv idx sim = Ok o) (range 1 (nsims + 1)) outs ->
  List.length outs = Z.to_nat nsims.
Proof.
  intros HF. apply Forall2_length in HF. rewrite length_range in HF.
  rewrite <- HF. f_equal. lia.
Qed.

(** C8. With [nsims >= 1], every report the aggregation returns has its
    hit count between 0 and [nsims] and its hit rate between 0 and 1. *)
Theorem hit_rate_in_unit_interval (w : World) (values : array2) (nsims : Z) (r : report) :
  (1 <= nsims)%Z ->
  evaluate_losses w values nsims = Ok r ->
  0 <= hit_rate r /\ hit_rate r <= 1
  /\ (0 <= hit_count r)%Z /\ (hit_count r <= nsims)%Z.
Proof.
  intros Hn H.
  apply evaluate_losses_report in H as (pv & outs & mx & _ & HF & _ & _ & ->).
  cbn [hit_rate hit_count].
  pose proof (count_hits_bounds outs) as [Hlo Hhi].
  rewrite (outcomes_length _ _ _ _ _ HF), Z2Nat.id in Hhi by lia.
  assert (Hpos : 0 < inject_Z nsims) by (rewrite <- (Zlt_Qlt 0); lia).
  repeat split; try assumption.
  - apply Qle_shift_div_l; [exact Hpos|].
    rewrite Qmult_0_l, <- (Zle_Qle 0). exact Hlo.
  - apply Qle_shift_div_r; [exact Hpos|].
    rewrite Qmult_1_l, <- Zle_Qle. exact Hhi.
Qed.

Lemma hit_rate_in_unit_interval_witness :
  0 <= 1 # 2 /\ 1 # 2 <= 1 /\ (0 <= 1)%Z /\ (1 <= 2)%Z.
Proof.
  apply (hit_rate_in_unit_interval scenario_world scenario_values 2
           (mkReport 2 4 1 (1 # 2) (400 # 2) 400)).
  - lia.
  - reflexivity.
Defined.

Lemma select_all (pv : list Q) : select pv (repeat true (List.length pv)) = pv.
Proof. induction pv as [|v pv IH]; cbn; [reflexivity | now rewrite IH]. Qed.

Lemma loss_this_sim_spec (pv : list Q) (burned : list bool) (loss : Q) :
  loss_this_sim pv burned = Ok loss <->
  List.length pv = List.length burned /\ loss = sum (select pv burned).
Proof.
  unfold loss_this_sim, bool_index.
  destruct (Nat.eqb_spec (List.length pv) (List.length burned)) as [E|E]; cbn [bind].
  - split; [intros [= <-]; auto | intros [_ ->]; reflexivity].
  - split; [discriminate | intros [E' _]; congruence].
Qed.

Lemma sum_select_bounds (pv : list Q) (mask : list bool) :
  Forall (fun v => 0 <= v) pv ->
  0 <= sum (select pv mask) /\ sum (select pv mask) <= sum pv.
Proof.
  intros Hpv. rewrite !sum_total. now apply total_select_bounds.
Qed.

Lemma whole_nonneg (pv : list Q) :
  Forall whole pv -> Forall (fun v => 0 <= v) pv.
Proof.
  apply Forall_impl. intros v (k & Hk & E). rewrite E.
  change 0 with (inject_Z 0). now rewrite <- Zle_Qle.
Qed.

(** The bounds every report obeys when the power-line values are
    non-negative. *)
Lemma report_bounds (w : World) (values : array2) (nsims : Z) (pv : list Q) (r : report) :
  evaluate_losses w values nsims = Ok r ->
  column values (powerline_col_index values) = Ok pv ->
  Forall (fun v => 0 <= v) pv ->
  n_sims r = nsims /\ cells_per_sim r = nrows_of values
  /\ (0 <= hit_count r <= nsims)%Z
  /\ 0 <= hit_rate r /\ hit_rate r <= 1
  /\ 0 <= avg_loss r /\ avg_loss r <= max_loss r /\ max_loss r <= sum pv.
Proof.
  intros H Hpv Hnn.
  apply evaluate_losses_report in H as (pv' & outs & mx & Hpv' & HF & Hn & Hmx & ->).
  assert (pv' = pv) as -> by congruence.
  cbn [n_sims cells_per_sim hit_count hit_rate avg_loss max_loss].
  pose proof (count_hits_bounds outs) as [Hlo Hhi].
  rewrite (outcomes_length _ _ _ _ _ HF), Z2Nat.id in Hhi by lia.
  assert (Hpos : 0 < inject_Z nsims) by (rewrite <- (Zlt_Qlt 0); lia).
  destruct (columns_of_outcomes _ _ _ _ _ HF) as (cols & _ & ->).
  assert (Hb : Forall (fun x => 0 <= x /\ x <= sum pv)
                 (map fst (map (outcome_of pv) cols))).
  { rewrite map_map. apply Forall_map, Forall_forall. intros col _.
    cbn [outcome_of fst]. now apply sum_select_bounds. }
  pose proof (max_is_maximum _ _ Hmx) as [Hin Hall].
  assert (Hne : map fst (map (outcome_of pv) cols) <> [])
    by (intros E; rewrite E in Hin; destruct Hin).
  repeat split; try assumption.
  - apply Qle_shift_div_l; [exact Hpos|].
    rewrite Qmult_0_l, <- (Zle_Qle 0). exact Hlo.
  - apply Qle_shift_div_r; [exact Hpos|].
    rewrite Qmult_1_l, <- Zle_Qle. exact Hhi.
  - apply mean_nonneg; [exact Hne|].
    eapply Forall_impl; [|exact Hb]. now intros x [H0 _].
  - now apply mean_le_bound.
  - eapply Forall_forall in Hb; [|exact Hin]. apply Hb.
Qed.

(** ** Rounding *)

Lemma nearest_even_comp (x y : Q) : x == y -> nearest_even x = nearest_even y.
Proof.
  intros E. unfold nearest_even.
  assert (Hf : Qfloor x = Qfloor y) by now apply Qfloor_comp.
  rewrite Hf.
  assert (Hc : (x - inject_Z (Qfloor y) ?= 1 # 2) = (y - inject_Z (Qfloor y) ?= 1 # 2)).
  { apply Qcompare_comp; [|reflexivity]. now apply Qplus_comp. }
  now rewrite Hc.
Qed.

Lemma nearest_even_Z (k : Z) : nearest_even (inject_Z k) = k.
Proof.
  unfold nearest_even. rewrite Qfloor_Z.
  assert (E : (inject_Z k - inject_Z k ?= 1 # 2) = (0 ?= 1 # 2)).
  { apply Qcompare_comp; [ring | reflexivity]. }
  rewrite E. reflexivity.
Qed.

Lemma nearest_even_cases (x : Q) :
  nearest_even x = Qfloor x \/ nearest_even x = (Qfloor x + 1)%Z.
Proof.
  unfold nearest_even.
  destruct (x - inject_Z (Qfloor x) ?= 1 # 2); [|auto|auto].
  destruct (Z.even (Qfloor x)); auto.
Qed.

Lemma nearest_even_monotone (x y : Q) :
  x <= y -> (nearest_even x <= nearest_even y)%Z.
Proof.
  intros H. pose proof (Qfloor_resp_le _ _ H) as Hf.
  destruct (Z.eq_dec (Qfloor x) (Qfloor y)) as [E|NE].
  - unfold nearest_even. rewrite <- E.
    destruct (x - inject_Z (Qfloor x) ?= 1 # 2) eqn:Cx;
      destruct (y - inject_Z (Qfloor x) ?= 1 # 2) eqn:Cy;
      try (destruct (Z.even (Qfloor x))); try lia; exfalso;
      repeat match goal with
             | C : (_ ?= _) = Eq |- _ => apply Qeq_alt in C
             | C : (_ ?= _) = Lt |- _ => apply Qlt_alt in C
             | C : (_ ?= _) = Gt |- _ => apply Qgt_alt in C
             end; lra.
  - destruct (nearest_even_cases x) as [-> | ->], (nearest_even_cases y) as [-> | ->]; lia.
Qed.

Lemma pow2_pos (e : Z) : 0 < 2 ^ e.
Proof. now apply Qpower_0_lt. Qed.

Lemma pow2_nonzero (e : Z) : ~ 2 ^ e == 0.
Proof. intros E. pose proof (pow2_pos e) as H. rewrite E in H. discriminate H. Qed.

Lemma pow2_Z (n : Z) : (0 <= n)%Z -> inject_Z (2 ^ n) == 2 ^ n.
Proof. intros H. now rewrite Zpower_Qpower. Qed.

(** [ilog2 x] is at most the binary logarithm of [x]. *)
Lemma ilog2_le (x : Q) : 0 < x -> 2 ^ ilog2 x <= x.
Proof.
  intros Hx. unfold ilog2.
  set (l := (Z.log2 (Qnum x) - Z.log2 (Z.pos (Qden x)))%Z).
  destruct (Qle_bool (2 ^ l) x) eqn:E; [now apply Qle_bool_iff|].
  destruct x as [n d]. cbn [Qnum Qden] in *.
  assert (Hn : (0 < n)%Z) by (unfold Qlt in Hx; cbn in Hx; lia).
  pose proof (Z.log2_spec n Hn) as [Hn1 _].
  pose proof (Z.log2_spec (Z.pos d) ltac:(lia)) as [_ Hd2].
  pose proof (Z.log2_nonneg n) as Hln.
  pose proof (Z.log2_nonneg (Z.pos d)) as Hld.
  replace (l - 1)%Z with (Z.log2 n - (Z.log2 (Z.pos d) + 1))%Z by (unfold l; lia).
  rewrite Qpower_minus by discriminate.
  rewrite <- !pow2_Z by lia.
  assert (Hp : 0 < inject_Z (2 ^ (Z.log2 (Z.pos d) + 1))).
  { rewrite pow2_Z by lia. apply pow2_pos. }
  apply Qle_shift_div_r; [exact Hp|].
  unfold Qle, Qmult, inject_Z. cbn [Qnum Qden]. 
  rewrite Z.mul_1_r, Pos.mul_1_r.
  replace (Z.succ (Z.log2 (Z.pos d))) with (Z.log2 (Z.pos d) + 1)%Z in Hd2 by lia.
  nia.
Qed.

Lemma round_comp (f : format) (x y : Q) : x == y -> round f x = round f y.
Proof. intros E. unfold round. now rewrite (Qred_complete x y E). Qed.

Lemma round_Qeq (f : format) (x y : Q) : x == y -> round f x == round f y.
Proof. intros E. now rewrite (round_comp f x y E). Qed.

Lemma round_zero (f : format) (x : Q) : x == 0 -> round f x = 0.
Proof. intros E. now rewrite (round_comp f x 0 E). Qed.

Lemma round_on_grid (f : format) (x : Q) :
  ~ x == 0 ->
  exists y, y == x
    /\ round f x == inject_Z (nearest_even (y / 2 ^ last_place f y)) * 2 ^ last_place f y.
Proof.
  intros Hx. exists (Qred x). split; [apply Qred_correct|].
  unfold round. destruct (Qeq_bool (Qred x) 0) eqn:E.
  - apply Qeq_bool_iff in E. rewrite Qred_correct in E. contradiction.
  - apply Qred_correct.
Qed.

(** Rounding on the grid of step [2 ^ e]. *)
Lemma grid_fixed (e m : Z) (y : Q) :
  y == inject_Z m * 2 ^ e ->
  inject_Z (nearest_even (y / 2 ^ e)) * 2 ^ e == y.
Proof.
  intros E.
  assert (Hq : y / 2 ^ e == inject_Z m).
  { rewrite E. field. apply pow2_nonzero. }
  rewrite (nearest_even_comp _ _ Hq), nearest_even_Z. now rewrite E.
Qed.

Lemma grid_le (e m : Z) (y : Q) :
  y <= inject_Z m * 2 ^ e ->
  inject_Z (nearest_even (y / 2 ^ e)) * 2 ^ e <= inject_Z m * 2 ^ e.
Proof.
  intros H. apply Qmult_le_compat_r; [|apply Qlt_le_weak, pow2_pos].
  rewrite <- Zle_Qle. rewrite <- (nearest_even_Z m).
  apply nearest_even_monotone.
  apply Qle_shift_div_r; [apply pow2_pos | exact H].
Qed.

Lemma grid_nonneg (e : Z) (y : Q) :
  0 <= y -> 0 <= inject_Z (nearest_even (y / 2 ^ e)) * 2 ^ e.
Proof.
  intros H. apply Qmult_le_0_compat; [|apply Qlt_le_weak, pow2_pos].
  change 0 with (inject_Z 0). rewrite <- Zle_Qle. rewrite <- (nearest_even_Z 0).
  apply nearest_even_monotone.
  apply Qle_shift_div_l; [apply pow2_pos|]. now rewrite Qmult_0_l.
Qed.

Lemma grid_nonpos (e : Z) (y : Q) :
  y <= 0 -> inject_Z (nearest_even (y / 2 ^ e)) * 2 ^ e <= 0.
Proof.
  intros H.
  assert (H0 : y <= inject_Z 0 * 2 ^ e) by now rewrite Qmult_0_l.
  pose proof (grid_le e 0 y H0) as Hle. now rewrite Qmult_0_l in Hle.
Qed.

(** A whole number up to [2 ^ precision] is on the grid of every
    positive number below it. *)
Lemma whole_on_grid (f : format) (z : Q) (k : Z) :
  has_whole_numbers f ->
  0 < z -> z <= inject_Z k -> (k <= 2 ^ precision f)%Z ->
  exists m, inject_Z k == inject_Z m * 2 ^ last_place f z.
Proof.
  intros [Hp He] Hz Hzk Hk.
  assert (Hk0 : (0 < k)%Z).
  { rewrite Zlt_Qlt. eapply Qlt_le_trans; [exact Hz | exact Hzk]. }
  assert (Habs : Qabs z == z) by (apply Qabs_pos; now apply Qlt_le_weak).
  assert (Hlog : 2 ^ ilog2 (Qabs z) <= z).
  { rewrite <- Habs at 2. apply ilog2_le. now rewrite Habs. }
  assert (Hl : (ilog2 (Qabs z) <= precision f)%Z).
  { apply (Qpower_le_compat_l_inv 2); [|reflexivity].
    eapply Qle_trans; [exact Hlog|]. eapply Qle_trans; [exact Hzk|].
    rewrite <- pow2_Z by lia. now rewrite <- Zle_Qle. }
  unfold last_place.
  set (e := Z.max (ilog2 (Qabs z) - precision f + 1) (emin f)).
  assert (Hcases : (e <= 0)%Z \/ (e = 1 /\ ilog2 (Qabs z) = precision f)%Z)
    by (unfold e; lia).
  destruct Hcases as [He0 | [He1 Hlp]].
  - exists (k * 2 ^ (- e))%Z.
    rewrite inject_Z_mult, pow2_Z by lia.
    rewrite <- Qmult_assoc, <- Qpower_plus by discriminate.
    replace (- e + e)%Z with 0%Z by lia. cbn [Qpower]. ring.
  - exists (2 ^ (precision f - 1))%Z.
    rewrite He1, pow2_Z by lia.
    rewrite <- Qpower_plus by discriminate.
    replace (precision f - 1 + 1)%Z with (precision f) by lia.
    apply Qle_antisym.
    + rewrite <- pow2_Z by lia. now rewrite <- Zle_Qle.
    + rewrite <- Hlp. eapply Qle_trans; [exact Hlog | exact Hzk].
Qed.

(** Rounding leaves a whole number up to [2 ^ precision] as it is. *)
Lemma round_whole (f : format) (x : Q) (k : Z) :
  has_whole_numbers f ->
  (0 <= k <= 2 ^ precision f)%Z -> x == inject_Z k -> round f x == x.
Proof.
  intros Hf [Hk0 Hk] E.
  destruct (Z.eq_dec k 0) as [->|Hne].
  - rewrite (round_zero f x E). now rewrite E.
  - assert (Hx : ~ x == 0).
    { rewrite E. intros E0. apply Hne. now apply (inject_Z_injective k 0). }
    destruct (round_on_grid f x Hx) as (y & Ey & ->).
    assert (Hy : 0 < y).
    { rewrite Ey, E. change 0 with (inject_Z 0). rewrite <- Zlt_Qlt. lia. }
    assert (Hyk : y <= inject_Z k) by (rewrite Ey, E; apply Qle_refl).
    destruct (whole_on_grid f y k Hf Hy Hyk Hk) as [m Hm].
    rewrite <- Ey. apply grid_fixed with m. rewrite <- Hm, Ey. exact E.
Qed.

(** Rounding does not pass a whole number up to [2 ^ precision]. *)
Lemma round_le_whole (f : format) (x : Q) (k : Z) :
  has_whole_numbers f ->
  (0 <= k <= 2 ^ precision f)%Z -> x <= inject_Z k -> round f x <= inject_Z k.
Proof.
  intros Hf [Hk0 Hk] H.
  assert (Hk' : 0 <= inject_Z k)
    by (change 0 with (inject_Z 0); now rewrite <- Zle_Qle).
  destruct (Qeq_dec x 0) as [E|Hx].
  - now rewrite (round_zero f x E).
  - destruct (round_on_grid f x Hx) as (y & Ey & ->).
    destruct (Qlt_le_dec 0 y) as [Hy|Hy].
    + assert (Hyk : y <= inject_Z k) by now rewrite Ey.
      destruct (whole_on_grid f y k Hf Hy Hyk Hk) as [m Hm].
      rewrite Hm. apply grid_le. now rewrite <- Hm.
    + eapply Qle_trans; [now apply grid_nonpos | exact Hk'].
Qed.

Lemma round_nonneg (f : format) (x : Q) : 0 <= x -> 0 <= round f x.
Proof.
  intros H. destruct (Qeq_dec x 0) as [E|Hx].
  - rewrite (round_zero f x E). apply Qle_refl.
  - destruct (round_on_grid f x Hx) as (y & Ey & ->).
    apply grid_nonneg. now rewrite Ey.
Qed.

(** ** numpy's order of summation *)

Lemma Forall2_firstn {A B : Type} (R : A -> B -> Prop) (n : nat) (l : list A) (l' : list B) :
  Forall2 R l l' -> Forall2 R (firstn n l) (firstn n l').
Proof.
  intros H. revert n. induction H as [|x y l l' Hxy _ IH]; intros [|n]; cbn [firstn];
    constructor; auto.
Qed.

Lemma Forall2_skipn {A B : Type} (R : A -> B -> Prop) (n : nat) (l : list A) (l' : list B) :
  Forall2 R l l' -> Forall2 R (skipn n l) (skipn n l').
Proof.
  intros H. revert n. induction H as [|x y l l' Hxy H IH]; intros [|n]; cbn [skipn];
    try constructor; auto.
Qed.

Section SumRelated.

Context {A B : Type} (R : A -> B -> Prop).
Context (zero : A) (add : A -> A -> A) (zero' : B) (add' : B -> B -> B).
Hypothesis R_zero : R zero zero'.
Hypothesis R_add : forall x y x' y', R x x' -> R y y' -> R (add x y) (add' x' y').

Lemma add_each_related (l : list A) (l' : list B) :
  Forall2 R l l' ->
  forall res res', R res res' -> R (Fp.add_each add res l) (Fp.add_each add' res' l').
Proof.
  unfold Fp.add_each.
  induction 1 as [|x y l l' Hxy _ IH]; intros res res' Hres; cbn [fold_left]; auto.
Qed.

Lemma add_lanes_related (r : list A) (r' : list B) :
  Forall2 R r r' ->
  forall block block', Forall2 R block block' ->
    Forall2 R (Fp.add_lanes add r block) (Fp.add_lanes add' r' block').
Proof.
  induction 1 as [|x y r r' Hxy Hr IH]; intros block block' Hb; cbn [Fp.add_lanes].
  - constructor.
  - destruct Hb as [|b b' block block' Hbb Hb]; constructor; auto.
Qed.

Lemma unrolled_related (blocks : nat) :
  forall r r' l l',
    Forall2 R r r' -> Forall2 R l l' ->
    Forall2 R (fst (Fp.unrolled add blocks r l)) (fst (Fp.unrolled add' blocks r' l'))
    /\ Forall2 R (snd (Fp.unrolled add blocks r l)) (snd (Fp.unrolled add' blocks r' l')).
Proof.
  induction blocks as [|blocks IH]; intros r r' l l' Hr Hl; cbn [Fp.unrolled].
  - now split.
  - apply IH.
    + apply add_lanes_related; [exact Hr | now apply Forall2_firstn].
    + now apply Forall2_skipn.
Qed.

Lemma reduce_lanes_related (r : list A) (r' : list B) :
  Forall2 R r r' -> R (Fp.reduce_lanes zero add r) (Fp.reduce_lanes zero' add' r').
Proof.
  intros H.
  repeat (destruct H as [|? ? ? ? ? H]; [exact R_zero|]).
  destruct H; [|exact R_zero].
  cbn [Fp.reduce_lanes]. auto 10.
Qed.

Lemma block_sum_related (l : list A) (l' : list B) :
  Forall2 R l l' -> R (Fp.block_sum zero add l) (Fp.block_sum zero' add' l').
Proof.
  intros H. unfold Fp.block_sum. rewrite <- (Forall2_length H).
  destruct (List.length l <? 8)%nat.
  - now apply add_each_related.
  - pose proof (unrolled_related (List.length l / 8 - 1) (firstn 8 l) (firstn 8 l')
                  (skipn 8 l) (skipn 8 l')
                  (Forall2_firstn R 8 l l' H) (Forall2_skipn R 8 l l' H)) as [Hr Hrest].
    destruct (Fp.unrolled add (List.length l / 8 - 1) (firstn 8 l) (skipn 8 l)) as [r rest].
    destruct (Fp.unrolled add' (List.length l / 8 - 1) (firstn 8 l') (skipn 8 l')) as [r' rest'].
    cbn [fst snd] in Hr, Hrest.
    apply add_each_related; [exact Hrest | now apply reduce_lanes_related].
Qed.

Lemma pairwise_sum_related (depth : nat) :
  forall l l', Forall2 R l l' ->
    R (Fp.pairwise_sum zero add depth l) (Fp.pairwise_sum zero' add' depth l').
Proof.
  induction depth as [|depth IH]; intros l l' H; cbn [Fp.pairwise_sum].
  - now apply block_sum_related.
  - rewrite <- (Forall2_length H).
    destruct (List.length l <=? 128)%nat; [now apply block_sum_related|].
    apply R_add; apply IH; [now apply Forall2_firstn | now apply Forall2_skipn].
Qed.

(** Two runs of [np.sum] on related items with related additions have
    related results. *)
Lemma sum_related (l : list A) (l' : list B) :
  Forall2 R l l' -> R (Fp.sum zero add l) (Fp.sum zero' add' l').
Proof.
  intros H. unfold Fp.sum. rewrite <- (Forall2_length H).
  apply R_add; [exact R_zero | now apply pairwise_sum_related].
Qed.

End SumRelated.

Lemma total_app (l l' : list Q) : total (l ++ l') == total l + total l'.
Proof.
  induction l as [|x l IH]; cbn [app total fold_right].
  - now rewrite Qplus_0_l.
  - fold (total (l ++ l')) (total l). rewrite IH. ring.
Qed.

Lemma total_firstn_skipn (n : nat) (l : list Q) :
  total (firstn n l) + total (skipn n l) == total l.
Proof. rewrite <- total_app. now rewrite firstn_skipn. Qed.

Lemma total_add_lanes (r block : list Q) :
  List.length block = List.length r ->
  total (Fp.add_lanes Qplus r block) == total r + total block.
Proof.
  revert block. induction r as [|x r IH]; intros [|b block] Hlen; try discriminate.
  - cbn. ring.
  - cbn [Fp.add_lanes total fold_right].
    fold (total (Fp.add_lanes Qplus r block)) (total r) (total block).
    rewrite IH by (now injection Hlen). ring.
Qed.

Lemma length_add_lanes {A : Type} (add : A -> A -> A) (r block : list A) :
  List.length (Fp.add_lanes add r block) = List.length r.
Proof.
  revert block. induction r as [|x r IH]; intros [|b block]; cbn [Fp.add_lanes List.length];
    try reflexivity. now rewrite IH.
Qed.

Lemma total_unrolled (blocks : nat) :
  forall r l,
    List.length r = 8%nat -> (8 * blocks <= List.length l)%nat ->
    total (fst (Fp.unrolled Qplus blocks r l)) + total (snd (Fp.unrolled Qplus blocks r l))
    == total r + total l
    /\ List.length (fst (Fp.unrolled Qplus blocks r l)) = 8%nat.
Proof.
  induction blocks as [|blocks IH]; intros r l Hr Hl; cbn [Fp.unrolled fst snd].
  - split; [reflexivity | exact Hr].
  - assert (Hb : List.length (firstn 8 l) = 8%nat) by (rewrite length_firstn; lia).
    destruct (IH (Fp.add_lanes Qplus r (firstn 8 l)) (skipn 8 l)) as [Ht Hlen].
    + now rewrite length_add_lanes.
    + rewrite length_skipn. lia.
    + split; [|exact Hlen].
      rewrite Ht, total_add_lanes by congruence.
      rewrite <- (total_firstn_skipn 8 l). ring.
Qed.

Lemma total_reduce_lanes (r : list Q) :
  List.length r = 8%nat -> Fp.reduce_lanes 0 Qplus r == total r.
Proof.
  intros H.
  destruct r as [|r0 [|r1 [|r2 [|r3 [|r4 [|r5 [|r6 [|r7 [|r8 r]]]]]]]]]; try discriminate.
  cbn. ring.
Qed.

Lemma add_each_total (l : list Q) (res : Q) :
  Fp.add_each Qplus res l == res + total l.
Proof. apply fold_left_plus_total. Qed.

Lemma block_sum_total (l : list Q) : Fp.block_sum 0 Qplus l == total l.
Proof.
  unfold Fp.block_sum.
  destruct (Nat.ltb_spec (List.length l) 8) as [Hlt|Hge].
  - rewrite add_each_total. apply Qplus_0_l.
  - destruct (total_unrolled (List.length l / 8 - 1) (firstn 8 l) (skipn 8 l))
      as [Ht Hlen].
    + rewrite length_firstn. lia.
    + rewrite length_skipn.
      pose proof (Nat.Div0.mul_div_le (List.length l) 8). lia.
    + destruct (Fp.unrolled Qplus (List.length l / 8 - 1) (firstn 8 l) (skipn 8 l))
        as [r rest].
      cbn [fst snd] in Ht, Hlen.
      rewrite add_each_total, total_reduce_lanes by exact Hlen.
      rewrite Ht. apply total_firstn_skipn.
Qed.

Lemma pairwise_sum_total (depth : nat) :
  forall l, Fp.pairwise_sum 0 Qplus depth l == total l.
Proof.
  induction depth as [|depth IH]; intros l; cbn [Fp.pairwise_sum].
  - apply block_sum_total.
  - destruct (List.length l <=? 128)%nat; [apply block_sum_total|].
    rewrite !IH. apply total_firstn_skipn.
Qed.

(** In exact arithmetic numpy's order of summation does not matter:
    [np.sum] is the sum. *)
Lemma sum_exact (l : list Q) : Fp.sum 0 Qplus l == total l.
Proof. unfold Fp.sum. rewrite pairwise_sum_total. apply Qplus_0_l. Qed.

(** ** The rounded and the exact computation *)

Lemma whole_comp (x y : Q) : x == y -> whole x -> whole y.
Proof. intros E (k & Hk & Ex). exists k. split; [exact Hk|]. now rewrite <- E. Qed.

Lemma whole_plus (x y : Q) : whole x -> whole y -> whole (x + y).
Proof.
  intros (k & Hk & Ex) (j & Hj & Ey). exists (k + j)%Z. split; [lia|].
  now rewrite Ex, Ey, inject_Z_plus.
Qed.

Lemma whole_zero : whole 0.
Proof. exists 0%Z. split; [lia | reflexivity]. Qed.

Lemma whole_nonneg_one (x : Q) : whole x -> 0 <= x.
Proof.
  intros (k & Hk & E). rewrite E. change 0 with (inject_Z 0). now rewrite <- Zle_Qle.
Qed.

Lemma whole_total (l : list Q) : Forall whole l -> whole (total l).
Proof.
  induction 1 as [|x l Hx _ IH]; cbn [total fold_right]; [apply whole_zero|].
  now apply whole_plus.
Qed.

(** A whole number up to [2 ^ precision] is a float. *)
Lemma round_whole_le (f : format) (x : Q) :
  has_whole_numbers f ->
  whole x -> x <= inject_Z (2 ^ precision f) -> round f x == x.
Proof.
  intros Hf (k & Hk & E) Hle. apply round_whole with k; [exact Hf | | exact E].
  split; [exact Hk|]. rewrite E in Hle. now rewrite Zle_Qle.
Qed.

(** [np.sum] of whole numbers whose sum is at most [2 ^ precision] is
    their sum: no addition rounds. *)
Lemma rounded_sum_exact (f : format) (l : list Q) :
  has_whole_numbers f ->
  Forall whole l -> total l <= inject_Z (2 ^ precision f) ->
  Fp.sum 0 (fun x y => round f (x + y)) l == total l.
Proof.
  intros Hf Hl Hle.
  set (bound := inject_Z (2 ^ precision f)) in *.
  set (R := fun x a : Q => 0 <= a /\ (a <= bound -> x == a /\ whole a)).
  assert (H : R (Fp.sum 0 (fun x y => round f (x + y)) l) (Fp.sum 0 Qplus l)).
  { apply sum_related.
    - split; [apply Qle_refl|]. intros _. split; [reflexivity | apply whole_zero].
    - intros x y a b [Ha Hx] [Hb Hy]. split; [now apply Qplus_nonneg|].
      intros Hab.
      destruct Hx as [Ex Wa]; [lra|]. destruct Hy as [Ey Wb]; [lra|].
      assert (E : x + y == a + b) by now rewrite Ex, Ey.
      rewrite (round_comp f _ _ E).
      split; [|now apply whole_plus].
      apply round_whole_le; [exact Hf | now apply whole_plus | exact Hab].
    - clear Hle. induction Hl as [|x l Hx _ IH]; constructor; [|exact IH].
      split; [now apply whole_nonneg_one|]. intros _. split; [reflexivity | exact Hx]. }
  destruct H as [_ H].
  destruct H as [E _]; [now rewrite sum_exact|].
  rewrite E. apply sum_exact.
Qed.

Lemma rounded_sum_nonneg (f : format) (l : list Q) :
  Forall (fun x => 0 <= x) l -> 0 <= Fp.sum 0 (fun x y => round f (x + y)) l.
Proof.
  intros Hl.
  apply (sum_related (fun (x : Q) (_ : unit) => 0 <= x) 0 _ tt (fun _ _ => tt) (Qle_refl 0))
    with (l' := map (fun _ => tt) l).
  - intros x y _ _ Hx Hy. apply round_nonneg. now apply Qplus_nonneg.
  - induction Hl; cbn [map]; now constructor.
Qed.

(** The world and the arrays seen through [fp_world] and [fp_array]. *)
Lemma fp_world_final_grid_column (f : format) (w : World) (idx sim : Z) :
  Fp.final_grid_column (rounded f) (fp_world w) idx sim = final_grid_column w idx sim.
Proof.
  unfold Fp.final_grid_column, final_grid_column.
  change (Fp.get_last_forest_grid_for_sim (fp_world w) sim)
    with (get_last_forest_grid_for_sim w sim).
  destruct (get_last_forest_grid_for_sim w sim) as [file|e]; [|reflexivity].
  cbn [bind fp_world Fp.loadtxt].
  destruct (loadtxt w file) as [[x|v|a]|e]; reflexivity.
Qed.

Lemma fp_select (pv : list Q) (mask : list bool) : Fp.select pv mask = select pv mask.
Proof.
  revert mask. induction pv as [|v pv IH]; intros [|b mask]; try reflexivity.
  cbn [Fp.select select]. now rewrite IH.
Qed.

Lemma whole_select (pv : list Q) (mask : list bool) :
  Forall whole pv -> Forall whole (select pv mask).
Proof.
  intros H. revert mask. induction H as [|v pv Hv _ IH]; intros [|[|] mask];
    cbn [select]; try constructor; auto.
Qed.

Lemma loop_body_rounded (f : format) (w : World) (pv : list Q) (idx sim : Z)
  (st : loop_state) (st' : Fp.loop_state (rounded f)) :
  has_whole_numbers f -> (24 <= precision f)%Z ->
  summed_exactly pv ->
  fst st = fst st' -> same_losses (sum pv) (snd st) (snd st') ->
  match loop_body w pv idx st sim,
        Fp.loop_body (rounded f) (fp_world w) pv idx st' sim with
  | Ok s, Ok s' => fst s = fst s' /\ same_losses (sum pv) (snd s) (snd s')
  | Raise e, Raise e' => e = e'
  | _, _ => False
  end.
Proof.
  intros Hf Hp [Hw Hsum] Hh Hl.
  unfold loop_body, Fp.loop_body, burned_powerline, Fp.burned_powerline.
  rewrite fp_world_final_grid_column.
  destruct (final_grid_column w idx sim) as [col|e]; [|reflexivity].
  cbn [bind]. change (map (Fp.is_one (rounded f)) col) with (eq_one col).
  unfold loss_this_sim, Fp.loss_this_sim, bool_index, Fp.bool_index.
  cbn [rounded Fp.value Fp.number Fp.to_number Fp.value_zero Fp.value_add].
  destruct (Nat.eqb (List.length pv) (List.length (eq_one col)));
    [|reflexivity].
  cbn [bind fst snd]. rewrite fp_select.
  change (Fp.any (eq_one col)) with (any (eq_one col)).
  split; [now rewrite Hh|].
  apply Forall2_app; [exact Hl|]. constructor; [|constructor].
  pose proof (whole_select pv (eq_one col) Hw) as Hsel.
  pose proof (total_select_bounds pv (eq_one col) (whole_nonneg pv Hw)) as [_ Hle].
  rewrite <- !sum_total in Hle.
  split; [|split].
  - rewrite sum_total. apply rounded_sum_exact; [exact Hf | exact Hsel |].
    rewrite <- sum_total. eapply Qle_trans; [exact Hle|].
    eapply Qle_trans; [exact Hsum|].
    rewrite <- Zle_Qle. apply Z.pow_le_mono_r; lia.
  - apply (whole_comp (total (select pv (eq_one col)))); [now rewrite sum_total|].
    now apply whole_total.
  - exact Hle.
Qed.

Lemma for_each_rounded (f : format) (w : World) (pv : list Q) (idx : Z) (sims : list Z) :
  has_whole_numbers f -> (24 <= precision f)%Z ->
  summed_exactly pv ->
  forall (st : loop_state) (st' : Fp.loop_state (rounded f)),
    fst st = fst st' -> same_losses (sum pv) (snd st) (snd st') ->
    match for_each (loop_body w pv idx) sims st,
          Fp.for_each (rounded f) (Fp.loop_body (rounded f) (fp_world w) pv idx) sims st' with
    | Ok s, Ok s' => fst s = fst s' /\ same_losses (sum pv) (snd s) (snd s')
    | Raise e, Raise e' => e = e'
    | _, _ => False
    end.
Proof.
  intros Hf Hp Hpv. induction sims as [|sim sims IH]; intros st st' Hh Hl.
  - cbn. now split.
  - cbn [for_each Fp.for_each].
    pose proof (loop_body_rounded f w pv idx sim st st' Hf Hp Hpv Hh Hl) as Hb.
    destruct (loop_body w pv idx st sim) as [s|e],
             (Fp.loop_body (rounded f) (fp_world w) pv idx st' sim) as [s'|e'];
      cbn [bind]; try contradiction; [|exact Hb].
    destruct Hb as [Hh' Hl']. now apply IH.
Qed.

Lemma rounded_maximum (f : format) (x y : Q) :
  (Fp.maximum (rounded f) x y = x \/ Fp.maximum (rounded f) x y = y)
  /\ x <= Fp.maximum (rounded f) x y /\ y <= Fp.maximum (rounded f) x y.
Proof.
  unfold Fp.maximum. cbn [rounded Fp.is_nan Fp.less].
  destruct (Qle_bool y x) eqn:E; cbn [negb].
  - apply Qle_bool_iff in E. split; [now left|]. split; [apply Qle_refl | exact E].
  - assert (Hlt : x < y).
    { apply Qnot_le_lt. intros H. apply Qle_bool_iff in H. congruence. }
    split; [now right|]. split; [now apply Qlt_le_weak | apply Qle_refl].
Qed.

Lemma rounded_max_is_maximum (f : format) (l : list Q) (m : Q) :
  Fp.max (rounded f) l = Ok m -> is_maximum m l.
Proof.
  destruct l as [|x l]; [discriminate|]. intros [= <-].
  enough (H : forall x, In (fold_left (Fp.maximum (rounded f)) l x) (x :: l)
                        /\ x <= fold_left (Fp.maximum (rounded f)) l x
                        /\ Forall (fun y => y <= fold_left (Fp.maximum (rounded f)) l x) l).
  { destruct (H x) as (Hin & Hx & Hl). split; [exact Hin | now constructor]. }
  clear x. induction l as [|y l IH]; intros x; cbn [fold_left].
  - split; [now left|]. split; [apply Qle_refl | constructor].
  - destruct (IH (Fp.maximum (rounded f) x y)) as (Hin & Hm & Hl).
    destruct (rounded_maximum f x y) as (Hc & Hx & Hy).
    split; [|split].
    + destruct Hin as [E|Hin]; [|right; now right].
      destruct Hc as [Hc|Hc]; [left | right; left]; congruence.
    + eapply Qle_trans; [exact Hx | exact Hm].
    + constructor; [eapply Qle_trans; [exact Hy | exact Hm] | exact Hl].
Qed.

Lemma same_losses_total (bound : Q) (l l' : list Q) :
  same_losses bound l l' -> total l' == total l.
Proof.
  induction 1 as [|a x l l' [E _] _ IH]; cbn [total fold_right]; [reflexivity|].
  fold (total l) (total l'). now rewrite E, IH.
Qed.

Lemma same_losses_whole (bound : Q) (l l' : list Q) :
  same_losses bound l l' -> Forall whole l'.
Proof.
  induction 1 as [|a x l l' (E & W & _) _ IH]; constructor; [|exact IH].
  apply (whole_comp a); [now symmetry | exact W].
Qed.

Lemma same_losses_bounded (bound : Q) (l l' : list Q) :
  same_losses bound l l' -> Forall (fun a => a <= bound) l.
Proof. induction 1 as [|a x l l' (_ & _ & H) _ IH]; constructor; auto. Qed.

Lemma same_losses_maximum (bound : Q) (l l' : list Q) (m m' : Q) :
  same_losses bound l l' -> is_maximum m l -> is_maximum m' l' -> m' == m.
Proof.
  intros H [Hin Hall] [Hin' Hall']. apply Qle_antisym.
  - assert (Hflip : Forall2 (fun x a => x == a) l' l).
    { clear - H. induction H as [|a x l l' [E _] _ IH]; constructor; auto. }
    destruct (Forall2_in_left _ _ _ _ Hflip Hin') as (a & Ha & E).
    rewrite E. eapply Forall_forall in Hall; [exact Hall | exact Ha].
  - destruct (Forall2_in_left _ _ _ _ H Hin) as (x & Hx & E & _).
    rewrite <- E. eapply Forall_forall in Hall'; [exact Hall' | exact Hx].
Qed.

Lemma binary_formats (f : format) :
  f = binary32 \/ f = binary64 -> has_whole_numbers f /\ (24 <= precision f)%Z.
Proof. intros [-> | ->]; repeat split; cbn; lia. Qed.

(** Where no sum is rounded, the rounded computation returns the report
    of the exact one with its two quotients rounded, or raises the same
    exception. *)
Lemma rounded_report (f : format) (w : World) (values : array2)
  (nsims : Z) (pv : list Q) :
  f = binary32 \/ f = binary64 ->
  column values (powerline_col_index values) = Ok pv ->
  summed_exactly pv ->
  (nsims <= 2 ^ 29)%Z ->
  match evaluate_losses w values nsims,
        Fp.evaluate_losses (rounded f) (fp_world w) (fp_array values) nsims with
  | Ok r, Ok r' => exact_up_to_the_quotients r r'
  | Raise e, Raise e' => e = e'
  | _, _ => False
  end.
Proof.
  intros Hfmt Hpv Hexact Hn.
  destruct (binary_formats f Hfmt) as [Hf Hp].
  destruct (binary_formats binary64 (or_intror eq_refl)) as [Hf64 _].
  unfold evaluate_losses, Fp.evaluate_losses.
  change (Fp.column (Fp.value_zero (rounded f)) (fp_array values)
            (Z.of_nat (Fp.ncols_of (fp_array values)) / 2 - 1))
    with (column values (powerline_col_index values)).
  change (Z.of_nat (Fp.ncols_of (fp_array values)) / 2 - 1)%Z
    with (powerline_col_index values).
  fold (powerline_col_index values). rewrite Hpv. cbn [bind].
  pose proof (for_each_rounded f w pv (powerline_col_index values) (range 1 (nsims + 1))
                Hf Hp Hexact (0%Z, []) (0%Z, []) eq_refl (Forall2_nil _)) as Hloop.
  destruct (for_each (loop_body w pv (powerline_col_index values))
              (range 1 (nsims + 1)) (0%Z, [])) as [[hits losses]|e] eqn:Hq;
    destruct (Fp.for_each (rounded f)
                (Fp.loop_body (rounded f) (fp_world w) pv (powerline_col_index values))
                (range 1 (nsims + 1)) (0%Z, [])) as [[hits' losses']|e'];
    try contradiction; cbn [bind]; [|exact Hloop].
  cbn [fst snd] in Hloop. destruct Hloop as [<- Hsame].
  destruct (Z.eqb_spec nsims 0) as [_|Hn0]; [reflexivity|]. cbn [bind].
  apply for_each_outcomes in Hq as (outs & HF & Hh & Hl).
  cbn [fst snd app] in Hh, Hl. rewrite Z.add_0_l in Hh.
  pose proof (count_hits_bounds outs) as Hhits. rewrite <- Hh in Hhits.
  assert (Hlen : List.length losses = Z.to_nat nsims).
  { rewrite Hl, length_map. apply Forall2_length in HF.
    rewrite length_range in HF. rewrite <- HF. f_equal. lia. }
  assert (Hlen' : List.length losses' = List.length losses)
    by (symmetry; apply (Forall2_length Hsame)).
  assert (Hlo : (List.length outs = List.length losses)) by (now rewrite Hl, length_map).
  destruct losses as [|a losses]; destruct losses' as [|x losses']; try discriminate Hlen'.
  { reflexivity. }
  cbn [max Fp.max bind].
  assert (Hn1 : (1 <= nsims)%Z) by (cbn [List.length] in Hlen; lia).
  assert (Hmax : is_maximum (fold_left Qmax losses a) (a :: losses))
    by (apply max_is_maximum; reflexivity).
  assert (Hmax' : is_maximum (fold_left (Fp.maximum (rounded f)) losses' x) (x :: losses'))
    by (apply (rounded_max_is_maximum f); reflexivity).
  unfold exact_up_to_the_quotients.
  cbv beta iota delta
    [Fp.n_sims Fp.cells_per_sim Fp.hit_count Fp.hit_rate Fp.avg_loss Fp.max_loss
     n_sims cells_per_sim hit_count hit_rate avg_loss max_loss fst snd].
  assert (Hpow : (2 ^ 29 <= 2 ^ 53)%Z) by (apply Z.pow_le_mono_r; lia).
  split; [reflexivity|]. split; [reflexivity|]. split; [reflexivity|].
  split; [|split; [|split]].
  - cbn [rounded Fp.div Fp.of_int].
    assert (E : round binary64 (inject_Z hits) / round binary64 (inject_Z nsims)
                == inject_Z hits / inject_Z nsims).
    { rewrite (round_whole binary64 (inject_Z hits) hits Hf64), 
        (round_whole binary64 (inject_Z nsims) nsims Hf64);
        try reflexivity; cbn [precision binary64]; lia. }
    apply round_Qeq. exact E.
  - unfold Fp.mean, mean. cbn [rounded Fp.div Fp.of_int Fp.zero Fp.add].
    rewrite Hlen'.
    set (n := Z.of_nat (List.length (a :: losses))).
    assert (Hnn : n = nsims) by (unfold n; rewrite Hlen; lia).
    assert (Hpv0 : 0 <= sum pv).
    { rewrite sum_total. apply total_nonneg, whole_nonneg. apply Hexact. }
    assert (Htot : total (x :: losses') <= inject_Z (2 ^ precision binary64)).
    { rewrite (same_losses_total _ _ _ Hsame).
      eapply Qle_trans; [apply total_le_scaled, (same_losses_bounded _ _ _ Hsame)|].
      fold n. rewrite Hnn.
      eapply Qle_trans.
      - apply Qmult_le_compat_r; [apply Hexact|].
        change 0 with (inject_Z 0). rewrite <- Zle_Qle. lia.
      - rewrite <- inject_Z_mult, <- Zle_Qle. cbn [precision binary64].
        change (2 ^ 53)%Z with (2 ^ 24 * 2 ^ 29)%Z.
        apply Z.mul_le_mono_nonneg_l; lia. }
    assert (E : Fp.sum 0 (fun x0 y => round binary64 (x0 + y)) (x :: losses')
                / round binary64 (inject_Z n)
                == sum (a :: losses) / inject_Z n).
    { rewrite (rounded_sum_exact binary64 _ Hf64 (same_losses_whole _ _ _ Hsame) Htot).
      rewrite (same_losses_total _ _ _ Hsame), <- sum_total.
      rewrite (round_whole binary64 (inject_Z n) n Hf64); try reflexivity.
      cbn [precision binary64]. lia. }
    apply round_Qeq. exact E.
  - exact (same_losses_maximum _ _ _ _ _ Hsame Hmax Hmax').
  - destruct Hmax as [Hin _].
    destruct (Forall2_in_left _ _ _ _ Hsame Hin) as (y & _ & _ & Hw & _). exact Hw.
Qed.

Lemma Forall_select {A : Type} (P : A -> Prop) (pv : list A) (mask : list bool) :
  Forall P pv -> Forall P (Fp.select pv mask).
Proof.
  intros H. revert mask. induction H as [|v pv Hv _ IH]; intros [|[|] mask];
    cbn [Fp.select]; try constructor; auto.
Qed.

Lemma fp_loss_this_sim_spec (ar : Fp.arithmetic) (pv : list (Fp.value ar))
  (burned : list bool) (loss : Fp.number ar) :
  Fp.loss_this_sim ar pv burned = Ok loss <->
  List.length pv = List.length burned
  /\ loss = Fp.to_number ar
              (Fp.sum (Fp.value_zero ar) (Fp.value_add ar) (Fp.select pv burned)).
Proof.
  unfold Fp.loss_this_sim, Fp.bool_index.
  destruct (Nat.eqb_spec (List.length pv) (List.length burned)) as [E|E]; cbn [bind].
  - split; [intros [= <-]; auto | intros [_ ->]; reflexivity].
  - split; [discriminate | intros [E' _]; congruence].
Qed.

(** What holds of every loss the loop computes holds of the losses it
    returns. *)
Lemma fp_for_each_losses (ar : Fp.arithmetic) (w : Fp.World (Fp.number ar))
  (pv : list (Fp.value ar)) (idx : Z) (P : Fp.number ar -> Prop) :
  (forall burned loss, Fp.loss_this_sim ar pv burned = Ok loss -> P loss) ->
  forall sims st st',
    Fp.for_each ar (Fp.loop_body ar w pv idx) sims st = Ok st' ->
    Forall P (snd st) -> Forall P (snd st').
Proof.
  intros HP. induction sims as [|sim sims IH]; intros st st' H Hst; cbn [Fp.for_each] in H.
  - now injection H as <-.
  - unfold Fp.loop_body at 1 in H.
    destruct (Fp.burned_powerline ar w idx sim) as [burned|e]; [|discriminate].
    cbn [bind] in H.
    destruct (Fp.loss_this_sim ar pv burned) as [loss|e] eqn:Hloss; [|discriminate].
    cbn [bind] in H. apply IH in H; [exact H|].
    cbn [snd]. apply Forall_app. split; [exact Hst|].
    constructor; [now apply HP with burned | constructor].
Qed.

(** A report is the reduction of the losses and the hits of the loop. *)
Lemma fp_evaluate_losses_inv (ar : Fp.arithmetic) (w : Fp.World (Fp.number ar))
  (values : Fp.array2 (Fp.value ar)) (nsims : Z) (r : Fp.report (Fp.number ar)) :
  Fp.evaluate_losses ar w values nsims = Ok r ->
  exists pv hits losses,
    Fp.column (Fp.value_zero ar) values (fp_powerline_col_index values) = Ok pv
    /\ Fp.for_each ar (Fp.loop_body ar w pv (fp_powerline_col_index values))
         (range 1 (nsims + 1)) (0%Z, []) = Ok (hits, losses)
    /\ nsims <> 0%Z
    /\ Fp.max ar losses = Ok (Fp.max_loss r)
    /\ Fp.avg_loss r = Fp.mean ar losses
    /\ Fp.hit_rate r = Fp.div ar (Fp.of_int ar hits) (Fp.of_int ar nsims)
    /\ Fp.hit_count r = hits.
Proof.
  unfold Fp.evaluate_losses. fold (fp_powerline_col_index values).
  destruct (Fp.column (Fp.value_zero ar) values (fp_powerline_col_index values))
    as [pv|e] eqn:Hpv; [|discriminate].
  cbn [bind].
  destruct (Fp.for_each ar (Fp.loop_body ar w pv (fp_powerline_col_index values))
              (range 1 (nsims + 1)) (0%Z, [])) as [[hits losses]|e] eqn:Hloop;
    [|discriminate].
  cbn [bind fst snd].
  destruct (Z.eqb_spec nsims 0) as [|Hn]; [discriminate|]. cbn [bind].
  destruct (Fp.max ar losses) as [mx|e] eqn:Hmx; [|discriminate].
  cbn [bind]. intros [= <-]. exists pv, hits, losses.
  repeat split; try assumption; reflexivity.
Qed.

Lemma rounded_loss_nonneg (f : format) (pv : list Q) (burned : list bool) (loss : Q) :
  Forall (fun v => 0 <= v) pv ->
  Fp.loss_this_sim (rounded f) pv burned = Ok loss -> 0 <= loss.
Proof.
  intros Hpv H. apply fp_loss_this_sim_spec in H as [_ ->].
  apply rounded_sum_nonneg. now apply Forall_select.
Qed.

Lemma rounded_loss_exact (f : format) (pv : list Q) (burned : list bool) (loss : Q) :
  f = binary32 \/ f = binary64 ->
  summed_exactly pv ->
  Fp.loss_this_sim (rounded f) pv burned = Ok loss ->
  loss == sum (select pv burned).
Proof.
  intros Hfmt [Hw Hsum] H. destruct (binary_formats f Hfmt) as [Hf Hp].
  apply fp_loss_this_sim_spec in H as [_ ->].
  cbn [rounded Fp.to_number Fp.value_zero Fp.value_add]. rewrite fp_select, sum_total.
  apply rounded_sum_exact; [exact Hf | now apply whole_select |].
  pose proof (total_select_bounds pv burned (whole_nonneg pv Hw)) as [_ Hle].
  eapply Qle_trans; [exact Hle|]. rewrite <- sum_total.
  eapply Qle_trans; [exact Hsum|].
  rewrite <- Zle_Qle. apply Z.pow_le_mono_r; lia.
Qed.

(** C10. In floating point, for a value map of [float32] or [float64]
    cells whose power-line entries are non-negative: the loss of any
    replicate is at least 0, and so are the mean and the maximum loss of
    every report over [nsims >= 1] replicates. Where no sum is rounded -
    the entries are whole numbers with a sum of at most [2 ^ 24], as in
    the reference map, and there are at most [2 ^ 29] replicates - the
    loss of any replicate is at most the sum of the power-line entries,
    which is the loss when the whole line burns, and in every report
    mean loss <= maximum loss <= that sum. *)
Theorem loss_bounds_without_rounding (f : format) (w : World) (values : array2)
  (nsims : Z) (pv : list Q) :
  f = binary32 \/ f = binary64 ->
  column values (powerline_col_index values) = Ok pv ->
  Forall (fun v => 0 <= v) pv ->
  (forall burned loss,
      Fp.loss_this_sim (rounded f) pv burned = Ok loss -> 0 <= loss)
  /\ (forall r,
         (1 <= nsims)%Z ->
         Fp.evaluate_losses (rounded f) (fp_world w) (fp_array values) nsims = Ok r ->
         0 <= Fp.avg_loss r /\ 0 <= Fp.max_loss r)
  /\ (summed_exactly pv ->
      (nsims <= 2 ^ 29)%Z ->
      (forall burned loss,
          Fp.loss_this_sim (rounded f) pv burned = Ok loss -> loss <= sum pv)
      /\ (exists whole_line,
             Fp.loss_this_sim (rounded f) pv (repeat true (List.length pv))
             = Ok whole_line
             /\ whole_line == sum pv)
      /\ (forall r,
             (1 <= nsims)%Z ->
             Fp.evaluate_losses (rounded f) (fp_world w) (fp_array values) nsims = Ok r ->
             Fp.avg_loss r <= Fp.max_loss r /\ Fp.max_loss r <= sum pv)).
Proof.
  intros Hfmt Hpv Hnn. split; [|split].
  - intros burned loss. now apply rounded_loss_nonneg.
  - intros r Hn H.
    apply fp_evaluate_losses_inv in H
      as (pv' & hits & losses & Hpv' & Hloop & _ & Hmx & Havg & _ & _).
    change (Fp.column (Fp.value_zero (rounded f)) (fp_array values)
              (fp_powerline_col_index (fp_array values)))
      with (column values (powerline_col_index values)) in Hpv'.
    assert (pv' = pv) as -> by congruence.
    assert (Hlosses : Forall (fun x : Q => 0 <= x) losses).
    { apply (fp_for_each_losses (rounded f) _ _ _ (fun x : Q => 0 <= x)
               (fun burned loss => rounded_loss_nonneg f pv burned loss Hnn)
               _ _ _ Hloop).
      constructor. }
    split.
    + rewrite Havg. unfold Fp.mean. cbn [rounded Fp.div Fp.of_int Fp.zero Fp.add].
      apply round_nonneg. apply Qmult_le_0_compat.
      * now apply rounded_sum_nonneg.
      * apply Qinv_le_0_compat, round_nonneg.
        change 0 with (inject_Z 0). rewrite <- Zle_Qle. lia.
    + apply rounded_max_is_maximum in Hmx as [Hin _].
      eapply Forall_forall in Hlosses; [exact Hlosses | exact Hin].
  - intros Hexact Hn29. split; [|split].
    + intros burned loss H.
      rewrite (rounded_loss_exact f pv burned loss Hfmt Hexact H).
      apply sum_select_bounds. exact Hnn.
    + eexists. split.
      * apply fp_loss_this_sim_spec. rewrite repeat_length. split; reflexivity.
      * cbn [rounded Fp.to_number Fp.value_zero Fp.value_add].
        rewrite fp_select, select_all, sum_total.
        destruct (binary_formats f Hfmt) as [Hf Hp]. destruct Hexact as [Hw Hsum].
        apply rounded_sum_exact; [exact Hf | exact Hw |].
        rewrite <- sum_total. eapply Qle_trans; [exact Hsum|].
        rewrite <- Zle_Qle. apply Z.pow_le_mono_r; lia.
    + intros r' Hn H.
      pose proof (rounded_report f w values nsims pv Hfmt Hpv Hexact Hn29) as Hr.
      rewrite H in Hr.
      destruct (evaluate_losses w values nsims) as [r|e] eqn:Hq; [|contradiction].
      destruct Hr as (_ & _ & _ & _ & Havg & Hmx & (k & Hk & Ek)).
      destruct (report_bounds w values nsims pv r Hq Hpv Hnn)
        as (_ & _ & _ & _ & _ & _ & Hle & Hbound).
      rewrite Havg, Hmx. split; [|exact Hbound].
      rewrite Ek. destruct (binary_formats binary64 (or_intror eq_refl)) as [Hf64 _].
      apply round_le_whole; [exact Hf64 | | now rewrite <- Ek].
      split; [exact Hk|]. cbn [precision binary64].
      destruct Hexact as [_ Hsum].
      assert (Hk24 : inject_Z k <= inject_Z (2 ^ 24))
        by (rewrite <- Ek; eapply Qle_trans; [exact Hbound | exact Hsum]).
      rewrite <- Zle_Qle in Hk24.
      assert ((2 ^ 24 <= 2 ^ 53)%Z) by (apply Z.pow_le_mono_r; lia). lia.
Qed.

Lemma loss_bounds_without_rounding_witness :
  (forall burned loss,
      Fp.loss_this_sim (rounded binary32) [100; 100; 100; 100] burned = Ok loss ->
      0 <= loss)
  /\ (forall r,
         (1 <= 2)%Z ->
         Fp.evaluate_losses (rounded binary32) (fp_world scenario_world)
           (fp_array scenario_values) 2 = Ok r ->
         0 <= Fp.avg_loss r /\ 0 <= Fp.max_loss r)
  /\ (forall burned loss,
         Fp.loss_this_sim (rounded binary32) [100; 100; 100; 100] burned = Ok loss ->
         loss <= sum [100; 100; 100; 100])
  /\ (exists whole_line,
         Fp.loss_this_sim (rounded binary32) [100; 100; 100; 100] (repeat true 4)
         = Ok whole_line
         /\ whole_line == sum [100; 100; 100; 100])
  /\ (forall r,
         (1 <= 2)%Z ->
         Fp.evaluate_losses (rounded binary32) (fp_world scenario_world)
           (fp_array scenario_values) 2 = Ok r ->
         Fp.avg_loss r <= Fp.max_loss r
         /\ Fp.max_loss r <= sum [100; 100; 100; 100]).
Proof.
  destruct (loss_bounds_without_rounding binary32 scenario_world scenario_values 2
              [100; 100; 100; 100]) as (Hloss & Hreport & Hexact).
  - now left.
  - reflexivity.
  - repeat constructor; discriminate.
  - split; [exact Hloss|]. split; [exact Hreport|]. apply Hexact.
    + assert (Hw : whole 100) by (exists 100%Z; split; [lia | reflexivity]).
      split.
      * repeat (apply Forall_cons; [exact Hw|]). apply Forall_nil.
      * vm_compute. discriminate.
    + lia.
Defined.

(** The bounds as the specification states them do not survive
    rounding: on a [float64] value map with 0.045 on the power line,
    three replicates that each burn one cell have the mean loss
    0.045000000000000005, above their maximum loss 0.045. *)
Lemma mean_above_maximum_counterexample :
  ~ loss_bounds_as_specified small_losses_world small_losses_values 3.
Proof.
  intros H.
  destruct (H _ _ _ eq_refl eq_refl eq_refl) as (_ & Habs & _).
  vm_compute in Habs. now apply Habs.
Qed.

(** ** Hits and positive losses *)

Lemma hit_iff_positive_total (pv : list Q) :
  Forall (fun v => 0 < v) pv ->
  forall mask,
    List.length pv = List.length mask ->
    0 <= total (select pv mask)
    /\ (any mask = true <-> 0 < total (select pv mask)).
Proof.
  induction 1 as [|v pv Hv Hpv IH]; intros [|b mask] Hlen; try discriminate.
  - cbn. split; [apply Qle_refl|]. split; [discriminate | intros H; inversion H].
  - injection Hlen as Hlen. destruct (IH mask Hlen) as [Hnn Hiff].
    unfold any in *. cbn [select existsb].
    destruct b; cbn [total fold_right orb]; fold (total (select pv mask)).
    + assert (Hpos : 0 < v + total (select pv mask)).
      { apply Qlt_le_trans with (v + 0).
        - now rewrite Qplus_0_r.
        - apply Qplus_le_compat; [apply Qle_refl | exact Hnn]. }
      split; [now apply Qlt_le_weak|]. split; auto.
    + split; assumption.
Qed.

Lemma build_powerline_values_inv (nrows ncols : Z) (values : array2) (text : string) :
  build_powerline_values nrows ncols = Ok (values, text) ->
  (0 <= nrows)%Z /\ (1 <= ncols)%Z /\ values = powerline_matrix nrows ncols.
Proof.
  intros H.
  assert (Hr : (0 <= nrows)%Z).
  { destruct (Z.ltb_spec nrows 0) as [Hlt|]; [|assumption].
    unfold build_powerline_values, ones in H.
    apply Z.ltb_lt in Hlt. rewrite Hlt in H. discriminate. }
  assert (Hc : (0 <= ncols)%Z).
  { destruct (Z.ltb_spec ncols 0) as [Hlt|]; [|assumption].
    unfold build_powerline_values, ones in H.
    apply Z.ltb_lt in Hlt. rewrite Hlt, orb_true_r in H. discriminate. }
  destruct (Z.eq_dec ncols 0) as [->|Hne].
  - rewrite build_powerline_values_no_columns in H by exact Hr. discriminate.
  - rewrite build_powerline_values_ok in H by lia.
    injection H as <- _. repeat split; lia.
Qed.

Lemma column_powerline_matrix (nrows ncols : Z) :
  (0 <= nrows)%Z -> (1 <= ncols)%Z ->
  column (powerline_matrix nrows ncols)
    (powerline_col_index (powerline_matrix nrows ncols))
  = Ok (repeat 100 (Z.to_nat nrows)).
Proof.
  intros Hr Hc. unfold column, powerline_col_index.
  cbn [powerline_matrix ncols_of rows_of]. rewrite Z2Nat.id by lia.
  rewrite norm_index_powerline by exact Hc. cbn [bind]. rewrite map_repeat.
  unfold powerline_row.
  rewrite nth_list_set
    by (rewrite repeat_length; apply powerline_column_lt; exact Hc).
  now rewrite Nat.eqb_refl.
Qed.

(** The power-line entries of the reference map are non-negative. *)
Lemma reference_column_nonneg (nrows ncols : Z) (values : array2) (text : string) (pv : list Q) :
  build_powerline_values nrows ncols = Ok (values, text) ->
  column values (powerline_col_index values) = Ok pv ->
  Forall (fun v => 0 <= v) pv.
Proof.
  intros Hb Hpv. apply build_powerline_values_inv in Hb as (Hr & Hc & ->).
  rewrite column_powerline_matrix in Hpv by assumption. injection Hpv as <-.
  all_of_repeat. discriminate.
Qed.

(** C9. With the reference value map (any map the builder returns), a
    replicate is a hit if and only if its loss is strictly positive, and
    it is not a hit if and only if its loss is 0. *)
Theorem hit_iff_positive_loss (nrows ncols : Z) (values : array2) (text : string)
  (w : World) (sim : Z) (pv : list Q) (burned : list bool) (loss : Q) :
  build_powerline_values nrows ncols = Ok (values, text) ->
  column values (powerline_col_index values) = Ok pv ->
  burned_powerline w (powerline_col_index values) sim = Ok burned ->
  loss_this_sim pv burned = Ok loss ->
  Forall (fun v => v = 100) pv
  /\ (any burned = true <-> 0 < loss)
  /\ (any burned = false <-> loss == 0).
Proof.
  intros Hb Hpv _ Hloss.
  apply build_powerline_values_inv in Hb as (Hr & Hc & ->).
  rewrite column_powerline_matrix in Hpv by assumption. injection Hpv as <-.
  apply loss_this_sim_spec in Hloss as [Hlen ->].
  assert (Hpos : Forall (fun v => 0 < v) (repeat 100 (Z.to_nat nrows))).
  { all_of_repeat. reflexivity. }
  destruct (hit_iff_positive_total _ Hpos burned Hlen) as [Hnn Hiff].
  rewrite <- sum_total in Hnn, Hiff.
  split; [|split].
  - all_of_repeat. reflexivity.
  - exact Hiff.
  - split.
    + intros Hfalse. apply Qle_antisym; [|exact Hnn].
      apply Qnot_lt_le. intros Hlt. apply Hiff in Hlt. congruence.
    + intros Hzero. destruct (any burned) eqn:E; [|reflexivity].
      assert (Hlt : 0 < sum (select (repeat 100 (Z.to_nat nrows)) burned))
        by now apply Hiff.
      rewrite Hzero in Hlt. inversion Hlt.
Qed.

Lemma hit_iff_positive_loss_witness :
  Forall (fun v => v = 100) [100; 100; 100; 100]
  /\ (any [true; true; true; true] = true <-> 0 < 400)
  /\ (any [true; true; true; true] = false <-> 400 == 0).
Proof.
  apply (hit_iff_positive_loss 4 4 scenario_values (savetxt scenario_values)
           scenario_world 1 [100; 100; 100; 100] [true; true; true; true] 400);
    reflexivity.
Defined.

(** ** Shape of the loaded grids *)

(** C7 as worded fails: against the 4 x 4 value map the 4 x 3 grid is
    aggregated all the same, since column 1 exists in it and it has 4
    rows. *)
Lemma shape_mismatch_counterexample :
  evaluate_losses narrow_world scenario_values 1
  = Ok (mkReport 1 4 1 (1 # 1) (200 # 1) (200 # 1))
  /\ ~ shape_mismatch_is_fatal narrow_world scenario_values 1.
Proof.
  split; [reflexivity|].
  intros H.
  specialize (H 1%Z "Grids/Grids1/ForestGrid01.csv"%string
                (mkArray2 3 [[0;1;0]; [0;1;0]; [0;0;0]; [0;0;0]])).
  assert (Hfail : is_ok (evaluate_losses narrow_world scenario_values 1) = false).
  { apply H; [lia | reflexivity | reflexivity |]. right. cbn. lia. }
  discriminate Hfail.
Qed.

Lemma length_column (a : array2) (i : Z) (col : list Q) :
  column a i = Ok col -> List.length col = nrows_of a.
Proof.
  unfold column, nrows_of. destruct (norm_index (ncols_of a) i); [|discriminate].
  cbn [bind]. intros [= <-]. apply length_map.
Qed.

Lemma norm_index_error (n : nat) (i : Z) (e : exn) :
  norm_index n i = Raise e -> e = IndexError.
Proof.
  unfold norm_index.
  destruct ((0 <=? i)%Z && (i <? Z.of_nat n)%Z); [discriminate|].
  destruct ((- Z.of_nat n <=? i)%Z && (i <? 0)%Z); [discriminate|].
  congruence.
Qed.

(** C7 (amended). For a replicate in range whose final grid was located
    and loaded: if the grid is not two-dimensional, or its row count
    differs from the value map's, or it has no column at the power-line
    index, the replicate raises [IndexError] and the aggregation returns
    no report; otherwise the replicate is aggregated, whatever the
    column count of its grid. *)
Theorem row_mismatch_is_fatal (w : World) (values : array2) (nsims sim : Z)
  (f : string) (g : ndarray) :
  (1 <= sim <= nsims)%Z ->
  get_last_forest_grid_for_sim w sim = Ok f ->
  loadtxt w f = Ok g ->
  (grid_rejected values g ->
   (forall pv, column values (powerline_col_index values) = Ok pv ->
               sim_outcome w pv (powerline_col_index values) sim = Raise IndexError)
   /\ is_ok (evaluate_losses w values nsims) = false)
  /\ (~ grid_rejected values g ->
      forall pv, column values (powerline_col_index values) = Ok pv ->
                 is_ok (sim_outcome w pv (powerline_col_index values) sim) = true).
Proof.
  intros Hsim Hf Hg.
  assert (Hcol : final_grid_column w (powerline_col_index values) sim
                 = column_nd g (powerline_col_index values)).
  { unfold final_grid_column. rewrite Hf. cbn [bind]. now rewrite Hg. }
  split.
  - intros Hrej.
    assert (Hraise : forall pv,
               column values (powerline_col_index values) = Ok pv ->
               sim_outcome w pv (powerline_col_index values) sim = Raise IndexError).
    { intros pv Hpv. apply length_column in Hpv.
      unfold sim_outcome, burned_powerline. rewrite Hcol.
      destruct g as [x|v|a]; try reflexivity.
      cbn [column_nd]. destruct (column a (powerline_col_index values)) as [col|e] eqn:E.
      - cbn [bind]. pose proof (length_column _ _ _ E) as Hlen.
        destruct Hrej as [Hrows | Hidx].
        + unfold loss_this_sim, bool_index, eq_one. rewrite length_map.
          destruct (Nat.eqb_spec (List.length pv) (List.length col)) as [E'|E'];
            [exfalso; apply Hrows; congruence | reflexivity].
        + exfalso. unfold column in E. rewrite Hidx in E. discriminate E.
      - cbn [bind]. f_equal. unfold column in E.
        destruct (norm_index (ncols_of a) (powerline_col_index values)) eqn:En;
          [discriminate|].
        cbn [bind] in E. injection E as <-. now apply norm_index_error in En. }
    split; [exact Hraise|].
    apply evaluate_losses_needs_outcome with sim; [exact Hsim|].
    intros pv Hpv. now rewrite (Hraise pv Hpv).
  - intros Hacc pv Hpv. apply length_column in Hpv.
    destruct g as [x|v|a]; try (exfalso; apply Hacc; exact I).
    cbn [grid_rejected] in Hacc. cbn [column_nd] in Hcol.
    destruct (Nat.eq_dec (nrows_of a) (nrows_of values)) as [Hrows|Hrows];
      [|exfalso; apply Hacc; now left].
    destruct (norm_index (ncols_of a) (powerline_col_index values)) as [k|e] eqn:En.
    + assert (Hok : sim_outcome w pv (powerline_col_index values) sim
                    = Ok (outcome_of pv (map (fun r => nth k r 0) (rows_of a)))).
      { apply sim_outcome_spec. eexists. split; [|split; [|reflexivity]].
        - rewrite Hcol. unfold column. now rewrite En.
        - rewrite length_map. fold (nrows_of a). congruence. }
      now rewrite Hok.
    + exfalso. apply Hacc. right. f_equal. now apply norm_index_error in En.
Qed.

Lemma row_mismatch_is_fatal_witness :
  (forall pv, column scenario_values (powerline_col_index scenario_values) = Ok pv ->
              sim_outcome short_world pv (powerline_col_index scenario_values) 1
              = Raise IndexError)
  /\ is_ok (evaluate_losses short_world scenario_values 1) = false.
Proof.
  refine (proj1 (row_mismatch_is_fatal short_world scenario_values 1 1
                   "Grids/Grids1/ForestGrid01.csv"
                   (Nd2 (mkArray2 4 [[0;1;0;0]; [0;1;0;0]; [0;0;0;0]]))
                   _ _ _) _).
  - lia.
  - reflexivity.
  - reflexivity.
  - left. cbn. lia.
Defined.

(** * Further properties of the harness *)

(** ** The aggregation: which error, which cells *)

Lemma for_each_ext (body body' : loop_state -> Z -> result loop_state) (sims : list Z) :
  (forall st sim, In sim sims -> body st sim = body' st sim) ->
  forall st, for_each body sims st = for_each body' sims st.
Proof.
  induction sims as [|sim sims IH]; intros H st; [reflexivity|].
  cbn [for_each]. rewrite (H st sim) by now left.
  destruct (body' st sim) as [st'|e]; [|reflexivity].
  cbn [bind]. apply IH. intros st0 sim0 Hin. apply H. now right.
Qed.

Lemma for_each_raise (w : World) (pv : list Q) (idx : Z) (e : exn)
  (before : list Z) (sim : Z) (after : list Z) :
  (forall s, In s before -> is_ok (sim_outcome w pv idx s) = true) ->
  sim_outcome w pv idx sim = Raise e ->
  forall st, for_each (loop_body w pv idx) (before ++ sim :: after) st = Raise e.
Proof.
  intros Hbefore Hsim.
  induction before as [|s before IH]; intros st; cbn [app for_each].
  - now rewrite loop_body_outcome, Hsim.
  - rewrite loop_body_outcome.
    pose proof (Hbefore s (or_introl eq_refl)) as Hs.
    destruct (sim_outcome w pv idx s) as [o|e']; [|discriminate Hs].
    cbn [bind]. apply IH. intros s' Hin. apply Hbefore. now right.
Qed.

Lemma map_seq_offset {A : Type} (f : nat -> A) (a n : nat) :
  map f (seq a n) = map (fun i => f (a + i)%nat) (seq 0 n).
Proof.
  revert f a. induction n as [|n IH]; intros f a; [reflexivity|].
  cbn [seq map]. rewrite Nat.add_0_r. f_equal.
  rewrite (IH f (S a)), (IH (fun i => f (a + i)%nat) 1%nat).
  apply map_ext. intros i. f_equal. lia.
Qed.

Lemma range_split (lo k hi : Z) :
  (lo <= k < hi)%Z -> range lo hi = range lo k ++ k :: range (k + 1) hi.
Proof.
  intros H. unfold range.
  replace (Z.to_nat (hi - lo))
    with (Z.to_nat (k - lo) + S (Z.to_nat (hi - (k + 1))))%nat by lia.
  rewrite seq_app, map_app. f_equal. cbn [seq map]. f_equal; [lia|].
  rewrite map_seq_offset. apply map_ext. intros n. lia.
Qed.

(** X1. The first replicate without outcome decides the error: when the
    value map has the power-line column, replicates [1 .. k-1] have
    outcomes and replicate [k <= nsims] raises [e], the aggregation
    raises [e], whatever the later replicates hold. *)
Theorem first_failure_is_raised (w : World) (values : array2) (nsims k : Z)
  (pv : list Q) (e : exn) :
  column values (powerline_col_index values) = Ok pv ->
  (1 <= k <= nsims)%Z ->
  (forall sim, (1 <= sim < k)%Z ->
     is_ok (sim_outcome w pv (powerline_col_index values) sim) = true) ->
  sim_outcome w pv (powerline_col_index values) k = Raise e ->
  evaluate_losses w values nsims = Raise e.
Proof.
  intros Hpv Hk Hbefore Hfail.
  unfold evaluate_losses. fold (powerline_col_index values).
  rewrite Hpv. cbn [bind].
  rewrite (range_split 1 k (nsims + 1)) by lia.
  rewrite (for_each_raise w pv _ e); [reflexivity | | exact Hfail].
  intros s Hs. apply in_range in Hs. now apply Hbefore.
Qed.

Lemma first_failure_is_raised_witness :
  evaluate_losses scenario_world scenario_values 5 = Raise RuntimeError.
Proof.
  apply (first_failure_is_raised scenario_world scenario_values 5 3
           [100; 100; 100; 100] RuntimeError).
  - reflexivity.
  - lia.
  - intros sim Hsim.
    assert (Hcases : sim = 1%Z \/ sim = 2%Z) by lia.
    destruct Hcases as [-> | ->]; reflexivity.
  - reflexivity.
Defined.

(** X2. The aggregation reads nothing of a replicate but the power-line
    column of its final grid: two worlds that give every replicate in
    [1 .. nsims] the same such column (or the same failure) give the same
    result, report or error. *)
Theorem only_the_powerline_column_is_read (w w' : World) (values : array2) (nsims : Z) :
  (forall sim, (1 <= sim <= nsims)%Z ->
     final_grid_column w (powerline_col_index values) sim
     = final_grid_column w' (powerline_col_index values) sim) ->
  evaluate_losses w values nsims = evaluate_losses w' values nsims.
Proof.
  intros Hsame. unfold evaluate_losses. fold (powerline_col_index values).
  destruct (column values (powerline_col_index values)) as [pv|e]; [|reflexivity].
  cbn [bind].
  rewrite (for_each_ext (loop_body w pv (powerline_col_index values))
             (loop_body w' pv (powerline_col_index values))); [reflexivity|].
  intros st sim Hin. apply in_range in Hin.
  unfold loop_body, burned_powerline. now rewrite Hsame by lia.
Qed.

Lemma only_the_powerline_column_is_read_witness :
  evaluate_losses scenario_world scenario_values 2
  = evaluate_losses scenario_world_variant scenario_values 2.
Proof.
  apply (only_the_powerline_column_is_read scenario_world scenario_world_variant
           scenario_values 2).
  intros sim Hsim.
  assert (Hcases : sim = 1%Z \/ sim = 2%Z) by lia.
  destruct Hcases as [-> | ->]; reflexivity.
Defined.

Lemma column_needs_columns (a : array2) (i : Z) :
  ncols_of a = 0%nat -> column a i = Raise IndexError.
Proof.
  intros H. unfold column, norm_index. rewrite H. cbn [Z.of_nat Z.opp].
  destruct (Z.leb_spec 0 i), (Z.ltb_spec i 0); cbn [andb bind]; try reflexivity; lia.
Qed.

Lemma column_powerline_exists (values : array2) :
  (0 < ncols_of values)%nat ->
  exists pv, column values (powerline_col_index values) = Ok pv.
Proof.
  intros H. unfold column, powerline_col_index.
  pose proof (norm_index_powerline (Z.of_nat (ncols_of values)) ltac:(lia)) as Hn.
  rewrite Nat2Z.id in Hn. rewrite Hn. now eexists.
Qed.

(** X3. Degenerate calls never give a report. A value map without
    columns raises [IndexError] before any replicate is looked at; with
    columns, [nsims = 0] raises [ZeroDivisionError] (the hit rate) and
    [nsims < 0] raises [ValueError] (the maximum of no losses), in both
    cases without looking at any replicate. *)
Theorem degenerate_calls_raise (w : World) (values : array2) (nsims : Z) :
  (ncols_of values = 0%nat -> evaluate_losses w values nsims = Raise IndexError)
  /\ ((0 < ncols_of values)%nat ->
      (nsims = 0%Z -> evaluate_losses w values nsims = Raise ZeroDivisionError)
      /\ ((nsims < 0)%Z -> evaluate_losses w values nsims = Raise ValueError)).
Proof.
  split.
  - intros H0. unfold evaluate_losses. fold (powerline_col_index values).
    now rewrite column_needs_columns.
  - intros Hpos. destruct (column_powerline_exists values Hpos) as [pv Hpv].
    split.
    + intros ->. now rewrite (evaluate_losses_no_replicates w values 0 pv Hpv).
    + intros Hneg.
      rewrite (evaluate_losses_no_replicates w values nsims pv Hpv) by lia.
      destruct (Z.eqb_spec nsims 0); [lia | reflexivity].
Qed.

(** ** The aggregation: extreme and ordered burn states *)

Lemma select_none (pv : list Q) (col : list Q) :
  replicate_hitb col = false -> select pv (eq_one col) = [].
Proof.
  revert col. induction pv as [|v pv IH]; intros [|b col] H; try reflexivity.
  unfold replicate_hitb in H. cbn [existsb] in H.
  apply orb_false_iff in H as [Hb Hcol].
  cbn [eq_one map select]. rewrite Hb. now apply IH.
Qed.

Lemma select_every (pv : list Q) (col : list Q) :
  List.length col = List.length pv ->
  Forall (fun b => b == 1) col -> select pv (eq_one col) = pv.
Proof.
  revert col. induction pv as [|v pv IH]; intros [|b col] Hlen Hall;
    try discriminate; [reflexivity|].
  inversion Hall as [|? ? Hb Hcol]; subst.
  cbn [eq_one map select]. apply Qeq_bool_iff in Hb. rewrite Hb.
  f_equal. apply IH; [now injection Hlen | exact Hcol].
Qed.

Lemma hitb_every (col : list Q) :
  col <> [] -> Forall (fun b => b == 1) col -> replicate_hitb col = true.
Proof.
  intros Hne Hall. destruct col as [|b col]; [congruence|].
  inversion Hall as [|? ? Hb _]; subst.
  unfold replicate_hitb. cbn [existsb]. apply Qeq_bool_iff in Hb. now rewrite Hb.
Qed.

Lemma columns_in_range (w : World) (pv : list Q) (idx nsims : Z) (cols : list (list Q))
  (P : list Q -> Prop) :
  Forall2 (fun sim col => final_grid_column w idx sim = Ok col
                          /\ List.length col = List.length pv)
    (range 1 (nsims + 1)) cols ->
  (forall sim col, (1 <= sim <= nsims)%Z ->
     final_grid_column w idx sim = Ok col -> P col) ->
  Forall (fun col => List.length col = List.length pv /\ P col) cols.
Proof.
  intros HF HP.
  assert (Hr : Forall (fun sim => (1 <= sim <= nsims)%Z) (range 1 (nsims + 1)))
    by (apply Forall_forall; intros sim Hin; apply in_range in Hin; lia).
  induction HF as [|sim col sims cols [Hcol Hlen] _ IH]; [constructor|].
  inversion Hr as [|? ? Hsim Hr']; subst.
  constructor; [|now apply IH].
  split; [exact Hlen | now apply HP with sim].
Qed.

Lemma total_repeat (x : Q) (n : nat) :
  total (repeat x n) == x * inject_Z (Z.of_nat n).
Proof.
  induction n as [|n IH]; cbn [repeat total fold_right].
  - now rewrite Qmult_0_r.
  - fold (total (repeat x n)).
    rewrite IH, Nat2Z.inj_succ, <- Z.add_1_l, inject_Z_plus.
    rewrite Qmult_plus_distr_r, Qmult_1_r. reflexivity.
Qed.

Lemma all_equal_repeat {A : Type} (x : A) (l : list A) :
  Forall (fun y => y = x) l -> l = repeat x (List.length l).
Proof. induction 1 as [|y l -> _ IH]; cbn; [reflexivity | now f_equal]. Qed.

Lemma count_hits_all (outs : list (Q * bool)) (b : bool) :
  Forall (fun o => snd o = b) outs ->
  count_hits outs = if b then Z.of_nat (List.length outs) else 0%Z.
Proof.
  unfold count_hits. induction 1 as [|o outs Ho _ IH]; [now destruct b|].
  cbn [filter]. rewrite Ho. destruct b; cbn [List.length]; lia.
Qed.

(** X4. When no replicate has a burned power-line cell, the report the
    aggregation returns has hit count 0, hit rate 0, mean loss 0 and
    maximum loss 0, for any value map. *)
Theorem nothing_burned_nothing_lost (w : World) (values : array2) (nsims : Z) (r : report) :
  evaluate_losses w values nsims = Ok r ->
  (forall sim col, (1 <= sim <= nsims)%Z ->
     final_grid_column w (powerline_col_index values) sim = Ok col ->
     replicate_hitb col = false) ->
  hit_count r = 0%Z /\ hit_rate r == 0 /\ avg_loss r == 0 /\ max_loss r == 0.
Proof.
  intros H Hnone.
  apply evaluate_losses_report in H as (pv & outs & mx & Hpv & HF & Hn & Hmx & ->).
  destruct (columns_of_outcomes _ _ _ _ _ HF) as (cols & HF' & ->).
  pose proof (columns_in_range _ _ _ _ _ _ HF' Hnone) as Hcols.
  assert (Hout : Forall (fun o => o = (0, false)) (map (outcome_of pv) cols)).
  { apply Forall_map. eapply Forall_impl; [|exact Hcols].
    intros col [_ Hcol]. unfold outcome_of.
    now rewrite any_eq_one, Hcol, select_none. }
  assert (Hlosses : Forall (fun x => x = 0) (map fst (map (outcome_of pv) cols))).
  { apply Forall_map. eapply Forall_impl; [|exact Hout]. now intros o ->. }
  cbn [hit_count hit_rate avg_loss max_loss].
  rewrite (count_hits_all _ false)
    by (eapply Forall_impl; [|exact Hout]; now intros o ->).
  split; [reflexivity|]. split; [reflexivity|]. split.
  - rewrite mean_total, (all_equal_repeat _ _ Hlosses), total_repeat.
    rewrite Qmult_0_l. reflexivity.
  - apply max_is_maximum in Hmx as [Hin _].
    eapply Forall_forall in Hlosses; [|exact Hin]. now rewrite Hlosses.
Qed.

Lemma nothing_burned_nothing_lost_witness :
  0%Z = 0%Z /\ 0 / inject_Z 1 == 0 /\ 0 / inject_Z 1 == 0 /\ 0 == 0.
Proof.
  apply (nothing_burned_nothing_lost
           (mkWorld (listdir scenario_world)
              (fun _ => Ok (Nd2 (mkArray2 4 [[1;0;1;1]; [1;0;1;1]; [1;2;1;1]; [1;0;1;1]]))))
           scenario_values 1 (mkReport 1 4 0 (0 / inject_Z 1) (0 / inject_Z 1) 0)).
  - reflexivity.
  - intros sim col Hsim. assert (sim = 1%Z) as -> by lia.
    intros [= <-]. reflexivity.
Defined.

(** In exact arithmetic: when every replicate has its whole power line
    burned and the line has at least one cell, every replicate is a hit
    and the mean and the maximum loss both equal the sum of the
    power-line values. *)
Lemma exact_everything_burned (w : World) (values : array2) (nsims : Z)
  (pv : list Q) (r : report) :
  evaluate_losses w values nsims = Ok r ->
  column values (powerline_col_index values) = Ok pv ->
  pv <> [] ->
  (forall sim col, (1 <= sim <= nsims)%Z ->
     final_grid_column w (powerline_col_index values) sim = Ok col ->
     Forall (fun b => b == 1) col) ->
  hit_count r = nsims /\ hit_rate r == 1
  /\ avg_loss r == sum pv /\ max_loss r = sum pv.
Proof.
  intros H Hpv Hne Hall.
  apply evaluate_losses_report in H as (pv' & outs & mx & Hpv' & HF & Hn & Hmx & ->).
  assert (pv' = pv) as -> by congruence.
  pose proof (outcomes_length _ _ _ _ _ HF) as Hlen.
  destruct (columns_of_outcomes _ _ _ _ _ HF) as (cols & HF' & ->).
  pose proof (columns_in_range _ _ _ _ _ _ HF' Hall) as Hcols.
  assert (Hout : Forall (fun o => o = (sum pv, true)) (map (outcome_of pv) cols)).
  { apply Forall_map. eapply Forall_impl; [|exact Hcols].
    intros col [Hl Hcol]. unfold outcome_of.
    rewrite any_eq_one, select_every by assumption.
    rewrite hitb_every; [reflexivity | | exact Hcol].
    intros ->. destruct pv; [congruence | discriminate]. }
  assert (Hlosses : Forall (fun x => x = sum pv) (map fst (map (outcome_of pv) cols))).
  { apply Forall_map. eapply Forall_impl; [|exact Hout]. now intros o ->. }
  assert (Hpos : ~ inject_Z nsims == 0).
  { intros E. apply (Qlt_irrefl 0). rewrite <- E at 2. rewrite <- (Zlt_Qlt 0). lia. }
  cbn [hit_count hit_rate avg_loss max_loss].
  rewrite (count_hits_all _ true)
    by (eapply Forall_impl; [|exact Hout]; now intros o ->).
  rewrite Hlen, Z2Nat.id by lia.
  split; [reflexivity|]. split; [|split].
  - now apply Qmult_inv_r.
  - rewrite mean_total, (all_equal_repeat _ _ Hlosses), total_repeat.
    rewrite repeat_length, length_map, Hlen, Z2Nat.id by lia.
    now apply Qdiv_mult_l.
  - apply max_is_maximum in Hmx as [Hin _].
    eapply Forall_forall in Hlosses; [|exact Hin]. exact Hlosses.
Qed.

(** X5. In floating point, where no sum is rounded (a value map of
    [float32] or [float64] cells whose power-line values are whole
    numbers with a sum of at most [2 ^ 24], at most [2 ^ 29]
    replicates): when every replicate has its whole power line burned
    and the line has at least one cell, every replicate is a hit (hit
    count [nsims], hit rate 1) and the mean and the maximum loss both
    equal the sum of the power-line values. *)
Theorem everything_burned_everything_lost (f : format) (w : World) (values : array2)
  (nsims : Z) (pv : list Q) (r : Fp.report Q) :
  f = binary32 \/ f = binary64 ->
  Fp.evaluate_losses (rounded f) (fp_world w) (fp_array values) nsims = Ok r ->
  column values (powerline_col_index values) = Ok pv ->
  pv <> [] ->
  summed_exactly pv ->
  (nsims <= 2 ^ 29)%Z ->
  (forall sim col, (1 <= sim <= nsims)%Z ->
     final_grid_column w (powerline_col_index values) sim = Ok col ->
     Forall (fun b => b == 1) col) ->
  Fp.hit_count r = nsims /\ Fp.hit_rate r == 1
  /\ Fp.avg_loss r == sum pv /\ Fp.max_loss r == sum pv.
Proof.
  intros Hfmt H Hpv Hne Hexact Hn Hall.
  pose proof (rounded_report f w values nsims pv Hfmt Hpv Hexact Hn) as Hr.
  rewrite H in Hr.
  destruct (evaluate_losses w values nsims) as [r0|e] eqn:Hq; [|contradiction].
  destruct Hr as (_ & _ & Hhits & Hrate & Havg & Hmax & _).
  destruct (exact_everything_burned w values nsims pv r0 Hq Hpv Hne Hall)
    as (Hh0 & Hr0 & Ha0 & Hm0).
  destruct (binary_formats binary64 (or_intror eq_refl)) as [Hf64 _].
  split; [congruence|]. split; [|split].
  - rewrite Hrate, (round_Qeq binary64 _ _ Hr0).
    apply (round_whole binary64 1 1 Hf64); [cbn; lia | reflexivity].
  - rewrite Havg, (round_Qeq binary64 _ _ Ha0).
    apply round_whole_le; [exact Hf64 | |].
    + apply (whole_comp (total pv)); [now rewrite sum_total|].
      apply whole_total, Hexact.
    + eapply Qle_trans; [apply Hexact|].
      rewrite <- Zle_Qle. apply Z.pow_le_mono_r; cbn; lia.
  - now rewrite Hmax, Hm0.
Qed.

Lemma everything_burned_everything_lost_witness :
  1%Z = 1%Z /\ 1 == 1 /\ 400 == sum [100; 100; 100; 100]
  /\ 400 == sum [100; 100; 100; 100].
Proof.
  apply (everything_burned_everything_lost binary32
           (mkWorld (listdir scenario_world)
              (fun _ => Ok (Nd2 (mkArray2 4 [[0;1;0;0]; [0;1;0;0]; [0;1;2;0]; [0;1;0;0]]))))
           scenario_values 1 [100; 100; 100; 100] (Fp.mkReport 1 4 1 1 400 400)).
  - now left.
  - vm_compute. reflexivity.
  - reflexivity.
  - discriminate.
  - assert (Hw : whole 100) by (exists 100%Z; split; [lia | reflexivity]).
    split.
    + repeat (apply Forall_cons; [exact Hw|]). apply Forall_nil.
    + vm_compute. discriminate.
  - lia.
  - intros sim col Hsim. assert (sim = 1%Z) as -> by lia.
    intros [= <-]. repeat constructor.
Defined.

Lemma total_select_monotone (pv : list Q) :
  Forall (fun v => 0 <= v) pv ->
  forall m1 m2, mask_le m1 m2 ->
    total (select pv m1) <= total (select pv m2).
Proof.
  induction 1 as [|v pv Hv Hpv IH]; intros m1 m2 Hle.
  - destruct m1, m2; apply Qle_refl.
  - destruct Hle as [|b1 b2 m1 m2 Hb Hle]; [apply Qle_refl|].
    specialize (IH m1 m2 Hle).
    destruct b1, b2; try discriminate Hb; cbn [select total fold_right];
      fold (total (select pv m1)); fold (total (select pv m2)).
    + apply Qplus_le_compat; [apply Qle_refl | exact IH].
    + now apply Qle_plus_nonneg_l.
    + exact IH.
Qed.

(** X6. In floating point, where no sum is rounded (a value map of
    [float32] or [float64] cells whose power-line values are whole
    numbers with a sum of at most [2 ^ 24]), the loss of a replicate is
    monotone in what burned: if every cell burned under one mask is
    burned under another, the loss under the first is at most the loss
    under the second. *)
Theorem loss_is_monotone (f : format) (pv : list Q) (burned1 burned2 : list bool)
  (loss1 loss2 : Q) :
  f = binary32 \/ f = binary64 ->
  summed_exactly pv ->
  mask_le burned1 burned2 ->
  Fp.loss_this_sim (rounded f) pv burned1 = Ok loss1 ->
  Fp.loss_this_sim (rounded f) pv burned2 = Ok loss2 ->
  loss1 <= loss2.
Proof.
  intros Hfmt Hexact Hle H1 H2.
  rewrite (rounded_loss_exact f pv burned1 loss1 Hfmt Hexact H1).
  rewrite (rounded_loss_exact f pv burned2 loss2 Hfmt Hexact H2).
  rewrite !sum_total. apply total_select_monotone; [|exact Hle].
  apply whole_nonneg, Hexact.
Qed.

Lemma loss_is_monotone_witness : 200 <= 300.
Proof.
  apply (loss_is_monotone binary32 [100; 100; 100; 100]
           [false; true; false; true] [true; true; false; true]).
  - now left.
  - assert (Hw : whole 100) by (exists 100%Z; split; [lia | reflexivity]).
    split.
    + repeat (apply Forall_cons; [exact Hw|]). apply Forall_nil.
    + vm_compute. discriminate.
  - repeat constructor.
  - vm_compute. reflexivity.
  - vm_compute. reflexivity.
Defined.

Lemma total_select_uniform (x : Q) (n : nat) (mask : list bool) :
  List.length mask = n ->
  total (select (repeat x n) mask) == x * inject_Z (Z.of_nat (count_true mask)).
Proof.
  revert mask. induction n as [|n IH]; intros [|b mask] Hlen; try discriminate.
  - cbn. now rewrite Qmult_0_r.
  - injection Hlen as Hlen. specialize (IH mask Hlen).
    unfold count_true in *. cbn [repeat select filter].
    destruct b; cbn [total fold_right List.length];
      fold (total (select (repeat x n) mask)); [|exact IH].
    rewrite IH, Nat2Z.inj_succ, <- Z.add_1_l, inject_Z_plus.
    rewrite Qmult_plus_distr_r, Qmult_1_r. reflexivity.
Qed.

Lemma count_true_le (mask : list bool) : (count_true mask <= List.length mask)%nat.
Proof. apply filter_length_le. Qed.

Lemma reference_column_summed_exactly (nrows : Z) :
  (nrows <= 167772)%Z -> summed_exactly (repeat 100 (Z.to_nat nrows)).
Proof.
  intros H. split.
  - apply Forall_forall. intros x Hx. apply repeat_spec in Hx as ->.
    exists 100%Z. split; [lia | reflexivity].
  - rewrite sum_total, total_repeat, <- (inject_Z_mult 100), <- Zle_Qle.
    change (2 ^ 24)%Z with 16777216%Z. lia.
Qed.

(** X7. The builder and the aggregation agree on where the power line
    is: for any map the builder returns, the column the aggregation
    extracts holds 100.0 in each of its [nrows] cells; hence, up to
    167 772 rows, where [float32] holds every multiple of 100 up to
    [100 * nrows], the loss of a replicate computed in [float32] is 100
    times the number of its burned power-line cells, and at most
    [100 * nrows]. *)
Theorem reference_loss_counts_cells (nrows ncols : Z) (values : array2) (text : string)
  (burned : list bool) (loss : Q) :
  build_powerline_values nrows ncols = Ok (values, text) ->
  Fp.loss_this_sim (rounded binary32) (repeat 100 (Z.to_nat nrows)) burned = Ok loss ->
  column values (powerline_col_index values) = Ok (repeat 100 (Z.to_nat nrows))
  /\ ((nrows <= 167772)%Z ->
      loss == 100 * inject_Z (Z.of_nat (count_true burned))
      /\ loss <= 100 * inject_Z nrows).
Proof.
  intros Hb Hloss.
  apply build_powerline_values_inv in Hb as (Hr & Hc & ->).
  split; [now apply column_powerline_matrix|]. intros Hn.
  pose proof (rounded_loss_exact binary32 _ _ _ (or_introl eq_refl)
                (reference_column_summed_exactly nrows Hn) Hloss) as Hexact.
  apply fp_loss_this_sim_spec in Hloss as [Hlen _].
  rewrite repeat_length in Hlen.
  assert (Heq : loss == 100 * inject_Z (Z.of_nat (count_true burned)))
    by (rewrite Hexact, sum_total; now apply total_select_uniform).
  split; [exact Heq|].
  rewrite Heq. apply Qmult_le_l; [reflexivity|].
  rewrite <- Zle_Qle. pose proof (count_true_le burned). lia.
Qed.

Lemma reference_loss_counts_cells_witness :
  column scenario_values (powerline_col_index scenario_values)
  = Ok (repeat 100 (Z.to_nat 4))
  /\ 300 == 100 * inject_Z (Z.of_nat (count_true [true; true; false; true]))
  /\ 300 <= 100 * inject_Z 4.
Proof.
  destruct (reference_loss_counts_cells 4 4 scenario_values (savetxt scenario_values)
              [true; true; false; true] 300) as (Hcol & Hloss);
    [reflexivity | vm_compute; reflexivity |].
  split; [exact Hcol|]. apply Hloss. lia.
Defined.

(** ** The locator: which file is the last *)

Lemma string_compare_prefix (p a b : string) :
  String.compare (p ++ a) (p ++ b) = String.compare a b.
Proof.
  induction p as [|c p IH]; [reflexivity|].
  cbn [append String.compare]. now rewrite ascii_compare_refl.
Qed.

Lemma string_leb_prefix (p a b : string) :
  String.leb (p ++ a) (p ++ b) = String.leb a b.
Proof. unfold String.leb. now rewrite string_compare_prefix. Qed.

(** The last element of the sorted list is the only element that
    follows every other. *)
Lemma last_sorted_is_the_maximum (l : list string) (f : string) :
  In f l -> Forall (fun g => String.leb g f = true) l ->
  last (sorted l) EmptyString = f.
Proof.
  intros Hin Hmax.
  pose proof (PathSort.Permuted_sort l) as P. fold (sorted l) in P.
  assert (Hne : sorted l <> []).
  { intros E. rewrite E in P. apply Permutation_sym, Permutation_nil in P.
    subst l. destruct Hin. }
  apply String.leb_antisym.
  - eapply Forall_forall in Hmax; [exact Hmax|].
    eapply Permutation_in; [apply Permutation_sym, P|]. now apply last_in.
  - pose proof (last_strongly_sorted _ EmptyString (strongly_sorted_sorted l)) as HF.
    eapply Forall_forall in HF; [exact HF|].
    eapply Permutation_in; [exact P | exact Hin].
Qed.

Lemma get_last_forest_grid_for_sim_maximum (w : World) (sim : Z) (f : string) :
  get_last_forest_grid_for_sim w sim = Ok f <->
  In f (forest_grids_of w sim)
  /\ Forall (fun g => String.leb g f = true) (forest_grids_of w sim).
Proof.
  split.
  - intros H.
    destruct (forest_grids_of w sim) as [|g gs] eqn:E.
    + rewrite get_last_forest_grid_for_sim_missing in H by exact E. discriminate.
    + assert (Hne : forest_grids_of w sim <> []) by (rewrite E; discriminate).
      rewrite get_last_forest_grid_for_sim_found in H by exact Hne.
      injection H as <-. rewrite <- E.
      pose proof (PathSort.Permuted_sort (forest_grids_of w sim)) as P.
      fold (sorted (forest_grids_of w sim)) in P.
      split.
      * eapply Permutation_in; [apply Permutation_sym, P|].
        apply last_in. intros E'. apply Hne. now apply sorted_nil_iff.
      * apply Forall_forall. intros g' Hg'.
        pose proof (last_strongly_sorted _ EmptyString
                      (strongly_sorted_sorted (forest_grids_of w sim))) as HF.
        eapply Forall_forall in HF; [exact HF|].
        eapply Permutation_in; [exact P | exact Hg'].
  - intros [Hin Hmax].
    rewrite get_last_forest_grid_for_sim_found
      by (intros E; rewrite E in Hin; destruct Hin).
    f_equal. now apply last_sorted_is_the_maximum.
Qed.

(** X8. In a folder whose entries named [ForestGrid*.csv] are ASCII
    names, the locator returns [folder/n] exactly when [n] is such an
    entry that no other such entry follows in the lexicographic order of
    the names (by character code: for ASCII names the order of Python's
    strings); it raises exactly when the folder is missing or has no
    such entry, and then the error is [RuntimeError]. *)
Theorem locator_returns_greatest_name (w : World) (sim : Z) :
  (forall names n,
      listdir w (sim_grid_folder sim) = Some names ->
      In n names -> is_forest_grid n = true -> ascii_name n = true) ->
  (forall f,
      get_last_forest_grid_for_sim w sim = Ok f <->
      exists names n,
        listdir w (sim_grid_folder sim) = Some names
        /\ In n names /\ is_forest_grid n = true
        /\ (forall m, In m names -> is_forest_grid m = true -> String.leb m n = true)
        /\ f = (sim_grid_folder sim ++ "/" ++ n)%string)
  /\ (forall e,
        get_last_forest_grid_for_sim w sim = Raise e <->
        e = RuntimeError
        /\ (listdir w (sim_grid_folder sim) = None
            \/ exists names,
                listdir w (sim_grid_folder sim) = Some names
                /\ forall n, In n names -> is_forest_grid n = false)).
Proof.
  intros _. split.
  - intros f. rewrite get_last_forest_grid_for_sim_maximum.
    unfold forest_grids_of, glob_forest_grids.
    destruct (listdir w (sim_grid_folder sim)) as [names|].
    + split.
      * intros [Hin Hmax]. apply in_map_iff in Hin as (n & <- & Hn).
        apply filter_In in Hn as [Hn Hg].
        exists names, n. repeat split; try assumption.
        intros m Hm Hmg.
        assert (Hm' : In (sim_grid_folder sim ++ "/" ++ m)%string
                        (map (fun n => (sim_grid_folder sim ++ "/" ++ n)%string)
                             (filter is_forest_grid names)))
          by (apply in_map_iff; exists m; split; [reflexivity|];
              apply filter_In; auto).
        eapply Forall_forall in Hmax; [|exact Hm'].
        rewrite string_leb_prefix in Hmax.
        now rewrite (string_leb_prefix "/" m n) in Hmax.
      * intros (names' & n & [= <-] & Hn & Hg & Hmax & ->). split.
        -- apply in_map_iff. exists n. split; [reflexivity|].
           apply filter_In. auto.
        -- apply Forall_forall. intros p Hp.
           apply in_map_iff in Hp as (m & <- & Hm).
           apply filter_In in Hm as [Hm Hmg].
           rewrite string_leb_prefix, (string_leb_prefix "/" m n). auto.
    + split; [intros [[] _]|]. intros (? & ? & [=] & _).
  - intros e. unfold get_last_forest_grid_for_sim, glob_forest_grids.
    destruct (listdir w (sim_grid_folder sim)) as [names|].
    + destruct (filter is_forest_grid names) as [|n ns] eqn:E.
      * cbn [map sorted]. split.
        -- intros [= <-]. split; [reflexivity|]. right. exists names.
           split; [reflexivity|]. intros n Hn.
           destruct (is_forest_grid n) eqn:Hg; [|reflexivity].
           assert (Hin : In n (filter is_forest_grid names))
             by (apply filter_In; auto).
           rewrite E in Hin. destruct Hin.
        -- now intros [-> _].
      * destruct (sorted (map (fun n0 => (sim_grid_folder sim ++ "/" ++ n0)%string)
                              (n :: ns))) eqn:Es.
        -- apply (proj1 (sorted_nil_iff _)) in Es. discriminate Es.
        -- split; [discriminate|].
           intros [_ [Hnone | (names' & [= <-] & Hnone)]]; [discriminate|].
           assert (Hin : In n (filter is_forest_grid names)) by (rewrite E; now left).
           apply filter_In in Hin as [Hin Hg]. rewrite (Hnone n Hin) in Hg.
           discriminate.
    + cbn. split; [intros [= <-]; auto | now intros [-> _]].
Qed.

Lemma locator_returns_greatest_name_witness :
  (forall f,
      get_last_forest_grid_for_sim scenario_world 1 = Ok f <->
      exists names n,
        listdir scenario_world (sim_grid_folder 1) = Some names
        /\ In n names /\ is_forest_grid n = true
        /\ (forall m, In m names -> is_forest_grid m = true -> String.leb m n = true)
        /\ f = (sim_grid_folder 1 ++ "/" ++ n)%string)
  /\ (forall e,
        get_last_forest_grid_for_sim scenario_world 1 = Raise e <->
        e = RuntimeError
        /\ (listdir scenario_world (sim_grid_folder 1) = None
            \/ exists names,
                listdir scenario_world (sim_grid_folder 1) = Some names
                /\ forall n, In n names -> is_forest_grid n = false)).
Proof.
  apply (locator_returns_greatest_name scenario_world 1).
  intros names n [= <-] [<-|[<-|[<-|[]]]] Hg; reflexivity.
Defined.

(** X9. The order in which the folder lists its entries, and the
    entries that are not final grids, do not matter: two worlds with the
    same candidates up to order locate the same file, or both raise. *)
Theorem locator_ignores_listing_order (w w' : World) (sim : Z) :
  Permutation (forest_grids_of w sim) (forest_grids_of w' sim) ->
  get_last_forest_grid_for_sim w sim = get_last_forest_grid_for_sim w' sim.
Proof.
  intros P.
  destruct (get_last_forest_grid_for_sim w sim) as [f|e] eqn:E.
  - symmetry. apply get_last_forest_grid_for_sim_maximum.
    apply get_last_forest_grid_for_sim_maximum in E as [Hin Hmax]. split.
    + eapply Permutation_in; [exact P | exact Hin].
    + eapply Permutation_Forall; [exact P | exact Hmax].
  - destruct (forest_grids_of w sim) as [|g gs] eqn:Eg.
    + apply Permutation_nil in P.
      rewrite get_last_forest_grid_for_sim_missing in E by exact Eg.
      now rewrite get_last_forest_grid_for_sim_missing.
    + rewrite get_last_forest_grid_for_sim_found in E
        by (rewrite Eg; discriminate).
      discriminate E.
Qed.

Lemma locator_ignores_listing_order_witness :
  get_last_forest_grid_for_sim scenario_world 1
  = get_last_forest_grid_for_sim scenario_world_variant 1.
Proof.
  apply (locator_ignores_listing_order scenario_world scenario_world_variant 1).
  vm_compute. apply perm_swap.
Defined.

Section FixedWidthNumbering.

Local Open Scope N_scope.

Lemma compare_split_last_digit (a b : N) :
  (a ?= b) = match a / 10 ?= b / 10 with
             | Eq => a mod 10 ?= b mod 10
             | c => c
             end.
Proof.
  pose proof (N.div_mod a 10 ltac:(lia)) as Ha.
  pose proof (N.div_mod b 10 ltac:(lia)) as Hb.
  pose proof (N.mod_lt a 10 ltac:(lia)) as Hra.
  pose proof (N.mod_lt b 10 ltac:(lia)) as Hrb.
  generalize dependent (a mod 10). generalize dependent (b mod 10).
  generalize dependent (a / 10). generalize dependent (b / 10).
  intros qb qa rb Hb Hrb ra Ha Hra.
  destruct (N.compare_spec qa qb) as [Hq | Hq | Hq].
  - destruct (N.compare_spec ra rb) as [Hr | Hr | Hr].
    + apply N.compare_eq_iff. lia.
    + apply N.compare_lt_iff. lia.
    + apply N.compare_gt_iff. lia.
  - apply N.compare_lt_iff. lia.
  - apply N.compare_gt_iff. lia.
Qed.

Lemma ascii_compare_digits (r1 r2 : N) :
  r1 < 10 -> r2 < 10 ->
  Ascii.compare (ascii_of_N (48 + r1)) (ascii_of_N (48 + r2)) = (r1 ?= r2).
Proof.
  intros H1 H2. unfold Ascii.compare.
  rewrite !N_ascii_embedding by lia.
  destruct (N.compare_spec r1 r2) as [E | E | E].
  - apply N.compare_eq_iff. lia.
  - apply N.compare_lt_iff. lia.
  - apply N.compare_gt_iff. lia.
Qed.

(** Numerals of one width compare as their numbers do. *)
Lemma compare_pad (width : nat) :
  forall a b s1 s2,
    String.compare (pad width a ++ s1) (pad width b ++ s2)
    = match a mod 10 ^ N.of_nat width ?= b mod 10 ^ N.of_nat width with
      | Eq => String.compare s1 s2
      | c => c
      end.
Proof.
  induction width as [|w IH]; intros a b s1 s2.
  - cbn [pad append N.of_nat]. now rewrite N.pow_0_r, !N.mod_1_r.
  - cbn [pad]. rewrite !append_assoc. cbn [append]. rewrite IH.
    cbn [String.compare].
    rewrite ascii_compare_digits by (apply N.mod_lt; lia).
    rewrite Nat2N.inj_succ, N.pow_succ_r'.
    rewrite (compare_split_last_digit (a mod (10 * 10 ^ N.of_nat w))).
    assert (Hdiv : forall x, x mod (10 * 10 ^ N.of_nat w) / 10 = (x / 10) mod 10 ^ N.of_nat w).
    { intros x. rewrite N.Div0.mod_mul_r.
      rewrite N.mul_comm, N.div_add by lia.
      rewrite (N.div_small (x mod 10)) by (apply N.mod_lt; lia). apply N.add_0_l. }
    assert (Hmod : forall x, (x mod (10 * 10 ^ N.of_nat w)) mod 10 = x mod 10).
    { intros x. rewrite N.Div0.mod_mul_r.
      rewrite N.mul_comm, N.Div0.mod_add. apply N.Div0.mod_mod. }
    rewrite !Hdiv, !Hmod.
    destruct ((a / 10) mod 10 ^ N.of_nat w ?= (b / 10) mod 10 ^ N.of_nat w);
      reflexivity.
Qed.

Lemma leb_numbered_grid (width : nat) (a b : N) :
  a < 10 ^ N.of_nat width -> b < 10 ^ N.of_nat width ->
  String.leb (numbered_grid width a) (numbered_grid width b) = true <-> a <= b.
Proof.
  intros Ha Hb. unfold numbered_grid.
  rewrite string_leb_prefix. unfold String.leb.
  rewrite compare_pad, !N.mod_small, string_compare_refl by assumption.
  destruct (N.compare_spec a b); split; intros; try lia; try reflexivity;
    try discriminate.
Qed.

Lemma is_forest_grid_numbered (width : nat) (k : N) :
  is_forest_grid (numbered_grid width k) = true.
Proof. apply is_forest_grid_spec. now exists (pad width k). Qed.

Lemma greatest_of (ks : list N) :
  ks <> [] -> exists k, In k ks /\ Forall (fun k' => k' <= k) ks.
Proof.
  induction ks as [|k ks IH]; [congruence|]. intros _.
  destruct ks as [|k1 ks].
  - exists k. split; [now left|]. constructor; [lia | constructor].
  - destruct (IH ltac:(discriminate)) as (m & Hin & Hall).
    destruct (N.le_ge_cases k m) as [Hle | Hge].
    + exists m. split; [now right | now constructor].
    + exists k. split; [now left|]. constructor; [lia|].
      eapply Forall_impl; [|exact Hall]. intros k' Hk'. cbv beta in Hk'. lia.
Qed.

End FixedWidthNumbering.

(** X10. When the final grids of a replicate are numbered with one
    fixed number of digits (the entries named [ForestGrid*.csv] are
    exactly the names [ForestGrid<k>.csv] of the numbers [k] of a
    non-empty list, each written with [width] digits), the locator
    returns the grid with the greatest number. *)
Theorem locator_returns_highest_number (w : World) (sim : Z) (names : list string)
  (width : nat) (ks : list N) :
  listdir w (sim_grid_folder sim) = Some names ->
  (forall n, In n names /\ is_forest_grid n = true <->
             exists k, In k ks /\ n = numbered_grid width k) ->
  ks <> [] ->
  Forall (fun k => (k < 10 ^ N.of_nat width)%N) ks ->
  exists k,
    In k ks /\ Forall (fun k' => (k' <= k)%N) ks
    /\ get_last_forest_grid_for_sim w sim
       = Ok (sim_grid_folder sim ++ "/" ++ numbered_grid width k)%string.
Proof.
  intros Hls Hnames Hne Hwidth.
  destruct (greatest_of ks Hne) as (k & Hk & Hmax).
  exists k. split; [exact Hk|]. split; [exact Hmax|].
  apply get_last_forest_grid_for_sim_maximum.
  unfold forest_grids_of, glob_forest_grids. rewrite Hls. split.
  - apply in_map_iff. exists (numbered_grid width k). split; [reflexivity|].
    apply filter_In. apply Hnames. now exists k.
  - apply Forall_forall. intros p Hp.
    apply in_map_iff in Hp as (n & <- & Hn). apply filter_In in Hn.
    apply Hnames in Hn as (k' & Hk' & ->).
    rewrite string_leb_prefix, (string_leb_prefix "/").
    apply leb_numbered_grid.
    + eapply Forall_forall in Hwidth; [exact Hwidth | exact Hk'].
    + eapply Forall_forall in Hwidth; [exact Hwidth | exact Hk].
    + eapply Forall_forall in Hmax; [exact Hmax | exact Hk'].
Qed.

Lemma locator_returns_highest_number_witness :
  exists k,
    In k [9; 10]%N /\ Forall (fun k' => (k' <= k)%N) [9; 10]%N
    /\ get_last_forest_grid_for_sim
         (mkWorld
            (fun _ => Some ["ForestGrid09.csv"; "readme.txt"; "ForestGrid10.csv"]%string)
            (fun _ => Raise OSError)) 1
       = Ok (sim_grid_folder 1 ++ "/" ++ numbered_grid 2 k)%string.
Proof.
  apply (locator_returns_highest_number
           (mkWorld
              (fun _ => Some ["ForestGrid09.csv"; "readme.txt"; "ForestGrid10.csv"]%string)
              (fun _ => Raise OSError))
           1 ["ForestGrid09.csv"; "readme.txt"; "ForestGrid10.csv"]%string 2 [9; 10]%N).
  - reflexivity.
  - intros n. split.
    + intros [[<- | [<- | [<- | []]]] Hg].
      * exists 9%N. split; [now left | reflexivity].
      * discriminate Hg.
      * exists 10%N. split; [now right; left | reflexivity].
    + intros (k & [<- | [<- | []]] & ->); split; try reflexivity.
      * now left.
      * now right; right; left.
  - discriminate.
  - repeat constructor.
Defined.

(** Without a fixed width the order of names is not the order of
    numbers: grid 9 is taken for the last when grid 10 exists. *)
Example locator_unpadded_numbers :
  get_last_forest_grid_for_sim
    (mkWorld (fun _ => Some ["ForestGrid9.csv"; "ForestGrid10.csv"]%string)
             (fun _ => Raise OSError)) 1
  = Ok "Grids/Grids1/ForestGrid9.csv"%string.
Proof. vm_compute. reflexivity. Qed.

(** ** The value map builder: failures and the persisted file *)

(** X11. The builder returns a matrix exactly when [nrows >= 0] and
    [ncols >= 1]. With a negative dimension it raises [ValueError], and
    otherwise, with no column, [IndexError]. *)
Theorem builder_outcomes (nrows ncols : Z) :
  (is_ok (build_powerline_values nrows ncols) = true <->
   (0 <= nrows)%Z /\ (1 <= ncols)%Z)
  /\ ((nrows < 0)%Z \/ (ncols < 0)%Z ->
      build_powerline_values nrows ncols = Raise ValueError)
  /\ ((0 <= nrows)%Z -> ncols = 0%Z ->
      build_powerline_values nrows ncols = Raise IndexError).
Proof.
  split; [|split].
  - split.
    + destruct (build_powerline_values nrows ncols) as [[values text]|e] eqn:E;
        [|discriminate].
      intros _. apply build_powerline_values_inv in E. tauto.
    + intros [Hr Hc]. now rewrite build_powerline_values_ok.
  - intros Hneg. unfold build_powerline_values, ones.
    assert (E : ((nrows <? 0) || (ncols <? 0))%Z = true).
    { apply orb_true_iff. destruct Hneg; [left | right]; now apply Z.ltb_lt. }
    now rewrite E.
  - intros Hr ->. now apply build_powerline_values_no_columns.
Qed.

Lemma tokens_value_line (r : list Q) :
  Forall two_valued r -> tokens (value_line r) = map format_1f r.
Proof.
  intros Hr. unfold value_line. apply tokens_join.
  apply Forall_map. eapply Forall_impl; [|exact Hr].
  intros x Hx. split; now apply format_two_valued.
Qed.

Lemma powerline_row_two_valued (ncols : Z) : Forall two_valued (powerline_row ncols).
Proof.
  unfold powerline_row. apply Forall_list_set; [now right|].
  all_of_repeat. now left.
Qed.

Lemma nth_powerline_row (ncols : Z) (j : nat) :
  (1 <= ncols)%Z -> (j < Z.to_nat ncols)%nat ->
  nth j (powerline_row ncols) 0 = if Nat.eqb j (powerline_column ncols) then 100 else 1.
Proof.
  intros Hc Hj. unfold powerline_row.
  rewrite nth_list_set
    by (rewrite repeat_length; apply powerline_column_lt; exact Hc).
  now rewrite nth_repeat_in by exact Hj.
Qed.

(** X12. The file the builder persists has exactly [nrows] lines; each
    has exactly [ncols] blank-separated fields, the field of the
    power-line column reading [100.0] and every other field [1.0]. *)
Theorem value_file_layout (nrows ncols : Z) (values : array2) (text : string) :
  build_powerline_values nrows ncols = Ok (values, text) ->
  Z.of_nat (List.length (file_lines text)) = nrows
  /\ Forall (fun line =>
               Z.of_nat (List.length (tokens line)) = ncols
               /\ forall j, (j < Z.to_nat ncols)%nat ->
                    nth j (tokens line) EmptyString
                    = if Nat.eqb j (powerline_column ncols)
                      then "100.0"%string else "1.0"%string)
       (file_lines text).
Proof.
  intros Hb.
  pose proof (build_powerline_values_inv _ _ _ _ Hb) as (Hr & Hc & ->).
  rewrite build_powerline_values_ok in Hb by assumption. injection Hb as <-.
  rewrite savetxt_lines. cbn [powerline_matrix rows_of]. rewrite map_repeat.
  rewrite file_lines_written.
  - split; [rewrite repeat_length; lia|].
    all_of_repeat.
    rewrite tokens_value_line by apply powerline_row_two_valued.
    split.
    + unfold powerline_row. rewrite length_map, length_list_set, repeat_length. lia.
    + intros j Hj.
      change EmptyString with ""%string.
      rewrite (nth_indep _ ""%string (format_1f 0)), map_nth, nth_powerline_row
        by (try rewrite length_map; unfold powerline_row;
            try rewrite length_list_set, repeat_length; assumption).
      now destruct (Nat.eqb j (powerline_column ncols)).
  - all_of_repeat. apply value_line_round_trip, powerline_row_two_valued.
Qed.

Lemma value_file_layout_witness :
  Z.of_nat (List.length (file_lines (savetxt scenario_values))) = 4%Z
  /\ Forall (fun line =>
               Z.of_nat (List.length (tokens line)) = 4%Z
               /\ forall j, (j < Z.to_nat 4)%nat ->
                    nth j (tokens line) EmptyString
                    = if Nat.eqb j (powerline_column 4)
                      then "100.0"%string else "1.0"%string)
       (file_lines (savetxt scenario_values)).
Proof.
  apply (value_file_layout 4 4 scenario_values (savetxt scenario_values)).
  reflexivity.
Defined.

(** ** The landscape files: any integers, and the header *)

(** X13. For any integers: a negative [nrows] gives no grid line and a
    negative [ncols] gives empty grid lines, as zero does, while the
    number of attribute records is taken from the product
    [nrows * ncols]; so two negative dimensions give [nrows * ncols]
    records beside a raster without cells. *)
Theorem landscape_counts_any_integers (nrows ncols : Z) :
  (exists grid,
      file_lines (build_forest_asc nrows ncols) = forest_header nrows ncols ++ grid
      /\ Z.of_nat (List.length grid) = Z.max 0 nrows
      /\ Forall (fun line => Z.of_nat (List.length (tokens line)) = Z.max 0 ncols) grid)
  /\ (exists records,
         csv_rows (build_data_csv nrows ncols) = data_header :: records
         /\ Z.of_nat (List.length records) = Z.max 0 (nrows * ncols)
         /\ Forall (fun r => r = data_row) records).
Proof.
  split.
  - exists (repeat (forest_row ncols) (Z.to_nat nrows)).
    rewrite build_forest_asc_lines,
      (file_lines_written _ (forest_lines_lack_newline nrows ncols)).
    split; [reflexivity|]. split; [rewrite repeat_length; lia|].
    all_of_repeat. rewrite tokens_forest_row, repeat_length. lia.
  - exists (repeat data_row (Z.to_nat (nrows * ncols))).
    unfold csv_rows. rewrite build_data_csv_lines, file_lines_written.
    + cbn [map]. rewrite map_repeat.
      split; [reflexivity|]. split; [rewrite repeat_length; lia|].
      all_of_repeat. reflexivity.
    + constructor; [reflexivity|]. all_of_repeat. reflexivity.
Qed.

Lemma to_int_not_nil (n : Z) : Z.to_int n <> Decimal.Pos Decimal.Nil /\ Z.to_int n <> Decimal.Neg Decimal.Nil.
Proof.
  destruct n as [|p|p]; cbn; split; try discriminate;
    intros [= H]; now apply (DecimalPos.Unsigned.to_uint_nonnil p).
Qed.

(** [int(str(n)) == n] *)
Lemma int_of_str_str_int (n : Z) : int_of_str (str_int n) = Some n.
Proof.
  unfold int_of_str, str_int. destruct (to_int_not_nil n) as [Hp Hn].
  rewrite NilZero.isi by assumption. cbn [option_map].
  now rewrite DecimalZ.of_to.
Qed.

Lemma str_int_not_empty (n : Z) : is_empty (str_int n) = false.
Proof.
  pose proof (int_of_str_str_int n) as H.
  destruct (str_int n); [discriminate H | reflexivity].
Qed.

Lemma tokens_key_value (key : string) (n : Z) :
  lacks " "%char key = true -> is_empty key = false ->
  tokens (key ++ " " ++ str_int n) = [key; str_int n].
Proof.
  intros Hk He.
  change (key ++ " " ++ str_int n)%string with (join " " [key; str_int n]).
  apply tokens_join. repeat constructor; try assumption.
  - apply lacks_str_int; [reflexivity | discriminate].
  - apply str_int_not_empty.
Qed.

(** X14. The raster header states the dimensions it was given: for any
    integers, the first two lines of the file read [ncols <c>] and
    [nrows <r>] where the numerals [<c>] and [<r>] decode to [ncols] and
    [nrows]. *)
Theorem raster_header_states_dimensions (nrows ncols : Z) :
  exists c r rest,
    file_lines (build_forest_asc nrows ncols)
    = ("ncols " ++ c)%string :: ("nrows " ++ r)%string :: rest
    /\ tokens ("ncols " ++ c) = ["ncols"%string; c] /\ int_of_str c = Some ncols
    /\ tokens ("nrows " ++ r) = ["nrows"%string; r] /\ int_of_str r = Some nrows.
Proof.
  exists (str_int ncols), (str_int nrows).
  eexists.
  rewrite build_forest_asc_lines,
    (file_lines_written _ (forest_lines_lack_newline nrows ncols)).
  split; [reflexivity|].
  split; [apply (tokens_key_value "ncols"); reflexivity|].
  split; [apply int_of_str_str_int|].
  split; [apply (tokens_key_value "nrows"); reflexivity|].
  apply int_of_str_str_int.
Qed.

(** ** Files: directories and copies *)

Lemma path_eqb_eq (p q : path) : path_eqb p q = true <-> p = q.
Proof.
  unfold path_eqb. destruct (list_eq_dec string_dec p q); split; congruence.
Qed.

Lemma put_same (fs : FS) (p : path) (n : node) : put fs p n p = Some n.
Proof. unfold put. now rewrite (proj2 (path_eqb_eq p p) eq_refl). Qed.

Lemma put_other (fs : FS) (p q : path) (n : node) : q <> p -> put fs p n q = fs q.
Proof.
  intros H. unfold put. destruct (path_eqb q p) eqn:E; [|reflexivity].
  apply path_eqb_eq in E. contradiction.
Qed.

Lemma is_dir_put_other (fs : FS) (p q : path) (n : node) :
  q <> p -> is_dir (put fs p n) q = is_dir fs q.
Proof. intros H. destruct q; [reflexivity|]. cbn [is_dir]. now rewrite put_other. Qed.

Lemma on_files_done (op : FS -> result FS) (st st' : machine) :
  on_files op st = (st', Done tt) <->
  exists fs, op (files st) = Ok fs
             /\ st' = mkMachine fs (outputs st) (invocations st).
Proof.
  unfold on_files. destruct (op (files st)) as [fs|e]; split.
  - intros [= <-]. now exists fs.
  - intros (fs' & H & ->). now inversion H.
  - discriminate.
  - intros (fs' & [=] & _).
Qed.

Lemma on_files_failed (op : FS -> result FS) (st st' : machine) (f : failure) :
  on_files op st = (st', Failed f) <->
  exists e, op (files st) = Raise e /\ st' = st /\ f = PyError e.
Proof.
  unfold on_files. destruct (op (files st)) as [fs|e]; split.
  - discriminate.
  - intros (e & [=] & _).
  - intros [= <- <-]. now exists e.
  - intros (e' & H & -> & ->). now inversion H.
Qed.

(** What creating the generated-data folder does. *)
Lemma mkdir_generated_folder (fs fs1 : FS) :
  mkdir_parents fs GENERATED_DATA_FOLDER = Ok fs1 ->
  fs1 ["data"%string] = Some Dir
  /\ fs1 GENERATED_DATA_FOLDER = Some Dir
  /\ forall q, q <> ["data"%string] -> q <> GENERATED_DATA_FOLDER -> fs1 q = fs q.
Proof.
  unfold mkdir_parents, GENERATED_DATA_FOLDER. cbn [mkdirs app].
  destruct (fs ["data"%string]) as [[c|]|] eqn:Ed; [discriminate| |].
  - destruct (fs ["data"%string; "PowerLine100x100"%string]) as [[c|]|] eqn:Eg;
      [discriminate| |]; intros [= <-].
    + repeat split; auto.
    + rewrite put_same, put_other, Ed by discriminate.
      repeat split; auto. intros q _ Hq. now apply put_other.
  - rewrite put_other by discriminate.
    destruct (fs ["data"%string; "PowerLine100x100"%string]) as [[c|]|] eqn:Eg;
      [discriminate| |]; intros [= <-].
    + rewrite put_same, put_other, Eg by discriminate.
      repeat split; auto. intros q Hq _. now apply put_other.
    + rewrite put_same, put_other, put_same by discriminate.
      repeat split; auto. intros q Hd Hq. now rewrite !put_other.
Qed.

Lemma mkdir_generated_folder_ok (fs : FS) :
  (forall c, fs ["data"%string] <> Some (File c)) ->
  (forall c, fs GENERATED_DATA_FOLDER <> Some (File c)) ->
  exists fs1, mkdir_parents fs GENERATED_DATA_FOLDER = Ok fs1.
Proof.
  intros Hd Hg. unfold mkdir_parents, GENERATED_DATA_FOLDER in *. cbn [mkdirs app].
  destruct (fs ["data"%string]) as [[c|]|] eqn:Ed; [now elim (Hd c)| |].
  - destruct (fs ["data"%string; "PowerLine100x100"%string]) as [[c|]|] eqn:Eg;
      [now elim (Hg c) | now eexists | now eexists].
  - rewrite put_other by discriminate.
    destruct (fs ["data"%string; "PowerLine100x100"%string]) as [[c|]|] eqn:Eg;
      [now elim (Hg c) | now eexists | now eexists].
Qed.

(** A copy onto a path that is not a directory. *)
Lemma copy2_onto_file (fs fs' : FS) (src dst : path) :
  is_dir fs dst = false ->
  (copy2 fs src dst = Ok fs' <->
   exists c, fs src = Some (File c) /\ src <> dst
             /\ is_dir fs (removelast dst) = true
             /\ fs' = put fs dst (File c)).
Proof.
  intros Hdst. unfold copy2. rewrite Hdst. cbv beta iota zeta. rewrite Hdst.
  destruct (fs src) as [[c|]|].
  - destruct (path_eqb src dst) eqn:E.
    + apply path_eqb_eq in E. split; [discriminate|].
      intros (c' & _ & Hne & _). contradiction.
    + destruct (is_dir fs (removelast dst)) eqn:Ep.
      * split.
        -- intros [= <-]. exists c. repeat split; auto.
           intros ->. now rewrite (proj2 (path_eqb_eq dst dst) eq_refl) in E.
        -- intros (c' & [= <-] & _ & _ & ->). reflexivity.
      * split; [discriminate|]. intros (c' & _ & _ & [=] & _).
  - split; [discriminate|]. intros (c' & [=] & _).
  - split; [discriminate|]. intros (c' & [=] & _).
Qed.

Lemma copy2_error (fs : FS) (src dst : path) (e : exn) :
  copy2 fs src dst = Raise e -> e = OSError.
Proof.
  unfold copy2. cbv zeta.
  repeat match goal with
         | |- context [match ?x with _ => _ end] => destruct x
         end; congruence.
Qed.

(** Two different concrete paths. *)
Ltac apart :=
  cbv [staged template GENERATED_DATA_FOLDER BASE_TOY_FOLDER OUTPUT_FOLDER app];
  discriminate.

(** The steps of [copy_common_input_files] once the folder is there. *)
Lemma copy_common_input_files_steps (st : machine) (fs1 : FS) :
  mkdir_parents (files st) GENERATED_DATA_FOLDER = Ok fs1 ->
  copy_common_input_files st =
  match copy2 fs1 (template "fbp_lookup_table.csv") (staged "fbp_lookup_table.csv") with
  | Raise e => (mkMachine fs1 (outputs st) (invocations st), Failed (PyError e))
  | Ok fs2 =>
      match copy2 fs2 (template "Weather.csv") (staged "Weather.csv") with
      | Raise e => (mkMachine fs2 (outputs st) (invocations st), Failed (PyError e))
      | Ok fs3 => (mkMachine fs3 (outputs st) (invocations st), Done tt)
      end
  end.
Proof.
  intros Hmk.
  unfold copy_common_input_files, io_bind, on_files at 1. rewrite Hmk.
  cbn [files_to_copy for_each_file]. unfold io_bind, on_files.
  cbn [files outputs invocations].
  fold (template "fbp_lookup_table.csv") (staged "fbp_lookup_table.csv")
       (template "Weather.csv") (staged "Weather.csv").
  destruct (copy2 fs1 _ _) as [fs2|e]; [|reflexivity].
  cbn [files outputs invocations].
  destruct (copy2 fs2 _ _) as [fs3|e]; reflexivity.
Qed.

Lemma copy_common_input_files_no_folder (st : machine) (e : exn) :
  mkdir_parents (files st) GENERATED_DATA_FOLDER = Raise e ->
  copy_common_input_files st = (st, Failed (PyError e)).
Proof.
  intros Hmk. unfold copy_common_input_files, io_bind, on_files at 1.
  now rewrite Hmk.
Qed.

Lemma staged_is_new (name : string) :
  staged name <> ["data"%string] /\ staged name <> GENERATED_DATA_FOLDER.
Proof. split; apart. Qed.

Lemma template_is_apart (name name' : string) :
  template name <> ["data"%string] /\ template name <> GENERATED_DATA_FOLDER
  /\ template name <> staged name'.
Proof. repeat split; apart. Qed.

(** X15. When [copy_common_input_files] returns (and the two places it
    stages at were not directories), both template files are staged in
    the generated-data folder with the content of their templates, the
    folder and [data] are directories, and every other path, the
    templates included, is as before; the output folder and the
    simulator runs are untouched. *)
Theorem copy_stages_the_templates (st st' : machine) :
  is_dir (files st) (staged "fbp_lookup_table.csv") = false ->
  is_dir (files st) (staged "Weather.csv") = false ->
  copy_common_input_files st = (st', Done tt) ->
  (forall name, In name files_to_copy ->
     exists c, files st (template name) = Some (File c)
               /\ files st' (template name) = Some (File c)
               /\ files st' (staged name) = Some (File c))
  /\ files st' ["data"%string] = Some Dir
  /\ files st' GENERATED_DATA_FOLDER = Some Dir
  /\ (forall q, q <> ["data"%string] -> q <> GENERATED_DATA_FOLDER ->
        (forall name, In name files_to_copy -> q <> staged name) ->
        files st' q = files st q)
  /\ outputs st' = outputs st /\ invocations st' = invocations st.
Proof.
  intros Hl Hw Hrun.
  destruct (mkdir_parents (files st) GENERATED_DATA_FOLDER) as [fs1|e] eqn:Hmk.
  2:{ rewrite (copy_common_input_files_no_folder st e Hmk) in Hrun. discriminate. }
  rewrite (copy_common_input_files_steps st fs1 Hmk) in Hrun.
  destruct (mkdir_generated_folder _ _ Hmk) as (Hd & Hg & Hframe).
  assert (Hl1 : is_dir fs1 (staged "fbp_lookup_table.csv") = false)
    by (cbn [is_dir staged app GENERATED_DATA_FOLDER] in *;
        rewrite Hframe by apart; exact Hl).
  destruct (copy2 fs1 _ _) as [fs2|e] eqn:Hc1; [|discriminate].
  apply (copy2_onto_file _ _ _ _ Hl1) in Hc1 as (c1 & Hs1 & _ & _ & ->).
  assert (Hw2 : is_dir (put fs1 (staged "fbp_lookup_table.csv") (File c1))
                  (staged "Weather.csv") = false).
  { rewrite is_dir_put_other by apart.
    cbn [is_dir staged app GENERATED_DATA_FOLDER] in *.
    rewrite Hframe by apart. exact Hw. }
  destruct (copy2 (put fs1 _ _) _ _) as [fs3|e] eqn:Hc2; [|discriminate].
  apply (copy2_onto_file _ _ _ _ Hw2) in Hc2 as (c2 & Hs2 & _ & _ & ->).
  injection Hrun as <-. cbn [files outputs invocations].
  rewrite put_other in Hs2 by apart.
  rewrite Hframe in Hs1, Hs2 by apart.
  split; [|split; [|split; [|split; [|split]]]]; try reflexivity.
  - intros name [<- | [<- | []]].
    + exists c1. split; [exact Hs1|].
      split.
      * now rewrite !put_other, Hframe by apart.
      * rewrite put_other by apart. apply put_same.
    + exists c2. split; [exact Hs2|].
      split.
      * now rewrite !put_other, Hframe by apart.
      * apply put_same.
  - now rewrite !put_other by apart.
  - now rewrite !put_other by apart.
  - intros q Hqd Hqg Hq.
    rewrite !put_other; [now apply Hframe | |].
    + apply Hq. now left.
    + apply Hq. now right; left.
Qed.

Lemma copy_stages_the_templates_witness :
  (forall name, In name files_to_copy ->
     exists c, files fresh_checkout (template name) = Some (File c)
               /\ files (fst (copy_common_input_files fresh_checkout)) (template name)
                  = Some (File c)
               /\ files (fst (copy_common_input_files fresh_checkout)) (staged name)
                  = Some (File c))
  /\ files (fst (copy_common_input_files fresh_checkout)) ["data"%string] = Some Dir
  /\ files (fst (copy_common_input_files fresh_checkout)) GENERATED_DATA_FOLDER = Some Dir
  /\ (forall q, q <> ["data"%string] -> q <> GENERATED_DATA_FOLDER ->
        (forall name, In name files_to_copy -> q <> staged name) ->
        files (fst (copy_common_input_files fresh_checkout)) q = files fresh_checkout q)
  /\ outputs (fst (copy_common_input_files fresh_checkout)) = outputs fresh_checkout
  /\ invocations (fst (copy_common_input_files fresh_checkout))
     = invocations fresh_checkout.
Proof.
  apply (copy_stages_the_templates fresh_checkout
           (fst (copy_common_input_files fresh_checkout))); reflexivity.
Defined.

Lemma mkdir_generated_folder_again (fs : FS) :
  fs ["data"%string] = Some Dir -> fs GENERATED_DATA_FOLDER = Some Dir ->
  mkdir_parents fs GENERATED_DATA_FOLDER = Ok fs.
Proof.
  intros Hd Hg. unfold mkdir_parents.
  change GENERATED_DATA_FOLDER with ["data"%string; "PowerLine100x100"%string] in *.
  cbn [mkdirs app]. rewrite Hd. now rewrite Hg.
Qed.

Lemma copy2_staged (fs : FS) (name c : string) :
  fs GENERATED_DATA_FOLDER = Some Dir ->
  is_dir fs (staged name) = false ->
  fs (template name) = Some (File c) ->
  copy2 fs (template name) (staged name) = Ok (put fs (staged name) (File c)).
Proof.
  intros Hg Hnd Hsrc. apply copy2_onto_file; [exact Hnd|].
  exists c. split; [exact Hsrc|]. split; [apart|]. split; [|reflexivity].
  change (removelast (staged name)) with GENERATED_DATA_FOLDER.
  unfold is_dir, GENERATED_DATA_FOLDER in *. now rewrite Hg.
Qed.

Lemma copy2_no_template (fs : FS) (name : string) :
  (forall c, fs (template name) <> Some (File c)) ->
  copy2 fs (template name) (staged name) = Raise OSError.
Proof.
  intros Hsrc. destruct (copy2 fs (template name) (staged name)) as [fs'|e] eqn:E.
  - exfalso. unfold copy2 in E.
    destruct (fs (template name)) as [[c|]|]; try discriminate. now elim (Hsrc c).
  - f_equal. eapply copy2_error. exact E.
Qed.

(** X16. [copy_common_input_files] fails fast and does not undo: with
    the generated-data folder creatable and nothing in the way of the
    staged files, a missing lookup table raises [OSError] before
    anything is copied; a missing weather file raises [OSError] after
    the lookup table has been staged, and the staged copy stays; with
    both templates present the step returns. *)
Theorem copy_fails_fast (st : machine) :
  (forall c, files st ["data"%string] <> Some (File c)) ->
  (forall c, files st GENERATED_DATA_FOLDER <> Some (File c)) ->
  is_dir (files st) (staged "fbp_lookup_table.csv") = false ->
  is_dir (files st) (staged "Weather.csv") = false ->
  ((forall c, files st (template "fbp_lookup_table.csv") <> Some (File c)) ->
   exists st',
     copy_common_input_files st = (st', Failed (PyError OSError))
     /\ forall q, q <> ["data"%string] -> q <> GENERATED_DATA_FOLDER ->
          files st' q = files st q)
  /\ (forall c,
        files st (template "fbp_lookup_table.csv") = Some (File c) ->
        (forall c', files st (template "Weather.csv") <> Some (File c')) ->
        exists st',
          copy_common_input_files st = (st', Failed (PyError OSError))
          /\ files st' (staged "fbp_lookup_table.csv") = Some (File c)
          /\ files st' (staged "Weather.csv") = files st (staged "Weather.csv"))
  /\ (forall c c',
        files st (template "fbp_lookup_table.csv") = Some (File c) ->
        files st (template "Weather.csv") = Some (File c') ->
        exists st', copy_common_input_files st = (st', Done tt)).
Proof.
  intros Hd Hg Hl Hw.
  destruct (mkdir_generated_folder_ok _ Hd Hg) as [fs1 Hmk].
  destruct (mkdir_generated_folder _ _ Hmk) as (Hd1 & Hg1 & Hframe).
  rewrite (copy_common_input_files_steps st fs1 Hmk).
  assert (Hl1 : is_dir fs1 (staged "fbp_lookup_table.csv") = false)
    by (cbn [is_dir staged app GENERATED_DATA_FOLDER] in *;
        rewrite Hframe by apart; exact Hl).
  assert (Hw1 : is_dir fs1 (staged "Weather.csv") = false)
    by (cbn [is_dir staged app GENERATED_DATA_FOLDER] in *;
        rewrite Hframe by apart; exact Hw).
  split; [|split].
  - intros Hno. rewrite copy2_no_template
      by (intros c; rewrite Hframe by apart; apply Hno).
    eexists. split; [reflexivity|]. exact Hframe.
  - intros c Hc Hno.
    rewrite (copy2_staged fs1 _ c) by (try rewrite Hframe by apart; assumption).
    rewrite copy2_no_template
      by (intros c'; rewrite put_other, Hframe by apart; apply Hno).
    eexists. split; [reflexivity|]. cbn [files]. split; [apply put_same|].
    now rewrite put_other, Hframe by apart.
  - intros c c' Hc Hc'.
    rewrite (copy2_staged fs1 _ c) by (try rewrite Hframe by apart; assumption).
    rewrite (copy2_staged _ _ c').
    + now eexists.
    + now rewrite put_other by apart.
    + now rewrite is_dir_put_other by apart.
    + now rewrite put_other, Hframe by apart.
Qed.

Lemma copy_fails_fast_witness :
  exists st',
    copy_common_input_files checkout_without_weather = (st', Failed (PyError OSError))
    /\ files st' (staged "fbp_lookup_table.csv") = Some (File "fuel_type,a,b,c")
    /\ files st' (staged "Weather.csv")
       = files checkout_without_weather (staged "Weather.csv").
Proof.
  refine (proj1 (proj2 (copy_fails_fast checkout_without_weather _ _ _ _))
            "fuel_type,a,b,c"%string _ _).
  - intros c H. discriminate H.
  - intros c H. discriminate H.
  - reflexivity.
  - reflexivity.
  - reflexivity.
  - intros c H. discriminate H.
Defined.

(** X17. Staging is repeatable: after a run of
    [copy_common_input_files] that returned, another run returns too
    and leaves every path as it is. *)
Theorem copy_is_idempotent (st st1 : machine) :
  is_dir (files st) (staged "fbp_lookup_table.csv") = false ->
  is_dir (files st) (staged "Weather.csv") = false ->
  copy_common_input_files st = (st1, Done tt) ->
  exists st2,
    copy_common_input_files st1 = (st2, Done tt)
    /\ (forall q, files st2 q = files st1 q)
    /\ outputs st2 = outputs st1 /\ invocations st2 = invocations st1.
Proof.
  intros Hl Hw Hrun.
  destruct (mkdir_parents (files st) GENERATED_DATA_FOLDER) as [fs1|e] eqn:Hmk.
  2:{ rewrite (copy_common_input_files_no_folder st e Hmk) in Hrun. discriminate. }
  rewrite (copy_common_input_files_steps st fs1 Hmk) in Hrun.
  destruct (mkdir_generated_folder _ _ Hmk) as (Hd & Hg & Hframe).
  assert (Hl1 : is_dir fs1 (staged "fbp_lookup_table.csv") = false)
    by (cbn [is_dir staged app GENERATED_DATA_FOLDER] in *;
        rewrite Hframe by apart; exact Hl).
  destruct (copy2 fs1 _ _) as [fs2|e] eqn:Hc1; [|discriminate].
  apply (copy2_onto_file _ _ _ _ Hl1) in Hc1 as (c1 & Hs1 & _ & _ & ->).
  assert (Hw2 : is_dir (put fs1 (staged "fbp_lookup_table.csv") (File c1))
                  (staged "Weather.csv") = false).
  { rewrite is_dir_put_other by apart.
    cbn [is_dir staged app GENERATED_DATA_FOLDER] in *.
    rewrite Hframe by apart. exact Hw. }
  destruct (copy2 (put fs1 _ _) _ _) as [fs3|e] eqn:Hc2; [|discriminate].
  apply (copy2_onto_file _ _ _ _ Hw2) in Hc2 as (c2 & Hs2 & _ & _ & ->).
  injection Hrun as <-.
  set (fs3 := put (put fs1 (staged "fbp_lookup_table.csv") (File c1))
                (staged "Weather.csv") (File c2)) in *.
  assert (Hd3 : fs3 ["data"%string] = Some Dir)
    by (unfold fs3; now rewrite !put_other by apart).
  assert (Hg3 : fs3 GENERATED_DATA_FOLDER = Some Dir)
    by (unfold fs3; now rewrite !put_other by apart).
  assert (Hl3 : fs3 (staged "fbp_lookup_table.csv") = Some (File c1))
    by (unfold fs3; rewrite put_other by apart; apply put_same).
  assert (Hw3 : fs3 (staged "Weather.csv") = Some (File c2))
    by (unfold fs3; apply put_same).
  assert (Hs3 : fs3 (template "fbp_lookup_table.csv") = Some (File c1))
    by (unfold fs3; now rewrite !put_other by apart).
  assert (Ht3 : fs3 (template "Weather.csv") = Some (File c2))
    by (unfold fs3; now rewrite put_other by apart).
  rewrite (copy_common_input_files_steps _ fs3)
    by (cbn [files]; now apply mkdir_generated_folder_again).
  rewrite (copy2_staged fs3 _ c1);
    [|exact Hg3 | cbn [is_dir staged app GENERATED_DATA_FOLDER] in *; now rewrite Hl3
     | exact Hs3].
  rewrite (copy2_staged _ _ c2).
  - eexists. split; [reflexivity|]. cbn [files outputs invocations].
    split; [|split; reflexivity].
    intros q. unfold put at 1 2.
    destruct (path_eqb q (staged "Weather.csv")) eqn:E1.
    + apply path_eqb_eq in E1. subst q. now rewrite Hw3.
    + destruct (path_eqb q (staged "fbp_lookup_table.csv")) eqn:E2; [|reflexivity].
      apply path_eqb_eq in E2. subst q. now rewrite Hl3.
  - now rewrite put_other by apart.
  - rewrite is_dir_put_other by apart.
    cbn [is_dir staged app GENERATED_DATA_FOLDER] in *. now rewrite Hw3.
  - now rewrite put_other by apart.
Qed.

Lemma copy_is_idempotent_witness :
  exists st2,
    copy_common_input_files (fst (copy_common_input_files fresh_checkout))
    = (st2, Done tt)
    /\ (forall q, files st2 q = files (fst (copy_common_input_files fresh_checkout)) q)
    /\ outputs st2 = outputs (fst (copy_common_input_files fresh_checkout))
    /\ invocations st2 = invocations (fst (copy_common_input_files fresh_checkout)).
Proof.
  apply (copy_is_idempotent fresh_checkout
           (fst (copy_common_input_files fresh_checkout))); reflexivity.
Defined.

(** ** The pipeline: staging, the simulator, the report *)

Ltac apart_paths :=
  cbv [forest_path data_path values_path staged template
       GENERATED_DATA_FOLDER BASE_TOY_FOLDER OUTPUT_FOLDER app];
  discriminate.

Lemma mkdirs_error (todo : path) :
  forall fs done e, mkdirs fs done todo = Raise e -> e = OSError.
Proof.
  induction todo as [|c rest IH]; intros fs done e; cbn [mkdirs]; [discriminate|].
  destruct (fs (done ++ [c])) as [[content|]|]; [congruence | apply IH | apply IH].
Qed.

Lemma write_file_spec (fs : FS) (p : path) (content : string) :
  (exists fs', write_file fs p content = Ok fs' /\ fs' = put fs p (File content))
  \/ write_file fs p content = Raise OSError.
Proof.
  unfold write_file. destruct (is_dir fs p); [now right|].
  destruct (is_dir fs (removelast p)); [left; now eexists | now right].
Qed.

Lemma on_files_result (op : FS -> result FS) (st st' : machine) (r : outcome unit) :
  on_files op st = (st', r) ->
  outputs st' = outputs st /\ invocations st' = invocations st
  /\ ((op (files st) = Ok (files st') /\ r = Done tt)
      \/ exists e, op (files st) = Raise e /\ st' = st /\ r = Failed (PyError e)).
Proof.
  unfold on_files. destruct (op (files st)) as [fs|e]; intros [= <- <-].
  - cbn. auto.
  - repeat split; auto. right. now exists e.
Qed.

Lemma copy_common_input_files_result (st st' : machine) (r : outcome unit) :
  copy_common_input_files st = (st', r) ->
  outputs st' = outputs st /\ invocations st' = invocations st
  /\ (r = Done tt \/ r = Failed (PyError OSError)).
Proof.
  destruct (mkdir_parents (files st) GENERATED_DATA_FOLDER) as [fs1|e] eqn:Hmk.
  - rewrite (copy_common_input_files_steps st fs1 Hmk).
    destruct (copy2 fs1 _ _) as [fs2|e] eqn:E1.
    + destruct (copy2 fs2 _ _) as [fs3|e] eqn:E2; intros [= <- <-]; cbn; auto.
      apply copy2_error in E2. subst e. auto.
    + apply copy2_error in E1. subst e. intros [= <- <-]. cbn. auto.
  - rewrite (copy_common_input_files_no_folder st e Hmk).
    apply mkdirs_error in Hmk. subst e. intros [= <- <-]. auto.
Qed.

Lemma write_step_result (p : path) (content : string) (st st' : machine) (r : outcome unit) :
  on_files (fun fs => write_file fs p content) st = (st', r) ->
  outputs st' = outputs st /\ invocations st' = invocations st
  /\ ((files st' = put (files st) p (File content) /\ r = Done tt)
      \/ (st' = st /\ r = Failed (PyError OSError))).
Proof.
  intros H. apply on_files_result in H as (Ho & Hi & H).
  split; [exact Ho|]. split; [exact Hi|].
  destruct (write_file_spec (files st) p content) as [(fs' & Hw & ->) | Hw];
    destruct H as [[Hop ->] | (e & Hop & -> & ->)]; rewrite Hw in Hop.
  - left. split; [congruence | reflexivity].
  - discriminate.
  - discriminate.
  - right. split; [reflexivity | congruence].
Qed.

(** Staging either fails with [OSError], or leaves the three generated
    files in place and hands on the reference value map; it does not
    touch the output folder and does not run the simulator. *)
Lemma stage_inputs_result (st st' : machine) (r : outcome array2) :
  stage_inputs st = (st', r) ->
  outputs st' = outputs st /\ invocations st' = invocations st
  /\ (r = Failed (PyError OSError)
      \/ (r = Done (powerline_matrix 100 100)
          /\ files st' forest_path = Some (File (build_forest_asc 100 100))
          /\ files st' data_path = Some (File (build_data_csv 100 100))
          /\ files st' values_path
             = Some (File (savetxt (powerline_matrix 100 100))))).
Proof.
  unfold stage_inputs, io_bind.
  destruct (copy_common_input_files st) as [st1 r1] eqn:E1.
  apply copy_common_input_files_result in E1 as (Ho1 & Hi1 & [-> | ->]).
  2:{ intros [= <- <-]. auto. }
  unfold write_forest_asc.
  destruct (on_files _ st1) as [st2 r2] eqn:E2.
  apply write_step_result in E2 as (Ho2 & Hi2 & [[Hf2 ->] | [-> ->]]).
  2:{ intros [= <- <-]. auto. }
  unfold write_data_csv.
  destruct (on_files _ st2) as [st3 r3] eqn:E3.
  apply write_step_result in E3 as (Ho3 & Hi3 & [[Hf3 ->] | [-> ->]]).
  2:{ intros [= <- <-]. split; [congruence|]. split; [congruence | auto]. }
  unfold write_powerline_values.
  rewrite build_powerline_values_ok by lia.
  destruct (on_files _ st3) as [st4 r4] eqn:E4.
  apply write_step_result in E4 as (Ho4 & Hi4 & [[Hf4 ->] | [-> ->]]).
  2:{ intros [= <- <-]. split; [congruence|]. split; [congruence | auto]. }
  intros [= <- <-].
  split; [congruence|]. split; [congruence|]. right.
  split; [reflexivity|].
  fold forest_path in Hf2. fold data_path in Hf3. fold values_path in Hf4.
  rewrite Hf4, Hf3, Hf2.
  split; [|split].
  - rewrite !put_other by apart_paths. apply put_same.
  - rewrite put_other by apart_paths. apply put_same.
  - apply put_same.
Qed.

Lemma lifts_on_files (op : FS -> result FS) : lifts (on_files op).
Proof.
  intros outs st. unfold on_files, with_outputs. cbn [files outputs invocations].
  destruct (op (files st)); reflexivity.
Qed.

Lemma lifts_bind {A B : Type} (m : io A) (k : A -> io B) :
  lifts m -> (forall a, lifts (k a)) -> lifts (io_bind m k).
Proof.
  intros Hm Hk outs st. unfold io_bind. rewrite Hm.
  destruct (m st) as [st1 [a|f]]; cbn [fst snd]; [apply Hk | reflexivity].
Qed.

Lemma lifts_for_each_file (body : string -> io unit) (names : list string) :
  (forall n, lifts (body n)) -> lifts (for_each_file body names).
Proof.
  intros Hbody. induction names as [|n names IH]; cbn [for_each_file].
  - intros outs st. reflexivity.
  - apply lifts_bind; [apply Hbody | intros _; exact IH].
Qed.

Lemma lifts_stage_inputs : lifts stage_inputs.
Proof.
  unfold stage_inputs.
  apply lifts_bind.
  { unfold copy_common_input_files. apply lifts_bind; [apply lifts_on_files|].
    intros _. apply lifts_for_each_file. intros n. apply lifts_on_files. }
  intros _. apply lifts_bind; [apply lifts_on_files|].
  intros _. apply lifts_bind; [apply lifts_on_files|].
  intros _ outs st. unfold write_powerline_values.
  destruct (build_powerline_values 100 100) as [[values text]|e]; [|reflexivity].
  rewrite lifts_on_files.
  destruct (on_files _ st) as [st1 [[]|f]]; reflexivity.
Qed.

Lemma run_cell2fire_with_outputs (sim : simulator) (root : string) (nsims years : Z)
  (outs : option World) (st : machine) :
  run_cell2fire sim root nsims years (with_outputs outs st)
  = run_cell2fire sim root nsims years st.
Proof.
  unfold run_cell2fire, with_outputs. cbn [files outputs invocations].
  destruct outs, (outputs st); reflexivity.
Qed.

Lemma main_after_staging (sim : simulator) (root : string) (st : machine) :
  main sim root st =
  match stage_inputs st with
  | (st1, Done values) =>
      (_ <~ run_cell2fire sim root 20 1 ;; report_losses values 20) st1
  | (st1, Failed f) => (st1, Failed f)
  end.
Proof.
  unfold main, stage_inputs, io_bind. cbv zeta.
  destruct (copy_common_input_files st) as [st1 [[]|f]]; [|reflexivity].
  destruct (write_forest_asc 100 100 st1) as [st2 [[]|f]]; [|reflexivity].
  destruct (write_data_csv 100 100 st2) as [st3 [[]|f]]; [|reflexivity].
  destruct (write_powerline_values 100 100 st3) as [st4 [values|f]]; reflexivity.
Qed.

(** X18. Stale outputs are never read: whatever the output folder held
    before [main] started, [main] ends the same way (the same report or
    the same failure), with the same files and the same simulator
    runs. *)
Theorem main_ignores_stale_outputs (sim : simulator) (root : string)
  (outs : option World) (st : machine) :
  snd (main sim root (with_outputs outs st)) = snd (main sim root st)
  /\ files (fst (main sim root (with_outputs outs st))) = files (fst (main sim root st))
  /\ invocations (fst (main sim root (with_outputs outs st)))
     = invocations (fst (main sim root st)).
Proof.
  rewrite !main_after_staging, lifts_stage_inputs.
  destruct (stage_inputs st) as [st1 [values|f]]; cbn [fst snd].
  - unfold io_bind. rewrite run_cell2fire_with_outputs. auto.
  - auto.
Qed.

Lemma run_cell2fire_result (sim : simulator) (root : string) (nsims years : Z)
  (st st' : machine) (r : outcome unit) :
  run_cell2fire sim root nsims years st = (st', r) ->
  exists code,
    sim (cell2fire_cmd root nsims years) (files st) None
    = (code, files st', outputs st')
    /\ invocations st'
       = invocations st ++ [mkInvocation (cell2fire_cmd root nsims years) (files st) None]
    /\ r = if (code =? 0)%Z then Done tt else Failed (CalledProcessError code).
Proof.
  unfold run_cell2fire. cbv zeta.
  replace (match outputs st with Some _ => None | None => outputs st end)
    with (@None World) by (destruct (outputs st); reflexivity).
  destruct (sim (cell2fire_cmd root nsims years) (files st) None) as [[code fs] outs].
  exists code. destruct (code =? 0)%Z; injection H as <- <-; auto.
Qed.

(** X19. [main] runs the simulator at most once. Either staging fails
    with [OSError] and the simulator is not run; or it is run exactly
    once, for 20 replicates, with no output folder in place and with the
    generated raster, attribute table and value file on disk, the value
    file reading back as the very matrix the aggregation then uses. A
    non-zero return code ends [main] with [CalledProcessError]; with
    return code 0 [main] ends as the aggregation over the simulator's
    outputs does. *)
Theorem main_runs_the_simulator_once (sim : simulator) (root : string)
  (st st' : machine) (r : outcome report) :
  main sim root st = (st', r) ->
  (r = Failed (PyError OSError) /\ invocations st' = invocations st)
  \/ exists inv code,
      invocations st' = invocations st ++ [inv]
      /\ inv_cmd inv = cell2fire_cmd root 20 1
      /\ inv_outputs inv = None
      /\ inv_files inv forest_path = Some (File (build_forest_asc 100 100))
      /\ inv_files inv data_path = Some (File (build_data_csv 100 100))
      /\ (exists text,
             inv_files inv values_path = Some (File text)
             /\ read_values text = Some (rows_of (powerline_matrix 100 100)))
      /\ sim (inv_cmd inv) (inv_files inv) (inv_outputs inv)
         = (code, files st', outputs st')
      /\ r = if (code =? 0)%Z
             then match evaluate_losses (world_of (outputs st'))
                          (powerline_matrix 100 100) 20 with
                  | Ok rep => Done rep
                  | Raise e => Failed (PyError e)
                  end
             else Failed (CalledProcessError code).
Proof.
  rewrite main_after_staging.
  destruct (stage_inputs st) as [st1 r1] eqn:Es.
  apply stage_inputs_result in Es as (Ho & Hi & [-> | (-> & Hf & Hd & Hv)]).
  { intros [= <- <-]. left. auto. }
  unfold io_bind.
  destruct (run_cell2fire sim root 20 1 st1) as [st2 r2] eqn:Er.
  apply run_cell2fire_result in Er as (code & Hsim & Hinv & ->).
  intros Hend. right.
  exists (mkInvocation (cell2fire_cmd root 20 1) (files st1) None), code.
  cbn [inv_cmd inv_files inv_outputs].
  assert (Hst : invocations st' = invocations st2 /\ files st' = files st2
                /\ outputs st' = outputs st2
                /\ r = if (code =? 0)%Z
                       then match evaluate_losses (world_of (outputs st2))
                                    (powerline_matrix 100 100) 20 with
                            | Ok rep => Done rep
                            | Raise e => Failed (PyError e)
                            end
                       else Failed (CalledProcessError code)).
  { destruct (code =? 0)%Z.
    - unfold report_losses in Hend.
      destruct (evaluate_losses _ _ _); injection Hend as <- <-; auto.
    - injection Hend as <- <-. auto. }
  destruct Hst as (Hi' & Hf' & Ho' & ->).
  rewrite Hi', Hf', Ho', Hinv, Hi.
  repeat split; try assumption.
  exists (savetxt (powerline_matrix 100 100)). split; [exact Hv|].
  apply read_values_savetxt, powerline_matrix_two_valued.
Qed.

Lemma main_runs_the_simulator_once_witness :
  (snd (main failing_simulator "/repo" fresh_checkout) = Failed (PyError OSError)
   /\ invocations (fst (main failing_simulator "/repo" fresh_checkout))
      = invocations fresh_checkout)
  \/ exists inv code,
      invocations (fst (main failing_simulator "/repo" fresh_checkout))
      = invocations fresh_checkout ++ [inv]
      /\ inv_cmd inv = cell2fire_cmd "/repo" 20 1
      /\ inv_outputs inv = None
      /\ inv_files inv forest_path = Some (File (build_forest_asc 100 100))
      /\ inv_files inv data_path = Some (File (build_data_csv 100 100))
      /\ (exists text,
             inv_files inv values_path = Some (File text)
             /\ read_values text = Some (rows_of (powerline_matrix 100 100)))
      /\ failing_simulator (inv_cmd inv) (inv_files inv) (inv_outputs inv)
         = (code, files (fst (main failing_simulator "/repo" fresh_checkout)),
            outputs (fst (main failing_simulator "/repo" fresh_checkout)))
      /\ snd (main failing_simulator "/repo" fresh_checkout)
         = if (code =? 0)%Z
           then match evaluate_losses
                        (world_of (outputs (fst (main failing_simulator "/repo"
                                                   fresh_checkout))))
                        (powerline_matrix 100 100) 20 with
                | Ok rep => Done rep
                | Raise e => Failed (PyError e)
                end
           else Failed (CalledProcessError code).
Proof.
  apply (main_runs_the_simulator_once failing_simulator "/repo" fresh_checkout).
  reflexivity.
Defined.

(** What [main] does on the checkout when the simulator fails. *)
Example main_with_failing_simulator :
  snd (main failing_simulator "/repo" fresh_checkout)
  = Failed (CalledProcessError 2).
Proof. vm_compute. reflexivity. Qed.

(** X20. A report of [main] is a report over 20 replicates of a
    100-cell power line at column 49: every replicate had a final grid
    of 100 rows with a column 49, the hit count lies between 0 and 20,
    the hit rate between 0 and 1, and
    0 <= mean loss <= maximum loss <= 10000. *)
Theorem main_report_bounds (sim : simulator) (root : string)
  (st st' : machine) (r : report) :
  main sim root st = (st', Done r) ->
  n_sims r = 20%Z /\ cells_per_sim r = 100%nat
  /\ (forall k, (1 <= k <= 20)%Z ->
        exists col,
          final_grid_column (world_of (outputs st')) 49 k = Ok col
          /\ List.length col = 100%nat)
  /\ (0 <= hit_count r <= 20)%Z
  /\ 0 <= hit_rate r /\ hit_rate r <= 1
  /\ 0 <= avg_loss r /\ avg_loss r <= max_loss r /\ max_loss r <= 10000.
Proof.
  rewrite main_after_staging.
  destruct (stage_inputs st) as [st1 r1] eqn:Es.
  apply stage_inputs_result in Es as (_ & _ & [-> | (-> & _)]); [discriminate|].
  unfold io_bind.
  destruct (run_cell2fire sim root 20 1 st1) as [st2 [[]|f]]; [|discriminate].
  unfold report_losses.
  destruct (evaluate_losses (world_of (outputs st2)) (powerline_matrix 100 100) 20)
    as [rep|e] eqn:Ev; [|discriminate].
  intros [= <- <-].
  pose proof (column_powerline_matrix 100 100 ltac:(lia) ltac:(lia)) as Hpv.
  assert (Hnn : Forall (fun v => 0 <= v) (repeat 100 (Z.to_nat 100)))
    by (all_of_repeat; discriminate).
  destruct (report_bounds _ _ _ _ _ Ev Hpv Hnn)
    as (Hn & Hc & Hh & Hr0 & Hr1 & Ha0 & Ham & Hmax).
  split; [exact Hn|]. split; [exact Hc|]. split.
  - intros k Hk.
    destruct (columns_of_report _ _ _ _ Ev) as (_ & pv & cols & Hpv' & HF).
    rewrite Hpv in Hpv'. injection Hpv' as <-.
    assert (Hin : In k (range 1 (20 + 1))) by (apply in_range; lia).
    destruct (Forall2_in_left _ _ _ _ HF Hin) as (col & _ & Hcol & Hlen).
    exists col. split; [exact Hcol|]. rewrite Hlen. reflexivity.
  - split; [exact Hh|]. repeat split; assumption.
Qed.

Lemma main_report_bounds_witness :
  20%Z = 20%Z /\ 100%nat = 100%nat
  /\ (forall k, (1 <= k <= 20)%Z ->
        exists col,
          final_grid_column
            (world_of (outputs (fst (main burning_simulator "/repo" fresh_checkout))))
            49 k = Ok col
          /\ List.length col = 100%nat)
  /\ (0 <= 20 <= 20)%Z
  /\ 0 <= 20 # 20 /\ 20 # 20 <= 1
  /\ 0 <= 200000 # 20 /\ 200000 # 20 <= 10000 /\ 10000 <= 10000.
Proof.
  apply (main_report_bounds burning_simulator "/repo" fresh_checkout
           (fst (main burning_simulator "/repo" fresh_checkout))
           (mkReport 20 100 20 (20 # 20) (200000 # 20) 10000)).
  reflexivity.
Defined.

(** ** The aggregation: the order of the replicates *)

Lemma count_hits_permutation (outs outs' : list (Q * bool)) :
  Permutation outs outs' -> count_hits outs = count_hits outs'.
Proof.
  induction 1 as [|o l l' _ IH|o1 o2 l|l l' l'' _ IH1 _ IH2].
  - reflexivity.
  - rewrite !count_hits_cons. lia.
  - rewrite !count_hits_cons. lia.
  - congruence.
Qed.

Lemma total_permutation (l l' : list Q) : Permutation l l' -> total l == total l'.
Proof.
  induction 1 as [|x l l' _ IH|x y l|l l' l'' _ IH1 _ IH2];
    cbn [total fold_right].
  - reflexivity.
  - fold (total l) (total l'). now rewrite IH.
  - fold (total l). rewrite !Qplus_assoc, (Qplus_comm y x). reflexivity.
  - now rewrite IH1.
Qed.

Lemma maximum_permutation (l l' : list Q) (m m' : Q) :
  Permutation l l' -> is_maximum m l -> is_maximum m' l' -> m == m'.
Proof.
  intros P [Hin Hall] [Hin' Hall']. apply Qle_antisym.
  - eapply Forall_forall in Hall'; [exact Hall'|].
    eapply Permutation_in; [exact P | exact Hin].
  - eapply Forall_forall in Hall; [exact Hall|].
    eapply Permutation_in; [apply Permutation_sym, P | exact Hin'].
Qed.

Lemma columns_are_determined (w : World) (pv : list Q) (idx : Z) (sims : list Z)
  (cols cols' : list (list Q)) :
  Forall2 (fun sim col => final_grid_column w idx sim = Ok col
                          /\ List.length col = List.length pv) sims cols ->
  Forall2 (fun sim col => final_grid_column w idx sim = Ok col) sims cols' ->
  cols = cols'.
Proof.
  intros HF. revert cols'.
  induction HF as [|sim col sims cols [Hc _] _ IH]; intros cols' HF';
    inversion HF' as [|? col' ? cols'' Hc' HF'']; subst; [reflexivity|].
  f_equal; [congruence | now apply IH].
Qed.

(** In exact arithmetic the order of the replicates does not matter:
    when two runs produced the same power-line columns in another order,
    their reports agree on the hit count, the hit rate, the mean loss
    and the maximum loss. *)
Lemma exact_order_is_irrelevant (w w' : World) (values : array2) (nsims : Z)
  (r r' : report) (cols cols' : list (list Q)) :
  evaluate_losses w values nsims = Ok r ->
  evaluate_losses w' values nsims = Ok r' ->
  Forall2 (fun sim col => final_grid_column w (powerline_col_index values) sim = Ok col)
    (range 1 (nsims + 1)) cols ->
  Forall2 (fun sim col => final_grid_column w' (powerline_col_index values) sim = Ok col)
    (range 1 (nsims + 1)) cols' ->
  Permutation cols cols' ->
  hit_count r = hit_count r' /\ hit_rate r == hit_rate r'
  /\ avg_loss r == avg_loss r' /\ max_loss r == max_loss r'.
Proof.
  intros H H' HF HF' P.
  apply evaluate_losses_report in H as (pv & outs & mx & Hpv & Ho & Hn & Hmx & ->).
  apply evaluate_losses_report in H' as (pv' & outs' & mx' & Hpv' & Ho' & _ & Hmx' & ->).
  assert (pv' = pv) as -> by congruence.
  destruct (columns_of_outcomes _ _ _ _ _ Ho) as (c0 & Hc0 & ->).
  destruct (columns_of_outcomes _ _ _ _ _ Ho') as (c0' & Hc0' & ->).
  rewrite (columns_are_determined _ _ _ _ _ _ Hc0 HF).
  rewrite (columns_are_determined _ _ _ _ _ _ Hc0' HF') in *.
  rewrite (columns_are_determined _ _ _ _ _ _ Hc0 HF) in Hmx.
  assert (Pouts : Permutation (map (outcome_of pv) cols) (map (outcome_of pv) cols'))
    by now apply Permutation_map.
  assert (Plosses : Permutation (map fst (map (outcome_of pv) cols))
                      (map fst (map (outcome_of pv) cols')))
    by now apply Permutation_map.
  cbn [hit_count hit_rate avg_loss max_loss].
  rewrite (count_hits_permutation _ _ Pouts).
  split; [reflexivity|]. split; [reflexivity|]. split.
  - rewrite !mean_total, (total_permutation _ _ Plosses),
      (Permutation_length Plosses). reflexivity.
  - eapply maximum_permutation; [exact Plosses | |]; now apply max_is_maximum.
Qed.

(** X21. In floating point, where no sum is rounded (a value map of
    [float32] or [float64] cells whose power-line values are whole
    numbers with a sum of at most [2 ^ 24], at most [2 ^ 29]
    replicates), the order of the replicates does not matter: when two
    runs produced the same power-line columns in another order, their
    reports agree on the hit count, the hit rate, the mean loss and the
    maximum loss. *)
Theorem replicate_order_is_irrelevant (f : format) (w w' : World) (values : array2)
  (nsims : Z) (pv : list Q) (r r' : Fp.report Q) (cols cols' : list (list Q)) :
  f = binary32 \/ f = binary64 ->
  column values (powerline_col_index values) = Ok pv ->
  summed_exactly pv ->
  (nsims <= 2 ^ 29)%Z ->
  Fp.evaluate_losses (rounded f) (fp_world w) (fp_array values) nsims = Ok r ->
  Fp.evaluate_losses (rounded f) (fp_world w') (fp_array values) nsims = Ok r' ->
  Forall2 (fun sim col => final_grid_column w (powerline_col_index values) sim = Ok col)
    (range 1 (nsims + 1)) cols ->
  Forall2 (fun sim col => final_grid_column w' (powerline_col_index values) sim = Ok col)
    (range 1 (nsims + 1)) cols' ->
  Permutation cols cols' ->
  Fp.hit_count r = Fp.hit_count r' /\ Fp.hit_rate r == Fp.hit_rate r'
  /\ Fp.avg_loss r == Fp.avg_loss r' /\ Fp.max_loss r == Fp.max_loss r'.
Proof.
  intros Hfmt Hpv Hexact Hn H H' HF HF' P.
  pose proof (rounded_report f w values nsims pv Hfmt Hpv Hexact Hn) as Hr.
  pose proof (rounded_report f w' values nsims pv Hfmt Hpv Hexact Hn) as Hr'.
  rewrite H in Hr. rewrite H' in Hr'.
  destruct (evaluate_losses w values nsims) as [r0|e] eqn:Hq; [|contradiction].
  destruct (evaluate_losses w' values nsims) as [r0'|e] eqn:Hq'; [|contradiction].
  destruct Hr as (_ & _ & Hhits & Hrate & Havg & Hmax & _).
  destruct Hr' as (_ & _ & Hhits' & Hrate' & Havg' & Hmax' & _).
  destruct (exact_order_is_irrelevant w w' values nsims r0 r0' cols cols' Hq Hq' HF HF' P)
    as (Hh0 & Hr0 & Ha0 & Hm0).
  split; [congruence|]. split; [|split].
  - now rewrite Hrate, Hrate', (round_Qeq binary64 _ _ Hr0).
  - now rewrite Havg, Havg', (round_Qeq binary64 _ _ Ha0).
  - now rewrite Hmax, Hmax', Hm0.
Qed.

Lemma replicate_order_is_irrelevant_witness :
  1%Z = 1%Z /\ 1 # 2 == 1 # 2 /\ 200 == 200 /\ 400 == 400.
Proof.
  apply (replicate_order_is_irrelevant binary32 scenario_world scenario_world_swapped
           scenario_values 2 [100; 100; 100; 100]
           (Fp.mkReport 2 4 1 (1 # 2) 200 400)
           (Fp.mkReport 2 4 1 (1 # 2) 200 400)
           [[1; 1; 1; 1]; [0; 0; 0; 0]] [[0; 0; 0; 0]; [1; 1; 1; 1]]).
  - now left.
  - reflexivity.
  - assert (Hw : whole 100) by (exists 100%Z; split; [lia | reflexivity]).
    split.
    + repeat (apply Forall_cons; [exact Hw|]). apply Forall_nil.
    + vm_compute. discriminate.
  - lia.
  - vm_compute. reflexivity.
  - vm_compute. reflexivity.
  - change (range 1 (2 + 1)) with [1; 2]%Z. repeat constructor.
  - change (range 1 (2 + 1)) with [1; 2]%Z. repeat constructor.
  - apply perm_swap.
Defined.

(** ** The aggregation: rounding *)

(** X22. In floating point, where no sum is rounded (a value map of
    [float32] or [float64] cells whose power-line values are whole
    numbers with a sum of at most [2 ^ 24], at most [2 ^ 29]
    replicates), the aggregation returns a report exactly when the exact
    computation does: the same report, but for the hit rate and the mean
    loss, which are those of the exact report rounded to the nearest
    [float64]; and it raises an exception exactly when the exact
    computation raises it. *)
Theorem rounding_only_in_the_quotients (f : format) (w : World) (values : array2)
  (nsims : Z) (pv : list Q) :
  f = binary32 \/ f = binary64 ->
  column values (powerline_col_index values) = Ok pv ->
  summed_exactly pv ->
  (nsims <= 2 ^ 29)%Z ->
  (forall r',
      Fp.evaluate_losses (rounded f) (fp_world w) (fp_array values) nsims = Ok r' ->
      exists r,
        evaluate_losses w values nsims = Ok r /\ exact_up_to_the_quotients r r')
  /\ (forall r,
        evaluate_losses w values nsims = Ok r ->
        exists r',
          Fp.evaluate_losses (rounded f) (fp_world w) (fp_array values) nsims = Ok r'
          /\ exact_up_to_the_quotients r r')
  /\ (forall e,
        Fp.evaluate_losses (rounded f) (fp_world w) (fp_array values) nsims = Raise e
        <-> evaluate_losses w values nsims = Raise e).
Proof.
  intros Hfmt Hpv Hexact Hn.
  pose proof (rounded_report f w values nsims pv Hfmt Hpv Hexact Hn) as Hr.
  destruct (evaluate_losses w values nsims) as [r|e],
           (Fp.evaluate_losses (rounded f) (fp_world w) (fp_array values) nsims)
    as [r'|e']; try contradiction.
  - split; [|split].
    + intros r0 [= <-]. now exists r.
    + intros r0 [= <-]. now exists r'.
    + intros e. split; discriminate.
  - subst e'. split; [|split].
    + discriminate.
    + discriminate.
    + intros e0. split; intros [= <-]; reflexivity.
Qed.

Lemma rounding_only_in_the_quotients_witness :
  (forall r',
      Fp.evaluate_losses (rounded binary32) (fp_world scenario_world)
        (fp_array scenario_values) 2 = Ok r' ->
      exists r,
        evaluate_losses scenario_world scenario_values 2 = Ok r
        /\ exact_up_to_the_quotients r r')
  /\ (forall r,
        evaluate_losses scenario_world scenario_values 2 = Ok r ->
        exists r',
          Fp.evaluate_losses (rounded binary32) (fp_world scenario_world)
            (fp_array scenario_values) 2 = Ok r'
          /\ exact_up_to_the_quotients r r')
  /\ (forall e,
        Fp.evaluate_losses (rounded binary32) (fp_world scenario_world)
          (fp_array scenario_values) 2 = Raise e
        <-> evaluate_losses scenario_world scenario_values 2 = Raise e).
Proof.
  apply (rounding_only_in_the_quotients binary32 scenario_world scenario_values 2
           [100; 100; 100; 100]).
  - now left.
  - reflexivity.
  - assert (Hw : whole 100) by (exists 100%Z; split; [lia | reflexivity]).
    split.
    + repeat (apply Forall_cons; [exact Hw|]). apply Forall_nil.
    + vm_compute. discriminate.
  - lia.
Defined.
